(* ===== verification/_CoqProject ===== *)
-Q . S2P
Prelude.v
Listen.v
JsText.v
Emitter.v
Registry.v
Answered.v
Protocol.v
IndexServer.v
IndexInvariants.v
IndexProps.v
ServerJs.v
Paths.v
App.v
ServerInvariants.v
ServerProps.v
