(* ===== verification/Prelude.v ===== *)
(** * SessionWarriors: a verification development of the two pairing servers

    ** The program

    The repository holds two near-duplicate Express servers that let a
    browser obtain a WhatsApp pairing code or a QR image.  All protocol work
    is delegated to the Baileys client library; the servers are glue:

    - [src/index.js] keeps a process-wide [activeSessions] map (session id
      to socket), creates a socket per request in [createWhatsAppSession]
      (which also registers a [connection.update] listener that removes the
      id from the map on close), and answers
      - [GET /pair?number=..]: strips non-digits to get the id, rejects an id
        already in the map, then races [connection: 'open'] against
        [connection: 'close'] and a 30 s timer, then calls
        [requestPairingCode] and formats the code in groups of four;
      - [GET /qr]: same shape with the fixed id ["qr-login-session"], racing
        the first [qr] field against a 60 s timer, then renders it with
        [qrcode.toDataURL].
    - [src/server.js] has no registry: [/pair] loads the credentials of
      [auth_info_<number>], waits 2 s and requests the code; its listener
      deletes the credential directory on a [loggedOut] close.  [/qr] races
      the first [qr] against a 30 s timer, ends the socket after rendering,
      and deletes [auth_info_qr] on every close.

    ** The development (library root [S2P], files in dependency order)

    - [Prelude] (this file): the [sw_scope] notations, JavaScript's [||] on
      strings, bounded string [take]/[drop], the [sw] hint database and the
      shared lemmas on strings, options and stdpp maps.
    - [Listen] ([Module Listen]): the argument each server gives
      [app.listen]: [process.env.PORT || 3000] in index.js:18, the constant
      [3000] in server.js:12.
    - [JsText] ([Module SessionId], [Module PairingCode]): the string code
      of [index.js]: the session id [phoneNumber.replace(/[^0-9]/g, '')]
      (index.js:96) and the pairing-code formatting
      [pairingCode?.match(/.{1,4}/g)?.join('-') || pairingCode]
      (index.js:131), the global match executed the way the engine scans
      (greedy [.{1,4}], [.] not matching line terminators) and proved equal
      to a reference chunking (claims C18-C23).
    - [Emitter] ([Section Emitter]): Node's [EventEmitter] as both servers
      use it: [on], [removeAllListeners], and an emission that runs a
      snapshot of the listener list in order.
    - [Registry]: the [activeSessions] [Map] of index.js as a stdpp [gmap]
      behind the [SessionRegistry] typeclass and its laws, and the
      [create]/[DuplicateSession] contract of spec section 4.1.
    - [Answered]: the shared statement "one response per finished request"
      over any request map and response list, and its four update lemmas.
    - [Protocol] ([Section Protocol], [Section Changes]): the life of a
      request as moves along a relation between handler phases:
      [advances] and [follows] (a step keeps every request on the
      protocol, new requests start at an initial phase), their preorder
      laws, and [phase_changes], the number of phase changes of a request
      along a schedule, bounded by a rank that drops along every edge.
      Both servers instantiate it.
    - [IndexServer] ([Module Index]): [index.js] as an event-driven
      machine.  A [World] holds the clock, the registry, the sockets with
      their listener tables, the in-flight requests with the [Phase] their
      handler is suspended at, the credential directories, the responses
      and the unhandled rejections.  [step] runs one [Input] (a request
      arriving, a library call settling, a socket event, time passing, a
      timer callback) to the next suspension point; [reachable] is the set
      of states of all schedules.  One definition per handler fragment:
      [pair_handler], [qr_handler], [auth_state_loaded],
      [createWhatsAppSession], [version_loaded], the promises
      [pair_connection_promise] and [qr_promise], the listeners
      [session_update], [pair_race_update], [qr_race_update], the timer
      callbacks [pair_timer_callback] and [qr_timer_callback], the catch
      blocks [pair_catch] and [qr_catch], [pairing_code_reply],
      [qr_rendered]; [timer_due] is Node's rule that a [setTimeout]
      callback runs once its delay has elapsed.  Where index.js repeats code in its two handlers the
      model has one definition per handler, dispatched on the route
      ([fail_request], [timer_fires], [version_loaded]);
      [IndexInvariants] gives the shape both share as equations
      ([fail_request_unfold], ...).
    - [IndexInvariants] ([Module IndexInvariants]): the lemmas of
      index.js: frames, the one-step equations of each handler, the
      response invariant, the listener-table invariant [tables_ok], and the
      protocol [phase_edge] with [step_follows].
    - [IndexProps] ([Module IndexProps]): C1-C17, C35, C36 and C38.  Invariants by
      rule induction on [reachable] (every request answered at most once; the
      socket tables; the registration that no listener can remove; every
      request moving only forward along the edges of [phase_edge], the
      protocol of its handler, over any schedule), the
      behaviour of each branch of [/pair] and [/qr] (success path, 400s,
      open/close/timer race, catch paths), the 30 s and 60 s delays of
      the race timers (C7), liveness: every request that has not hung can
      still be answered by some schedule (C8), the refinement of the
      [create] contract, the bound on the suspensions of every handler
      (C38), and the findings, each stated for any state and any input
      (the check-then-act window of [activeSessions], C12).
    - [ServerJs] ([Module Server]): [server.js] as the same kind of
      machine ([SWorld], [SInput], [sstep], [sreachable]) with its own
      phases (the 2 s delay, [qrPromise] with and without its timer), the
      QR renderings in flight, and Baileys' [end] ([sock_end]); one
      definition per handler fragment ([spair_arrives], [sqr_arrives],
      [spair_auth_loaded], [sqr_auth_loaded], [spair_catch], [sqr_catch],
      ...).
    - [Paths] ([Module PosixPath]): resolution of relative paths by the
      operating system; C33-C34 compare the credential paths of the two
      servers: every [number] starting with [/../../] sends server.js
      outside its working directory (C34).
    - [App] ([Module App]): the Express application of each server, its
      layers in registration order ([express.static], [express.json()],
      the [app.get] routes) and the router that runs them ([app_handle]),
      with serve-static's lookup and Express 4's path matching
      (path-to-regexp 0.1); the final handler's [Cannot GET] 404 and the
      error of a failing [res.sendFile] are distinct outcomes.  C24: the
      [GET /] route of index.js changes an answer only for [/] while
      [public/index.html] is missing.
    - [ServerInvariants] ([Module ServerInvariants]): the same for
      server.js: frames, [sanswered], the socket-table invariant
      [stables_ok], Baileys' [end] on each kind of socket, the protocol
      [sphase_edge] with [sstep_follows], and the stuck-QR invariant.
    - [ServerProps] ([Module ServerProps]): C25-C32, C37 and C39.  The
      response invariant and a socket-table invariant of [server.js] by rule
      induction on [sreachable], the protocol [sphase_edge] every request
      follows from any state (C37) and the bound on its moves (C39), the
      success, timeout and logout paths,
      and the findings (QR socket ended on first render, no duplicate
      check for any two interleaved requests (C31), raw pairing code,
      unanswered requests).

    ** Bounds and fuel
    The only fuelled definitions are the regular-expression scan and the
    reference chunking of [JsText]; both receive [String.length s], which
    is enough because every round consumes a character, and the fuel
    lemmas ([chunks4_fuel], [global_match_reference]) show more fuel gives
    the same result.  [step] and [sstep] are total
    functions of one input; liveness is stated over explicit input
    sequences ([run], [srun]).  Termination of the handlers is stated as a
    bound on [phase_changes] along any input sequence: 4 moves for a
    request in flight in index.js (5 with its arrival), 3 in server.js (4
    with its arrival); the witnesses show both bounds are reached.

    ** Modelling choices
    Strings are Rocq [string]s of 8-bit characters (JavaScript UTF-16 code
    units outside Latin-1 are not modelled).  Time is an integer clock in
    milliseconds; a timer can fire at or after its deadline, never before
    ([timer_due]), and external events may arrive at any time; this covers every schedule
    the event loop can produce.  The protocol client, the credential store
    and the QR renderer are environment inputs: the model lets them answer
    anything the library can answer.  A directory is tracked as present or
    absent, not its files.  Express is taken as version 4, which does not
    catch the rejection of an [async] handler: such a rejection is recorded
    in [w_unhandled]/[sw_unhandled] and the request gets no response.
    [server.js] logs these rejections (server.js:18-19); [index.js] has no
    such handler, and on Node 15 or later the process then exits, which
    the model, continuing after the rejection, over-approximates.

    ** Not modelled
    Logging, the contents of the served files, what Node does with the
    [app.listen] argument, and the [messages.upsert] logger change no
    state the properties talk about.  (On an empty [messages] array that
    [async] logger's [msg.message] rejects unhandled, which on Node 15 or
    later ends the process like the other unhandled rejections; the model
    lets the listener do nothing and, as for those, over-approximates by
    continuing.)  Express, serve-static and
    path-to-regexp are libraries: [App] models the part of their
    documented behaviour the routing depends on.
    The Baileys protocol itself (handshake, pairing-code generation, QR
    refresh) is outside the repository; only the events it emits and the
    [end] of a socket are modelled. *)

From Stdlib Require Import Ascii String ZArith Lia.
From stdpp Require Export base gmap strings list.

Declare Scope sw_scope.
Delimit Scope sw_scope with sw.
Open Scope sw_scope.

(** ** JavaScript string values *)

(** [js_or o d] is JavaScript's [o || d] where [o] is a string or
    [undefined] (as produced by an optional chain [?.]): an empty string is
    falsy. *)
Definition js_or (o : option string) (d : string) : string :=
  match o with
  | Some EmptyString | None => d
  | Some s => s
  end.

Notation "o '?||' d" := (js_or o d) (at level 50, left associativity) : sw_scope.

(** JavaScript truthiness of a string-or-undefined value ([if (qr)]). *)
Definition js_truthy (o : option string) : bool :=
  match o with
  | Some EmptyString | None => false
  | Some _ => true
  end.

(** ** Bounded take and drop on strings *)

Fixpoint str_take (n : nat) (s : string) : string :=
  match n, s with
  | S n', String c s' => String c (str_take n' s')
  | _, _ => EmptyString
  end.

Fixpoint str_drop (n : nat) (s : string) : string :=
  match n, s with
  | S n', String _ s' => str_drop n' s'
  | _, _ => s
  end.

(** Whether every character of a string satisfies [p]. *)
Fixpoint str_forallb (p : ascii -> bool) (s : string) : bool :=
  match s with
  | EmptyString => true
  | String c s' => p c && str_forallb p s'
  end.

Create HintDb sw discriminated.
Create Rewrite HintDb sw_rw.

(** ** Shared lemmas *)

(** stdpp makes [String.append] opaque to [simpl]; its two equations. *)
Lemma append_nil_l (s : string) : ("" ++ s)%string = s.
Proof. reflexivity. Qed.

Lemma append_cons (c : ascii) (s1 s2 : string) :
  (String c s1 ++ s2)%string = String c (s1 ++ s2).
Proof. reflexivity. Qed.

Lemma append_nil_r (s : string) : (s ++ "")%string = s.
Proof. induction s as [|c s IH]; [done|]. by rewrite append_cons, IH. Qed.

Lemma append_assoc (s1 s2 s3 : string) : ((s1 ++ s2) ++ s3)%string = (s1 ++ (s2 ++ s3))%string.
Proof. induction s1 as [|c s1 IH]; [done|]. by rewrite !append_cons, IH. Qed.

Lemma str_take_cons (n : nat) (c : ascii) (s : string) :
  str_take (S n) (String c s) = String c (str_take n s).
Proof. reflexivity. Qed.

Lemma length_string_cons (c : ascii) (s : string) :
  String.length (String c s) = S (String.length s).
Proof. reflexivity. Qed.

Lemma js_or_nonempty (s d : string) :
  s <> EmptyString -> Some s ?|| d = s.
Proof. destruct s; [congruence | reflexivity]. Qed.

Lemma js_or_none (d : string) : None ?|| d = d.
Proof. reflexivity. Qed.

Lemma str_take_drop (n : nat) (s : string) :
  (str_take n s ++ str_drop n s)%string = s.
Proof.
  revert s; induction n as [|n IH]; intros [|c s];
    cbn [str_take str_drop]; rewrite ?append_nil_l, ?append_cons, ?IH; done.
Qed.

Lemma length_str_take (n : nat) (s : string) :
  String.length (str_take n s) = Nat.min n (String.length s).
Proof.
  revert s; induction n as [|n IH]; intros [|c s]; simpl; rewrite ?IH; done.
Qed.

Lemma length_str_drop (n : nat) (s : string) :
  String.length (str_drop n s) = String.length s - n.
Proof.
  revert s; induction n as [|n IH]; intros [|c s]; simpl; rewrite ?IH; lia.
Qed.

Lemma length_append (s1 s2 : string) :
  String.length (s1 ++ s2) = String.length s1 + String.length s2.
Proof. induction s1; rewrite ?append_nil_l, ?append_cons; simpl; auto. Qed.

Lemma str_forallb_append (p : ascii -> bool) (s1 s2 : string) :
  str_forallb p (s1 ++ s2) = str_forallb p s1 && str_forallb p s2.
Proof.
  induction s1 as [|c s1 IH]; rewrite ?append_nil_l, ?append_cons; simpl;
    rewrite ?IH, ?andb_assoc; done.
Qed.

Lemma str_forallb_take (p : ascii -> bool) (n : nat) (s : string) :
  str_forallb p s = true -> str_forallb p (str_take n s) = true.
Proof.
  revert s; induction n as [|n IH]; intros [|c s]; simpl; auto.
  intros [? ?]%andb_prop. rewrite IH; auto. by apply andb_true_intro.
Qed.

Lemma str_forallb_drop (p : ascii -> bool) (n : nat) (s : string) :
  str_forallb p s = true -> str_forallb p (str_drop n s) = true.
Proof.
  revert s; induction n as [|n IH]; intros [|c s]; simpl; auto.
  intros [? ?]%andb_prop. auto.
Qed.

(** Counting groups of four: one more group than the rest after the first. *)
Lemma div4_step (n : nat) : 1 <= n -> S ((n - 4 + 3) / 4) = (n + 3) / 4.
Proof.
  intros Hn. destruct (Nat.le_gt_cases 4 n).
  - replace (n + 3) with ((n - 4 + 3) + 1 * 4) by lia. rewrite Nat.div_add by lia. lia.
  - replace (n - 4 + 3) with 3 by lia. apply (Nat.div_unique _ _ _ (n - 1)); simpl; lia.
Qed.

Lemma div4_pred (n : nat) : 1 <= n -> (n + 3) / 4 - 1 = (n - 1) / 4.
Proof.
  intros Hn. replace (n + 3) with ((n - 1) + 1 * 4) by lia. rewrite Nat.div_add by lia. lia.
Qed.

(** A deletion from a map makes the key absent whatever the map held. *)
Lemma delete_delete_same `{Countable K} {V} (k : K) (m : gmap K V) :
  delete k (delete k m) = delete k m.
Proof. apply delete_id, lookup_delete_eq. Qed.

(** From here on [str_take] and [str_drop] are unfolded by their equations
    only, as stdpp does for [String.append]: [simpl] would otherwise expand
    them into nested matches on an unknown string. *)
Lemma str_drop_cons (n : nat) (c : ascii) (s : string) :
  str_drop (S n) (String c s) = str_drop n s.
Proof. reflexivity. Qed.

Lemma str_drop_0 (s : string) : str_drop 0 s = s.
Proof. reflexivity. Qed.

Lemma str_take_0 (s : string) : str_take 0 s = EmptyString.
Proof. reflexivity. Qed.

Lemma str_take_nil (n : nat) : str_take n EmptyString = EmptyString.
Proof. by destruct n. Qed.

Lemma str_drop_nil (n : nat) : str_drop n EmptyString = EmptyString.
Proof. by destruct n. Qed.

Arguments str_take : simpl never.
Arguments str_drop : simpl never.

(** [alter] keeps a property of every binding when [f] keeps it. *)
Lemma map_Forall_alter `{Countable K} {V} (P : K -> V -> Prop) (f : V -> V) (i : K) (m : gmap K V) :
  (forall x, P i x -> P i (f x)) -> map_Forall P m -> map_Forall P (alter f i m).
Proof.
  intros Hf Hm j y Hj. rewrite lookup_alter in Hj. case_decide as Hij; [subst j|by apply Hm].
  destruct (m !! i) as [x|] eqn:E; simplify_eq/=. apply Hf, Hm, E.
Qed.

#[export] Hint Rewrite append_nil_l append_nil_r append_cons length_str_take length_str_drop length_append str_take_cons str_drop_cons
  str_drop_0 str_take_0 str_take_nil str_drop_nil
  str_forallb_append str_take_drop @delete_delete_same : sw_rw.
#[export] Hint Resolve str_forallb_take str_forallb_drop : sw.

(** ** Tactics *)

(** Invert a hypothesis and clean up. *)
Ltac invc H := inversion H; subst; clear H.

(** Case on every [match] of the goal and the hypotheses, simplifying the
    equations it creates: the workhorse for the executable step
    functions. *)
Ltac crush_matches :=
  repeat (case_match || case_decide); simplify_eq/=.
