(* ===== verification/Listen.v ===== *)
(** * Listen: the port each server listens on

    [index.js] reads [process.env.PORT || 3000] (index.js:18) and passes it
    to [app.listen] (index.js:189); [server.js] passes the constant
    [3000] (server.js:12, 119).  An environment variable is a string when
    it is set; JavaScript's [||] keeps it unless it is the empty string.
    The port is either that string or the number [3000]. *)

From S2P Require Import Prelude.
From Stdlib Require Import ZArith String.

Module Listen.

(** The argument of [app.listen]: an environment string or a number. *)
Inductive ListenArg :=
  | LString (s : string)
  | LNumber (n : Z).

(** [const PORT = process.env.PORT || 3000] (index.js:18). *)
Definition index_PORT (env_PORT : option string) : ListenArg :=
  match env_PORT with
  | Some s => if String.eqb s "" then LNumber 3000 else LString s
  | None => LNumber 3000
  end.

(** [const port = 3000] (server.js:12): the environment is not read. *)
Definition server_port (env_PORT : option string) : ListenArg := LNumber 3000.

End Listen.
