(* ===== verification/JsText.v ===== *)
(** * JsText: the string code of [src/index.js]

    - [SessionId]: the session identifier of [/pair],
      [phoneNumber.replace(/[^0-9]/g, '')] (index.js:96), and the fixed QR
      identifier (index.js:144).
    - [PairingCode]: [pairingCode?.match(/.{1,4}/g)?.join('-') || pairingCode]
      (index.js:131).  The global match is modelled as the regular
      expression engine runs it: from the current index it matches greedily
      one to four characters that are not line terminators ([.] does not
      match ['\n'] or ['\r']); where no match starts at an index the search
      moves on by one; no match at all gives [null].  It is proved equal to
      a reference: cut the code at line terminators and split each piece
      into groups of four from its start. *)

From S2P Require Import Prelude.
From Stdlib Require Import Ascii String Lia.

Module SessionId.

(** The character class [[0-9]]. *)
Definition is_digit (c : ascii) : bool :=
  let n := nat_of_ascii c in (48 <=? n) && (n <=? 57).

(** [s.replace(/[^0-9]/g, '')]: every character outside [[0-9]] is
    replaced by the empty string. *)
Fixpoint replace_non_digits (s : string) : string :=
  match s with
  | EmptyString => EmptyString
  | String c s' =>
      if is_digit c then String c (replace_non_digits s') else replace_non_digits s'
  end.

(** [const sessionId = phoneNumber.replace(/[^0-9]/g, '')]. *)
Definition pair_session_id (phoneNumber : string) : string :=
  replace_non_digits phoneNumber.

(** [const sessionId = 'qr-login-session'] of the [/qr] handler. *)
Definition qr_session_id : string := "qr-login-session".

Lemma replace_non_digits_append (s1 s2 : string) :
  replace_non_digits (s1 ++ s2) = (replace_non_digits s1 ++ replace_non_digits s2)%string.
Proof.
  induction s1 as [|c s1 IH]; rewrite ?append_nil_l, ?append_cons; simpl; [done|].
  rewrite IH. destruct (is_digit c); done.
Qed.

(** Every character [replace] keeps is a digit. *)
Lemma replace_non_digits_digits (s : string) : str_forallb is_digit (replace_non_digits s) = true.
Proof.
  induction s as [|c s IH]; simpl; [done|].
  destruct (is_digit c) eqn:E; simpl; rewrite ?E; done.
Qed.

(** C23: the session identifier derived from any [number] query string
    consists of decimal digits only; in particular no [/pair] identifier
    is the QR identifier, so the two handlers never share a registry
    key. *)
Theorem pair_session_id_digits (phoneNumber : string) :
  str_forallb is_digit (pair_session_id phoneNumber) = true /\
  pair_session_id phoneNumber <> qr_session_id.
Proof.
  pose proof (replace_non_digits_digits phoneNumber) as D. fold (pair_session_id phoneNumber) in D.
  split; [done|]. intros E. rewrite E in D. discriminate.
Qed.

(** A number made of digits only is its own session identifier: the
    derivation keeps every digit, in order. *)
Theorem pair_session_id_of_digits (phoneNumber : string) :
  str_forallb is_digit phoneNumber = true ->
  pair_session_id phoneNumber = phoneNumber.
Proof.
  unfold pair_session_id.
  induction phoneNumber as [|c s IH]; simpl; [done|].
  intros [-> ?]%andb_prop. by rewrite IH.
Qed.

Lemma pair_session_id_of_digits_witness :
  str_forallb is_digit "628123456" = true /\ pair_session_id "628123456" = "628123456".
Proof. split; [reflexivity|]. apply pair_session_id_of_digits. reflexivity. Defined.

End SessionId.

Module PairingCode.

(** The line terminators of ASCII that [.] does not match. *)
Definition is_line_terminator (c : ascii) : bool :=
  (nat_of_ascii c =? 10) || (nat_of_ascii c =? 13).

(** The greedy [.{0,k}] at the start of [s]: the longest prefix of at most
    [k] characters none of which is a line terminator. *)
Fixpoint match_dots (k : nat) (s : string) : string :=
  match k, s with
  | S k', String c s' =>
      if is_line_terminator c then EmptyString else String c (match_dots k' s')
  | _, _ => EmptyString
  end.

(** The scan of [s.match(/.{1,4}/g)]: at each index, a match of one to
    four characters is taken and the search resumes after it; an index
    where [.{1,4}] cannot match is skipped.  [fuel] bounds the number of
    scanned indices; [String.length s] is enough (each round consumes at
    least one character). *)
Fixpoint global_match (fuel : nat) (s : string) : list string :=
  match fuel with
  | O => []
  | S fuel' =>
      match s with
      | EmptyString => []
      | String _ s' =>
          match match_dots 4 s with
          | EmptyString => global_match fuel' s'
          | m => m :: global_match fuel' (str_drop (String.length m) s)
          end
      end
  end.

(** [String.prototype.match] with a global regular expression: the array
    of matches, or [null] when there is none. *)
Definition regex_match (s : string) : option (list string) :=
  match global_match (String.length s) s with
  | [] => None
  | l => Some l
  end.

(** [Array.prototype.join(sep)] on an array of strings. *)
Fixpoint join (sep : string) (l : list string) : string :=
  match l with
  | [] => EmptyString
  | [x] => x
  | x :: l' => (x ++ sep ++ join sep l')%string
  end.

(** [pairingCode?.match(/.{1,4}/g)?.join('-') || pairingCode]: the
    optional chain gives [undefined] when the match is [null], and [||]
    falls back to the raw code on [undefined] or [""]. *)
Definition formatPairingCode (pairingCode : string) : string :=
  (join "-" <$> regex_match pairingCode) ?|| pairingCode.

(** ** Reference: groups of four inside each line *)

(** Groups of four characters from the start, the last one shorter. *)
Fixpoint chunks4 (fuel : nat) (s : string) : list string :=
  match fuel, s with
  | O, _ | _, EmptyString => []
  | S fuel', _ => str_take 4 s :: chunks4 fuel' (str_drop 4 s)
  end.

Definition chunks (s : string) : list string := chunks4 (String.length s) s.

(** [s] cut at every line terminator (empty pieces kept). *)
Fixpoint split_lines (s : string) : list string :=
  match s with
  | EmptyString => [EmptyString]
  | String c s' =>
      if is_line_terminator c then EmptyString :: split_lines s'
      else match split_lines s' with
           | [] => [String c EmptyString]
           | h :: t => String c h :: t
           end
  end.

Definition reference_match (s : string) : list string :=
  flat_map chunks (split_lines s).

(** Removing every ['-'] of a string (the inverse of the formatting). *)
Fixpoint remove_dashes (s : string) : string :=
  match s with
  | EmptyString => EmptyString
  | String c s' =>
      if (nat_of_ascii c =? 45) then remove_dashes s' else String c (remove_dashes s')
  end.

Definition no_line_terminator (s : string) : bool :=
  str_forallb (fun c => negb (is_line_terminator c)) s.

Definition no_dash (s : string) : bool :=
  str_forallb (fun c => negb (nat_of_ascii c =? 45)) s.

(** ** The scan against the reference *)

Lemma split_lines_not_nil (s : string) : split_lines s <> [].
Proof.
  destruct s as [|c s]; simpl; [done|].
  destruct (is_line_terminator c); [done|]. by destruct (split_lines s).
Qed.

(** The first line of [s], before its first line terminator. *)
Definition first_line (s : string) : string := default EmptyString (head (split_lines s)).

Lemma split_lines_cons (c : ascii) (s : string) :
  is_line_terminator c = false ->
  split_lines (String c s) = String c (first_line s) :: tail (split_lines s).
Proof.
  intros Hc. unfold first_line. simpl. rewrite Hc.
  pose proof (split_lines_not_nil s). by destruct (split_lines s).
Qed.

Lemma first_line_cons (c : ascii) (s : string) :
  is_line_terminator c = false -> first_line (String c s) = String c (first_line s).
Proof. intros Hc. unfold first_line at 1. by rewrite split_lines_cons. Qed.

Lemma first_line_lt (c : ascii) (s : string) :
  is_line_terminator c = true -> first_line (String c s) = EmptyString.
Proof. intros Hc. unfold first_line. simpl. by rewrite Hc. Qed.

(** [.{0,k}] takes the first [k] characters of the first line. *)
Lemma match_dots_first_line (k : nat) (s : string) :
  match_dots k s = str_take k (first_line s).
Proof.
  revert s; induction k as [|k IH]; intros [|c s]; try done.
  simpl match_dots. destruct (is_line_terminator c) eqn:Hc.
  - by rewrite first_line_lt.
  - rewrite first_line_cons by done. simpl. by rewrite IH.
Qed.

(** Dropping a prefix of the first line only shortens that line. *)
Lemma split_lines_drop (k : nat) (s : string) :
  k <= String.length (first_line s) ->
  split_lines (str_drop k s) = str_drop k (first_line s) :: tail (split_lines s).
Proof.
  revert s; induction k as [|k IH]; intros s Hk.
  - rewrite !str_drop_0. unfold first_line.
    pose proof (split_lines_not_nil s). by destruct (split_lines s).
  - destruct s as [|c s]; [unfold first_line in Hk; simpl in Hk; lia|].
    destruct (is_line_terminator c) eqn:Hc.
    + rewrite first_line_lt in Hk by done. simpl in Hk. lia.
    + rewrite first_line_cons in Hk |- * by done. rewrite split_lines_cons by done.
      cbn [str_drop tail String.length] in Hk |- *. apply IH. lia.
Qed.

Lemma str_drop_all (k : nat) (s : string) :
  String.length s <= k -> str_drop k s = EmptyString.
Proof.
  revert s; induction k as [|k IH]; intros [|c s]; simpl; intros; try done; [lia | apply IH; lia].
Qed.

Lemma chunks4_fuel (f1 f2 : nat) (s : string) :
  String.length s <= f1 -> String.length s <= f2 -> chunks4 f1 s = chunks4 f2 s.
Proof.
  revert f2 s; induction f1 as [|f1 IH]; intros [|f2] [|c s] H1 H2; cbn [chunks4];
    try (done || (simpl in *; lia)).
  f_equal. apply IH; rewrite length_str_drop; simpl in *; lia.
Qed.

(** A non-empty string starts with its first group of four. *)
Lemma chunks_cons (s : string) :
  s <> EmptyString -> chunks s = str_take 4 s :: chunks (str_drop 4 s).
Proof.
  intros Hs. unfold chunks. destruct s as [|c s']; [done|]. cbn [String.length chunks4].
  f_equal. apply chunks4_fuel; rewrite length_str_drop; simpl; lia.
Qed.

Lemma chunks_empty : chunks EmptyString = [].
Proof. reflexivity. Qed.

Lemma str_drop_min (k : nat) (s : string) :
  str_drop (Nat.min k (String.length s)) s = str_drop k s.
Proof.
  destruct (decide (k <= String.length s)).
  - by rewrite Nat.min_l.
  - rewrite Nat.min_r by lia. rewrite !str_drop_all; lia || done.
Qed.

Lemma split_lines_lt (c : ascii) (s : string) :
  is_line_terminator c = true -> split_lines (String c s) = EmptyString :: split_lines s.
Proof. intros Hc. simpl. by rewrite Hc. Qed.

(** One round of the scan at a character that [.] matches: the match is
    the first four characters of the line, and the scan resumes after it. *)
Lemma global_match_step (f : nat) (c : ascii) (s : string) :
  is_line_terminator c = false ->
  global_match (S f) (String c s) =
  str_take 4 (String c (first_line s))
    :: global_match f (str_drop (Nat.min 4 (S (String.length (first_line s)))) (String c s)).
Proof.
  intros Hc. cbn [global_match]. rewrite match_dots_first_line, first_line_cons by done.
  rewrite str_take_cons. cbv beta iota.
  by rewrite length_string_cons, length_str_take.
Qed.

(** The reference takes the same first group and continues the same way. *)
Lemma reference_match_step (c : ascii) (s : string) :
  is_line_terminator c = false ->
  reference_match (String c s) =
  str_take 4 (String c (first_line s))
    :: reference_match (str_drop (Nat.min 4 (S (String.length (first_line s)))) (String c s)).
Proof.
  intros Hc. unfold reference_match.
  rewrite split_lines_drop; rewrite ?first_line_cons by done; [|rewrite length_string_cons; lia].
  rewrite split_lines_cons by done. cbn [flat_map tail].
  rewrite chunks_cons by done. cbn [app].
  change (S (String.length (first_line s))) with (String.length (String c (first_line s))).
  by rewrite str_drop_min.
Qed.

(** The scan with any sufficient fuel computes the reference. *)
Lemma global_match_reference (fuel : nat) (s : string) :
  String.length s <= fuel -> global_match fuel s = reference_match s.
Proof.
  revert s; induction fuel as [|fuel IH]; intros [|c s] Hlen; cbn [String.length] in Hlen;
    try (done || lia).
  destruct (is_line_terminator c) eqn:Hc.
  - cbn [global_match]. rewrite match_dots_first_line, first_line_lt by done. cbn [str_take].
    unfold reference_match. rewrite split_lines_lt by done. apply IH. lia.
  - rewrite global_match_step, reference_match_step by done. f_equal.
    apply IH. rewrite length_str_drop. simpl. lia.
Qed.

(** C18: equivalence of the engine's scan with the reference: [s.match(/.{1,4}/g)]
    is [null] exactly when no line of [s] is non-empty, and otherwise the
    groups of four of each line, line after line. *)
Theorem regex_match_reference (s : string) :
  regex_match s = match reference_match s with [] => None | l => Some l end.
Proof. unfold regex_match. by rewrite global_match_reference. Qed.

(** ** Groups of four *)

(** Induction along the groups: a property that holds of [""] and passes
    from the rest after the first group to the whole string holds of every
    string. *)
Lemma chunks_rect (P : string -> Prop) :
  P EmptyString ->
  (forall s, s <> EmptyString -> P (str_drop 4 s) -> P s) ->
  forall s, P s.
Proof.
  intros H0 HS s. remember (String.length s) as n eqn:En.
  revert s En; induction n as [n IH] using (well_founded_induction lt_wf); intros s En.
  destruct s as [|c s']; [done|]. apply HS; [done|].
  eapply IH; [|reflexivity]. rewrite En, length_str_drop. simpl. lia.
Qed.

Lemma chunks_forall (p : ascii -> bool) (s : string) :
  str_forallb p s = true -> Forall (fun c => str_forallb p c = true) (chunks s).
Proof.
  induction s using chunks_rect; intros Hs; [constructor|].
  rewrite chunks_cons by done. constructor; auto with sw.
Qed.

(** The groups put back together are the string. *)
Lemma chunks_concat (s : string) : foldr String.append EmptyString (chunks s) = s.
Proof.
  induction s using chunks_rect; [done|].
  rewrite chunks_cons by done. cbn [foldr]. rewrite IHs. apply str_take_drop.
Qed.

Lemma length_chunks (s : string) : List.length (chunks s) = (String.length s + 3) / 4.
Proof.
  induction s using chunks_rect; [done|].
  rewrite chunks_cons by done. cbn [List.length]. rewrite IHs, length_str_drop.
  apply div4_step. destruct s; [done | simpl; lia].
Qed.

Lemma split_lines_no_lt (s : string) :
  no_line_terminator s = true -> split_lines s = [s].
Proof.
  unfold no_line_terminator.
  induction s as [|c s IH]; simpl; [done|]. intros [Hc Hs]%andb_prop.
  apply negb_true_iff in Hc. rewrite Hc, IH by done. done.
Qed.

Lemma reference_match_no_lt (s : string) :
  no_line_terminator s = true -> reference_match s = chunks s.
Proof. intros H. unfold reference_match. rewrite split_lines_no_lt by done. apply app_nil_r. Qed.

Lemma join_cons_nonempty (sep x : string) (l : list string) :
  x <> EmptyString -> join sep (x :: l) <> EmptyString.
Proof. destruct x; [done|]. by destruct l. Qed.

Lemma formatPairingCode_chunks (pairingCode : string) :
  no_line_terminator pairingCode = true -> pairingCode <> EmptyString ->
  formatPairingCode pairingCode = join "-" (chunks pairingCode).
Proof.
  intros Hlt Hne.
  unfold formatPairingCode, regex_match. rewrite global_match_reference, reference_match_no_lt by done.
  rewrite (chunks_cons pairingCode) by done. simpl fmap.
  apply js_or_nonempty, join_cons_nonempty. by destruct pairingCode.
Qed.

Lemma chunks_shape (s : string) (i : nat) (g : string) :
  chunks s !! i = Some g ->
  1 <= String.length g <= 4 /\ (S i < List.length (chunks s) -> String.length g = 4).
Proof.
  revert i g. induction s using chunks_rect; intros i g Hi; [done|].
  rewrite chunks_cons in Hi |- * by done. destruct i as [|i]; simpl in Hi.
  - injection Hi as <-. rewrite length_str_take.
    destruct s as [|c s]; [done|]. rewrite length_string_cons. split; [lia|].
    intros Hlen. cbn [List.length] in Hlen. rewrite length_chunks, length_str_drop in Hlen.
    rewrite length_string_cons in Hlen.
    destruct (Nat.le_gt_cases 4 (S (String.length s))); [lia|].
    replace (S (String.length s) - 4 + 3) with 3 in Hlen by lia. simpl in Hlen. lia.
  - destruct (IHs i g Hi) as [Hb Hl]. split; [done|]. intros. apply Hl. simpl in *. lia.
Qed.

(** C19: a code without line terminators is formatted as its groups of four
    joined by ['-']; every group has one to four characters and all but
    the last have exactly four. *)
Theorem formatPairingCode_groups (pairingCode : string) :
  no_line_terminator pairingCode = true -> pairingCode <> EmptyString ->
  formatPairingCode pairingCode = join "-" (chunks pairingCode) /\
  forall i g, chunks pairingCode !! i = Some g ->
    1 <= String.length g <= 4 /\ (S i < List.length (chunks pairingCode) -> String.length g = 4).
Proof.
  intros Hlt Hne. split; [by apply formatPairingCode_chunks|]. apply chunks_shape.
Qed.

(** ** Separators only *)

Lemma remove_dashes_append (s1 s2 : string) :
  remove_dashes (s1 ++ s2) = (remove_dashes s1 ++ remove_dashes s2)%string.
Proof.
  induction s1 as [|c s1 IH]; rewrite ?append_nil_l, ?append_cons; simpl; [done|].
  rewrite IH. by destruct (nat_of_ascii c =? 45).
Qed.

Lemma remove_dashes_no_dash (s : string) : no_dash s = true -> remove_dashes s = s.
Proof.
  unfold no_dash. induction s as [|c s IH]; simpl; [done|].
  intros [Hc Hs]%andb_prop. apply negb_true_iff in Hc. rewrite Hc, IH; done.
Qed.

Lemma join_cons_cons (sep x y : string) (l : list string) :
  join sep (x :: y :: l) = (x ++ sep ++ join sep (y :: l))%string.
Proof. reflexivity. Qed.

Lemma remove_dashes_join (l : list string) :
  Forall (fun g => no_dash g = true) l ->
  remove_dashes (join "-" l) = foldr String.append EmptyString l.
Proof.
  induction 1 as [|x l Hx Hl IH]; [done|].
  destruct l as [|y l].
  - simpl. rewrite remove_dashes_no_dash by done. by rewrite append_nil_r.
  - rewrite join_cons_cons, !remove_dashes_append, remove_dashes_no_dash, IH by done.
    done.
Qed.

(** C20: round trip: formatting only inserts separators; removing the
    dashes from a formatted code without dashes or line terminators gives
    the code back. *)
Theorem formatPairingCode_roundtrip (pairingCode : string) :
  no_line_terminator pairingCode = true -> no_dash pairingCode = true ->
  remove_dashes (formatPairingCode pairingCode) = pairingCode.
Proof.
  intros Hlt Hd. destruct (decide (pairingCode = EmptyString)) as [->|Hne]; [done|].
  rewrite formatPairingCode_chunks by done. rewrite remove_dashes_join.
  - apply chunks_concat.
  - by apply chunks_forall.
Qed.

Lemma length_join_dash (l : list string) :
  String.length (join "-" l) = String.length (foldr String.append EmptyString l) + (List.length l - 1).
Proof.
  induction l as [|x [|y l] IH]; [done| |].
  - cbn [join foldr List.length]. rewrite append_nil_r. lia.
  - rewrite join_cons_cons, !length_append, IH. cbn [foldr List.length]. rewrite !length_append. simpl String.length. lia.
Qed.

(** C21: a formatted code of [n > 0] characters without line terminators
    has [n + (n - 1) / 4] characters: one dash between consecutive groups. *)
Theorem formatPairingCode_length (pairingCode : string) :
  no_line_terminator pairingCode = true -> pairingCode <> EmptyString ->
  String.length (formatPairingCode pairingCode)
  = String.length pairingCode + (String.length pairingCode - 1) / 4.
Proof.
  intros Hlt Hne. rewrite formatPairingCode_chunks, length_join_dash, chunks_concat, length_chunks
    by done.
  assert (Hn : 1 <= String.length pairingCode) by (destruct pairingCode; [done | simpl; lia]).
  by rewrite div4_pred.
Qed.

Lemma reference_match_all_lt (s : string) :
  str_forallb is_line_terminator s = true -> reference_match s = [].
Proof.
  unfold reference_match. induction s as [|c s IH]; [done|].
  cbn [str_forallb]. intros [Hc Hs]%andb_prop. rewrite split_lines_lt by done. auto.
Qed.

(** C22: error path of the formatting: when [match] finds nothing (the code
    is empty or made of line terminators only) the optional chain yields
    [undefined] and [|| pairingCode] returns the raw code unchanged. *)
Theorem formatPairingCode_fallback (pairingCode : string) :
  str_forallb is_line_terminator pairingCode = true ->
  formatPairingCode pairingCode = pairingCode.
Proof.
  intros H. unfold formatPairingCode, regex_match. rewrite global_match_reference, reference_match_all_lt by done.
  done.
Qed.

(** ** Witnesses on concrete codes (spec section 8) *)

Lemma formatPairingCode_groups_witness :
  formatPairingCode "ABCD1234" = "ABCD-1234" /\ formatPairingCode "ABCDEF" = "ABCD-EF" /\
  (no_line_terminator "ABCD1234" = true /\ "ABCD1234" <> EmptyString) /\
  chunks "ABCD1234" = ["ABCD"; "1234"] /\
  (formatPairingCode "ABCD1234" = join "-" (chunks "ABCD1234") /\
   forall i g, chunks "ABCD1234" !! i = Some g ->
     1 <= String.length g <= 4 /\ (S i < List.length (chunks "ABCD1234") -> String.length g = 4)).
Proof.
  split; [reflexivity|]. split; [reflexivity|]. split; [split; [reflexivity | discriminate]|].
  split; [reflexivity|]. apply formatPairingCode_groups; [reflexivity | discriminate].
Defined.

Lemma formatPairingCode_roundtrip_witness :
  remove_dashes (formatPairingCode "K7PQ2MZX") = "K7PQ2MZX".
Proof. apply formatPairingCode_roundtrip; reflexivity. Defined.

Lemma formatPairingCode_length_witness :
  String.length (formatPairingCode "ABCDEFGHI") = 9 + (9 - 1) / 4.
Proof. apply formatPairingCode_length; [reflexivity | discriminate]. Defined.

Lemma formatPairingCode_fallback_witness :
  formatPairingCode (String (ascii_of_nat 10) EmptyString) = String (ascii_of_nat 10) EmptyString.
Proof. apply formatPairingCode_fallback. reflexivity. Defined.

End PairingCode.
