(* ===== verification/Emitter.v ===== *)
(** * Emitter: Node's [EventEmitter] as [src/index.js] and [src/server.js] use it

    [bot.ev.on(name, f)] appends a listener, [bot.ev.removeAllListeners(name)]
    drops every listener of one event name, and an emission calls the
    listeners registered for the name when the emission starts, in
    registration order: Node's [emit] iterates over a copy of the listener
    array, so a listener that removes listeners (as the race handlers of
    index.js:117, 121 and 165 do) does not stop the rest of the current
    emission.  The table is one list of (name, listener) pairs in
    registration order, which has the same per-name order as Node's one
    array per name.  The [Section] is generic in the event names, the
    listeners and the state the listeners act on. *)

From S2P Require Import Prelude.

Section Emitter.
Context {EventName Listener : Type} `{EqDecision EventName}.

Local Abbreviation Emitter := (list (EventName * Listener)).

(** [em.on(ev, l)]. *)
Definition on (ev : EventName) (l : Listener) (em : Emitter) : Emitter :=
  em ++ [(ev, l)].

(** [em.removeAllListeners(ev)]. *)
Definition removeAllListeners (ev : EventName) (em : Emitter) : Emitter :=
  filter (fun p => p.1 <> ev) em.

(** The listeners an emission of [ev] calls, in order. *)
Definition listeners (ev : EventName) (em : Emitter) : list Listener :=
  snd <$> filter (fun p => p.1 = ev) em.

(** Calling a snapshot of listeners in order on a state. *)
Definition dispatch {S : Type} (run : Listener -> S -> S) (ls : list Listener) (s : S) : S :=
  foldl (fun s l => run l s) s ls.

Lemma listeners_on_eq (ev : EventName) (l : Listener) (em : Emitter) :
  listeners ev (on ev l em) = listeners ev em ++ [l].
Proof.
  unfold listeners, on. rewrite filter_app, fmap_app, filter_cons.
  by case_decide.
Qed.

Lemma listeners_on_ne (ev ev' : EventName) (l : Listener) (em : Emitter) :
  ev <> ev' -> listeners ev' (on ev l em) = listeners ev' em.
Proof.
  intros Hne. unfold listeners, on. rewrite filter_app, fmap_app, filter_cons.
  case_decide; [simpl in *; congruence|]. by rewrite app_nil_r.
Qed.

Lemma listeners_removeAll_eq (ev : EventName) (em : Emitter) :
  listeners ev (removeAllListeners ev em) = [].
Proof.
  unfold listeners, removeAllListeners. rewrite list_filter_filter.
  induction em as [|[e l] em IH]; [done|]. rewrite filter_cons.
  case_decide as Hd; [by destruct Hd|]. done.
Qed.

Lemma listeners_removeAll_ne (ev ev' : EventName) (em : Emitter) :
  ev <> ev' -> listeners ev' (removeAllListeners ev em) = listeners ev' em.
Proof.
  intros Hne. unfold listeners, removeAllListeners. rewrite list_filter_filter.
  f_equal. apply list_filter_iff. intros [e l]; simpl. naive_solver.
Qed.

(** Every listener called by an emission was registered for it. *)
Lemma elem_of_listeners (ev : EventName) (l : Listener) (em : Emitter) :
  l ∈ listeners ev em <-> (ev, l) ∈ em.
Proof.
  unfold listeners. rewrite list_elem_of_fmap. split.
  - intros [[e l'] [-> Hin]]. apply list_elem_of_filter in Hin as [He Hin]. simpl in *. by subst.
  - intros Hin. exists (ev, l). split; [done|]. by apply list_elem_of_filter.
Qed.

Lemma dispatch_nil {S} (run : Listener -> S -> S) (s : S) : dispatch run [] s = s.
Proof. reflexivity. Qed.

Lemma dispatch_app {S} (run : Listener -> S -> S) (ls1 ls2 : list Listener) (s : S) :
  dispatch run (ls1 ++ ls2) s = dispatch run ls2 (dispatch run ls1 s).
Proof. unfold dispatch. by rewrite foldl_app. Qed.

Lemma dispatch_cons {S} (run : Listener -> S -> S) (l : Listener) (ls : list Listener) (s : S) :
  dispatch run (l :: ls) s = dispatch run ls (run l s).
Proof. reflexivity. Qed.

(** A property that every listener preserves holds after a dispatch. *)
Lemma dispatch_preserves {S} (P : S -> Prop) (run : Listener -> S -> S) (ls : list Listener) (s : S) :
  (forall l s, l ∈ ls -> P s -> P (run l s)) -> P s -> P (dispatch run ls s).
Proof.
  revert s; induction ls as [|l ls IH]; intros s Hrun Hs; [done|].
  rewrite dispatch_cons. apply IH; [|apply Hrun; [left|]; done].
  intros l' s' Hl'. apply Hrun. by right.
Qed.

End Emitter.

(** The listener table of an emitter. *)
Abbreviation Emitter E L := (list (E * L)).

#[export] Hint Rewrite @listeners_on_eq @listeners_removeAll_eq @dispatch_nil @dispatch_cons
  @dispatch_app : sw_rw.
