(* ===== verification/Registry.v ===== *)
(** * Registry: the [activeSessions] map of [src/index.js]

    [const activeSessions = new Map()] (index.js:24) is used through
    [has] (index.js:98, 146), [set] (index.js:46) and [delete] (index.js:63,
    109, 122, 136, 157, 182).  The typeclass [SessionRegistry] states the
    operations and [SessionRegistryLaws] what a map promises about them; the
    instance [js_map] is a JavaScript [Map] from strings, modelled by a stdpp
    [gmap] ([set] overwrites, [delete] of an absent key does nothing).  The
    [Spec] section states the contract of spec section 4.1,
    [create(id) -> handle | DuplicateSession], against any lawful
    registry; [IndexProps] relates the handlers of index.js to it. *)

From S2P Require Import Prelude.

Class SessionRegistry (R H : Type) := {
  reg_has : string -> R -> bool;
  reg_get : string -> R -> option H;
  reg_set : string -> H -> R -> R;
  reg_delete : string -> R -> R;
}.

Class SessionRegistryLaws (R H : Type) `{!SessionRegistry R H} := {
  reg_has_get k r : reg_has k r = bool_decide (is_Some (reg_get k r));
  reg_get_set_eq k h r : reg_get k (reg_set k h r) = Some h;
  reg_get_set_ne k k' h r : k <> k' -> reg_get k' (reg_set k h r) = reg_get k' r;
  reg_get_delete_eq k r : reg_get k (reg_delete k r) = None;
  reg_get_delete_ne k k' r : k <> k' -> reg_get k' (reg_delete k r) = reg_get k' r;
}.

(** ** The JavaScript [Map] *)

#[export] Instance js_map {H : Type} : SessionRegistry (gmap string H) H := {
  reg_has k m := bool_decide (is_Some (m !! k));
  reg_get k m := m !! k;
  reg_set k h m := <[k := h]> m;
  reg_delete k m := delete k m;
}.

#[export] Instance js_map_laws {H : Type} : SessionRegistryLaws (gmap string H) H.
Proof.
  split; simpl; intros.
  - done.
  - apply lookup_insert_eq.
  - by apply lookup_insert_ne.
  - apply lookup_delete_eq.
  - by apply lookup_delete_ne.
Qed.

Section JsMap.
Context {H : Type}.
Lemma reg_has_js (k : string) (m : gmap string H) : reg_has k m = bool_decide (is_Some (m !! k)).
Proof. reflexivity. Qed.
Lemma reg_set_js (k : string) (h : H) (m : gmap string H) : reg_set k h m = <[k := h]> m.
Proof. reflexivity. Qed.
Lemma reg_delete_js (k : string) (m : gmap string H) : reg_delete k m = delete k m.
Proof. reflexivity. Qed.
Lemma reg_get_js (k : string) (m : gmap string H) : reg_get k m = m !! k.
Proof. reflexivity. Qed.
End JsMap.

#[export] Hint Rewrite @reg_has_js @reg_set_js @reg_delete_js @reg_get_js : sw_rw.

(** ** The contract of spec section 4.1 *)

Inductive RegistryError := DuplicateSession.

Section Spec.
Context {R H : Type} `{!SessionRegistry R H, !SessionRegistryLaws R H}.

(** [create(id)]: fails on an identifier already present, registers it
    otherwise. *)
Definition create (k : string) (h : H) (r : R) : RegistryError + R :=
  if reg_has k r then inl DuplicateSession else inr (reg_set k h r).

Lemma create_duplicate (k : string) (h : H) (r : R) :
  is_Some (reg_get k r) -> create k h r = inl DuplicateSession.
Proof. intros Hk. unfold create. rewrite reg_has_get. by rewrite bool_decide_true. Qed.

Lemma create_fresh (k : string) (h : H) (r : R) :
  reg_get k r = None -> create k h r = inr (reg_set k h r).
Proof.
  intros Hk. unfold create. rewrite reg_has_get, Hk.
  rewrite bool_decide_false; [done|]. by intros [? ?].
Qed.

(** Whatever [create] returns, the handle already registered for the
    identifier is never replaced. *)
Lemma create_keeps_existing (k : string) (h h0 : H) (r r' : R) :
  reg_get k r = Some h0 -> create k h r = inr r' -> reg_get k r' = Some h0.
Proof. intros Hk. rewrite create_duplicate by eauto. done. Qed.

End Spec.
