(* ===== verification/Answered.v ===== *)
(** * Answered: one response per finished request

    Both servers keep their in-flight requests in a map from request
    numbers to a record holding the handler's phase, and send responses by
    appending to a list.  The property that every request is answered once
    and only when its handler has finished is the same for both; this file
    states it over any such map and list and proves how it evolves under
    the four updates the handlers make: a phase change that does not
    finish, a phase change that finishes with one response, a new request,
    and a new request answered at once. *)

From S2P Require Import Prelude.

Section Answered.
Context {K : Type} `{Hcount : Countable K} {Req Rsp : Type} (finished : Req -> bool).

(** The responses sent for request [r], in order. *)
Definition responses_for (r : K) (out : list (K * Rsp)) : list Rsp :=
  snd <$> filter (fun p => p.1 = r) out.

(** One response for a finished request, none for any other (also none
    for a request that never arrived). *)
Definition answered_once_in (reqs : gmap K Req) (out : list (K * Rsp)) : Prop :=
  forall r, length (responses_for r out) =
            match reqs !! r with Some q => if finished q then 1 else 0 | None => 0 end.

Lemma responses_for_snoc (r r' : K) (rsp : Rsp) (out : list (K * Rsp)) :
  responses_for r' (out ++ [(r, rsp)]) =
  responses_for r' out ++ (if decide (r = r') then [rsp] else []).
Proof.
  unfold responses_for. rewrite filter_app, fmap_app, filter_cons. simpl.
  by destruct (decide (r = r')).
Qed.

Lemma answered_once_in_empty : answered_once_in ∅ [].
Proof. intros r. by rewrite lookup_empty. Qed.

(** A phase change of an unfinished request that does not finish it. *)
Lemma answered_once_in_alter (f : Req -> Req) (r : K) (reqs : gmap K Req) out :
  (forall q, reqs !! r = Some q -> finished q = false /\ finished (f q) = false) ->
  answered_once_in reqs out -> answered_once_in (alter f r reqs) out.
Proof.
  intros Hf H r'. rewrite H, lookup_alter. case_decide; [subst r'|done].
  destruct (reqs !! r) as [q|] eqn:E; [|done]. simpl.
  destruct (Hf q eq_refl) as [-> ->]. done.
Qed.

(** Finishing an unfinished request with one response. *)
Lemma answered_once_in_finish (f : Req -> Req) (r : K) (q : Req) (rsp : Rsp)
    (reqs : gmap K Req) out :
  reqs !! r = Some q -> finished q = false -> finished (f q) = true ->
  answered_once_in reqs out -> answered_once_in (alter f r reqs) (out ++ [(r, rsp)]).
Proof.
  intros Hq Hu Hd H r'. rewrite responses_for_snoc, length_app, H, lookup_alter.
  destruct (decide (r = r')) as [<-|]; simpl.
  - rewrite Hq. simpl. by rewrite Hu, Hd.
  - lia.
Qed.

(** A new request that is not finished yet. *)
Lemma answered_once_in_insert (r : K) (q : Req) (reqs : gmap K Req) out :
  reqs !! r = None -> finished q = false ->
  answered_once_in reqs out -> answered_once_in (<[r := q]> reqs) out.
Proof.
  intros Hr Hq H r'. rewrite H. destruct (decide (r = r')) as [<-|].
  - by rewrite Hr, lookup_insert_eq, Hq.
  - by rewrite lookup_insert_ne.
Qed.

(** A new request answered at once. *)
Lemma answered_once_in_insert_answered (r : K) (q : Req) (rsp : Rsp) (reqs : gmap K Req) out :
  reqs !! r = None -> finished q = true ->
  answered_once_in reqs out -> answered_once_in (<[r := q]> reqs) (out ++ [(r, rsp)]).
Proof.
  intros Hr Hq H r'. rewrite responses_for_snoc, length_app, H.
  destruct (decide (r = r')) as [<-|].
  - by rewrite Hr, lookup_insert_eq, Hq.
  - rewrite lookup_insert_ne by done. simpl. lia.
Qed.

End Answered.
