(* ===== verification/Protocol.v ===== *)
(** * Protocol: requests moving along the suspension points of a handler

    Both servers keep, for every in-flight request, the point its handler
    is suspended at.  The spec (section 4.2) describes the life of a request
    as a protocol: pending, then a connection or a QR, then an outcome.
    This file states, over any such map from requests to phases and any
    relation [edge] between phases, what it means for a step of a server
    to follow the protocol:
    - [advances w w']: every request of [w] is still in [w'], at a phase
      reachable by [edge] from its phase in [w], and no request appears;
    - [follows w w']: the same, except that requests may appear, each at a
      phase reachable from an [initial] one.
    It proves that both are preorders, that [advances] implies [follows],
    that a phase without successor is kept forever, and that a ranking that
    decreases along [edge] bounds every chain of moves (the protocol has no
    cycle, so no handler is suspended forever over and over). *)

From S2P Require Import Prelude.
From Stdlib Require Import Wellfounded.

Section Protocol.
Context {K W Ph : Type} (phase_of : K -> W -> option Ph) (edge : Ph -> Ph -> Prop)
  (initial : Ph -> Prop).

Definition advances (w w' : W) : Prop :=
  (forall r ph, phase_of r w = Some ph -> exists ph', phase_of r w' = Some ph' /\ rtc edge ph ph') /\
  (forall r, phase_of r w = None -> phase_of r w' = None).

Definition follows (w w' : W) : Prop :=
  (forall r ph, phase_of r w = Some ph -> exists ph', phase_of r w' = Some ph' /\ rtc edge ph ph') /\
  (forall r ph', phase_of r w = None -> phase_of r w' = Some ph' ->
     exists ph0, initial ph0 /\ rtc edge ph0 ph').

(** A step that leaves every phase as it was. *)
Lemma advances_same (w w' : W) : (forall r, phase_of r w' = phase_of r w) -> advances w w'.
Proof.
  intros E. split; intros r; rewrite E; [|done]. intros ph Hp. exists ph. split; [done | apply rtc_refl].
Qed.

Lemma advances_trans (w1 w2 w3 : W) : advances w1 w2 -> advances w2 w3 -> advances w1 w3.
Proof.
  intros [H12 N12] [H23 N23]. split; [|naive_solver].
  intros r ph Hp. destruct (H12 r ph Hp) as (ph2 & Hp2 & E2).
  destruct (H23 r ph2 Hp2) as (ph3 & Hp3 & E3). exists ph3. split; [done|]. by etrans.
Qed.

Lemma advances_follows (w w' : W) : advances w w' -> follows w w'.
Proof. intros [Ha Hn]. split; [done|]. intros r ph' Hr Hp. by rewrite Hn in Hp. Qed.

Lemma follows_refl (w : W) : follows w w.
Proof. apply advances_follows, advances_same. done. Qed.

Lemma follows_trans (w1 w2 w3 : W) : follows w1 w2 -> follows w2 w3 -> follows w1 w3.
Proof.
  intros [H12 N12] [H23 N23]. split.
  - intros r ph Hp. destruct (H12 r ph Hp) as (ph2 & Hp2 & E2).
    destruct (H23 r ph2 Hp2) as (ph3 & Hp3 & E3). exists ph3. split; [done|]. by etrans.
  - intros r ph3 Hp Hp3. destruct (phase_of r w2) as [ph2|] eqn:Hp2.
    + destruct (N12 r ph2 Hp Hp2) as (ph0 & Hi & E0). destruct (H23 r ph2 Hp2) as (ph3' & Hp3' & E3).
      rewrite Hp3 in Hp3'. injection Hp3' as <-. exists ph0. split; [done|]. by etrans.
    + by apply (N23 r ph3).
Qed.

(** A request arrives at an initial phase and the others stay put. *)
Lemma follows_arrival (w w' : W) :
  (forall r ph, phase_of r w = Some ph -> phase_of r w' = Some ph) ->
  (forall r ph', phase_of r w = None -> phase_of r w' = Some ph' -> initial ph') -> follows w w'.
Proof.
  intros Hk Hn. split.
  - intros r ph Hp. exists ph. split; [by apply Hk | apply rtc_refl].
  - intros r ph' Hp Hp'. exists ph'. split; [by apply (Hn r) | apply rtc_refl].
Qed.

(** A phase with no successor is never left. *)
Lemma rtc_no_successor (ph ph' : Ph) : (forall p, ~ edge ph p) -> rtc edge ph ph' -> ph' = ph.
Proof. intros Hn Hr. destruct Hr as [|x y z Hxy]; [done|]. by destruct (Hn y). Qed.

(** A rank that drops along every edge bounds the length of every chain. *)
Lemma nsteps_rank (rank : Ph -> nat) :
  (forall p p', edge p p' -> rank p' < rank p) ->
  forall n ph ph', nsteps edge n ph ph' -> n + rank ph' <= rank ph.
Proof. intros Hr n ph ph' Hs. induction Hs as [|n x y z Hxy _ IH]; [lia|]. specialize (Hr x y Hxy). lia. Qed.

Lemma rank_wf (rank : Ph -> nat) :
  (forall p p', edge p p' -> rank p' < rank p) -> well_founded (flip edge).
Proof.
  intros Hr. apply (wf_incl _ _ (fun x y => rank x < rank y)); [intros x y Hxy; by apply Hr|].
  apply (wf_inverse_image _ nat lt rank), lt_wf.
Qed.

(** Along an edge the rank drops, so a phase reached by moves is the same
    phase or one of lower rank. *)
Lemma rtc_rank (rank : Ph -> nat) :
  (forall p p', edge p p' -> rank p' < rank p) ->
  forall ph ph', rtc edge ph ph' -> ph' = ph \/ rank ph' < rank ph.
Proof.
  intros Hr ph ph' Hs. induction Hs as [|x y z Hxy _ IH]; [by left|].
  specialize (Hr x y Hxy). right. destruct IH as [->|]; lia.
Qed.

End Protocol.

Arguments advances {K W Ph} phase_of edge w w'.
Arguments follows {K W Ph} phase_of edge initial w w'.
Arguments advances_same {K W Ph phase_of edge} w w'.
Arguments advances_trans {K W Ph phase_of edge} w1 w2 w3.
Arguments advances_follows {K W Ph phase_of edge initial} w w'.
Arguments follows_refl {K W Ph phase_of edge initial} w.
Arguments follows_trans {K W Ph phase_of edge initial} w1 w2 w3.
Arguments follows_arrival {K W Ph phase_of edge initial} w w'.
Arguments rtc_no_successor {Ph edge} ph ph'.
Arguments nsteps_rank {Ph edge} rank.
Arguments rank_wf {Ph edge} rank.
Arguments rtc_rank {Ph edge} rank.

(** ** Counting the moves of a request along a schedule

    [phase_changes r w inputs] runs the schedule [inputs] from [w] with
    [step] (up to the first input that cannot be taken) and counts the
    steps after which the phase of [r] differs from the one before: its
    arrival, and every later move of its handler. *)
Section Changes.
Context {K W Ph I : Type} `{EqDecision Ph} (phase_of : K -> W -> option Ph) (step : W -> I -> option W).

Fixpoint phase_changes (r : K) (w : W) (inputs : list I) : nat :=
  match inputs with
  | [] => 0
  | i :: rest =>
      match step w i with
      | Some w1 => (if decide (phase_of r w1 = phase_of r w) then 0 else 1) + phase_changes r w1 rest
      | None => 0
      end
  end.

Context (edge : Ph -> Ph -> Prop) (initial : Ph -> Prop) (inv : W -> Prop) (rank : Ph -> nat) (bound : nat).
Hypothesis step_follows :
  forall w i w', inv w -> step w i = Some w' -> inv w' /\ follows phase_of edge initial w w'.
Hypothesis rank_edge : forall p p', edge p p' -> rank p' < rank p.
Hypothesis rank_initial : forall p, initial p -> rank p < bound.

(** A request yet to arrive has [bound] moves left, one at [rank]. *)
Definition moves_left (o : option Ph) : nat := match o with Some p => rank p | None => bound end.

Lemma follows_moves_left (w w' : W) (r : K) :
  follows phase_of edge initial w w' ->
  (if decide (phase_of r w' = phase_of r w) then 0 else 1) + moves_left (phase_of r w') <= moves_left (phase_of r w).
Proof.
  intros [Ha Hn]. case_decide as Heq; [by rewrite Heq|].
  destruct (phase_of r w) as [ph|] eqn:Hp; simpl.
  - destruct (Ha r ph Hp) as (ph' & Hp' & E). rewrite Hp' in Heq |- *. simpl.
    destruct (rtc_rank rank rank_edge ph ph' E) as [->|]; [done|lia].
  - destruct (phase_of r w') as [ph'|] eqn:Hp'; [|done]. simpl.
    destruct (Hn r ph' Hp Hp') as (ph0 & Hi & E). specialize (rank_initial ph0 Hi).
    destruct (rtc_rank rank rank_edge ph0 ph' E) as [->|]; lia.
Qed.

Lemma phase_changes_bounded (r : K) (w : W) (inputs : list I) :
  inv w -> phase_changes r w inputs <= moves_left (phase_of r w).
Proof.
  revert w. induction inputs as [|i rest IH]; intros w Hw; simpl; [lia|].
  destruct (step w i) as [w1|] eqn:E; [|lia].
  destruct (step_follows w i w1 Hw E) as [Hw1 Hf]. specialize (IH w1 Hw1).
  pose proof (follows_moves_left w w1 r Hf). lia.
Qed.

End Changes.

Arguments phase_changes {K W Ph I _} phase_of step r w inputs.
