(* ===== verification/IndexServer.v ===== *)
(** * IndexServer: [src/index.js] as an event-driven machine

    The state of the process is a [World]: the clock, the [activeSessions]
    registry, the sockets created by [createWhatsAppSession] with their
    listener tables and whether they have closed, the in-flight HTTP
    requests with the point each handler is suspended at, the credential
    directories on disk, the responses sent and the requests whose promise
    rejected unhandled.  Each [Input] is one thing the event loop can run:
    a request arriving (the handler runs up to its first [await]), a library
    call completing, a socket emitting an event, time passing, a timer
    callback.  [step] runs it to the next suspension point; JavaScript runs
    one callback at a time, so a step is atomic.  Inputs that cannot happen
    in a state (a reply to a request that is not waiting for it) give
    [None].  [reachable] is the set of states of all schedules. *)

From S2P Require Import Prelude JsText Emitter Registry.
From Stdlib Require Import Ascii String ZArith.

Module Index.
Import SessionId PairingCode.

(** ** Data *)

Definition BotId := nat.
Definition ReqId := nat.

(** [lastDisconnect.error] and the other rejections of the library: an
    [Error] (a [Boom] from Baileys) with its [message] and
    [output.statusCode]. *)
Record ErrInfo := mkErr { err_message : string; err_status : option Z }.

(** The values of [update.connection]. *)
Inductive Connection := Connecting | Open | Close.

#[export] Instance Connection_eq_dec : EqDecision Connection.
Proof. solve_decision. Defined.

(** The fields of a [connection.update] payload that the code reads. *)
Record Update := mkUpdate {
  upd_connection : option Connection;
  upd_error : option ErrInfo;     (** [lastDisconnect?.error] *)
  upd_qr : option string;         (** [update.qr] *)
  }.

Inductive EventName := CredsUpdate | ConnectionUpdate | MessagesUpsert.

#[export] Instance EventName_eq_dec : EqDecision EventName.
Proof. solve_decision. Defined.

(** The events a socket emits on [bot.ev]. *)
Inductive Event :=
  | ECredsUpdate
  | EConnectionUpdate (u : Update)
  | EMessagesUpsert.

Definition event_name (e : Event) : EventName :=
  match e with
  | ECredsUpdate => CredsUpdate
  | EConnectionUpdate _ => ConnectionUpdate
  | EMessagesUpsert => MessagesUpsert
  end.

(** The listeners the code registers, with the variables their closures
    capture. *)
Inductive Listener :=
  | LSaveCreds (path : string)                     (** index.js:49, [saveCreds] *)
  | LSessionUpdate (sid : string)                  (** index.js:52-69 *)
  | LMessagesUpsert                                (** index.js:72-77, logs only *)
  | LPairRace (r : ReqId) (sid : string) (b : BotId)  (** index.js:113-125 *)
  | LQrRace (r : ReqId) (sid : string) (b : BotId).   (** index.js:161-169 *)

(** A socket made by [makeWASocket]: its session, its [ev] table, and
    whether it has emitted [connection: 'close'] (Baileys does not reconnect
    a closed socket, so a closed socket emits nothing more). *)
Record Bot := mkBot {
  bot_sid : string;
  bot_ev : Emitter EventName Listener;
  bot_closed : bool;
  }.

Inductive Route := RPair | RQr.

#[export] Instance Route_eq_dec : EqDecision Route.
Proof. solve_decision. Defined.

(** [req.query.number]: absent, one string, or an array or object (the
    query parser makes one from [number=a&number=b] or [number[x]=1]). *)
Inductive Query := QMissing | QString (s : string) | QOther.

(** Where a request's handler is suspended. *)
Inductive Phase :=
  | PhLoadingAuth (sid : string)         (** [await useMultiFileAuthState] (index.js:31) *)
  | PhLoadingVersion (sid : string)      (** [await fetchLatestBaileysVersion] (index.js:32) *)
  | PhRacing (sid : string) (b : BotId) (deadline : Z)
      (** [await connectionPromise] / [await qrPromise], timer armed *)
  | PhPairing (sid : string) (b : BotId) (** [await bot.requestPairingCode] (index.js:130) *)
  | PhRendering (sid : string) (b : BotId) (qr : string)
      (** the QR listener's [await qrcode.toDataURL(qr)] (index.js:166) *)
  | PhHung                               (** no response will ever be sent *)
  | PhDone.                              (** the response has been sent *)

#[export] Instance Phase_eq_dec : EqDecision Phase.
Proof. solve_decision. Defined.

Record Req := mkReq { req_route : Route; req_phase : Phase }.

(** The JSON bodies [res.json] sends. *)
Inductive Body :=
  | BError (error : string)
  | BCode (code : string)
  | BQr (qr : string) (instructions : list string).

Record Response := mkResponse { rsp_status : Z; rsp_body : Body }.

Record World := mkWorld {
  w_now : Z;
  w_sessions : gmap string BotId;     (** [activeSessions] *)
  w_bots : gmap BotId Bot;
  w_next_bot : BotId;
  w_reqs : gmap ReqId Req;
  w_dirs : gset string;               (** session directories holding credentials *)
  w_out : list (ReqId * Response);    (** responses, in the order sent *)
  w_unhandled : list ReqId;           (** requests whose promise rejected unhandled *)
  }.

Definition init_world : World := mkWorld 0 ∅ ∅ 0 ∅ ∅ [] [].

(** ** Constants of the source *)

Definition pair_timeout_ms : Z := 30000.   (** index.js:111 *)
Definition qr_timeout_ms : Z := 60000.     (** index.js:159 *)

Definition missing_number_message : string := "Nomor telepon diperlukan".
Definition duplicate_pair_message : string :=
  "Sesi untuk nomor ini sudah aktif atau sedang diproses.".
Definition duplicate_qr_message : string := "Sesi QR sudah aktif. Silakan refresh halaman.".
Definition pair_timeout_message : string := "Timeout: Gagal terhubung ke WhatsApp dalam 30 detik.".
Definition qr_timeout_message : string := "Timeout: Gagal mendapatkan QR code dalam 60 detik.".
Definition pair_default_message : string := "Gagal membuat pairing code. Coba lagi nanti.".
Definition qr_default_message : string := "Gagal membuat QR code.".

Definition dquote : string := String (ascii_of_nat 34) EmptyString.

(** index.js:173-177 *)
Definition qr_instructions : list string :=
  ["1. Buka WhatsApp di ponsel Anda";
   "2. Ketuk Menu (tiga titik) > Perangkat tertaut";
   "3. Ketuk " ++ dquote ++ "Tautkan perangkat" ++ dquote ++ " dan pindai kode QR ini"]%string.

Definition route_timeout (rt : Route) : Z :=
  match rt with RPair => pair_timeout_ms | RQr => qr_timeout_ms end.

Definition route_timeout_message (rt : Route) : string :=
  match rt with RPair => pair_timeout_message | RQr => qr_timeout_message end.

Definition route_default_message (rt : Route) : string :=
  match rt with RPair => pair_default_message | RQr => qr_default_message end.

(** [path.join(__dirname, 'sessions', sessionId)] relative to [__dirname]:
    [path.join] drops an empty last segment. *)
Definition session_path (sid : string) : string :=
  match sid with
  | EmptyString => "sessions"
  | _ => "sessions/" ++ sid
  end.

(** [new Boom(lastDisconnect?.error).message] (index.js:123).  Baileys
    always reports a disconnect as a [Boom]; [new Boom(err)] on an [Error]
    is [boomify(clone(err))], which returns a [Boom] without options
    unchanged, so its message is kept, the empty one included (the
    [catch] then falls back to its default text).  With no error,
    [new Boom(undefined)] has an empty message and takes the status text
    of its default status 500. *)
Definition boom_message (e : option ErrInfo) : string :=
  match e with
  | Some e => err_message e
  | None => "Internal Server Error"
  end.

(** ** Updating the world *)

Definition with_sessions (m : gmap string BotId) (w : World) : World :=
  mkWorld (w_now w) m (w_bots w) (w_next_bot w) (w_reqs w) (w_dirs w) (w_out w) (w_unhandled w).

Definition with_bots (bs : gmap BotId Bot) (w : World) : World :=
  mkWorld (w_now w) (w_sessions w) bs (w_next_bot w) (w_reqs w) (w_dirs w) (w_out w) (w_unhandled w).

Definition with_reqs (rs : gmap ReqId Req) (w : World) : World :=
  mkWorld (w_now w) (w_sessions w) (w_bots w) (w_next_bot w) rs (w_dirs w) (w_out w) (w_unhandled w).

Definition with_dirs (ds : gset string) (w : World) : World :=
  mkWorld (w_now w) (w_sessions w) (w_bots w) (w_next_bot w) (w_reqs w) ds (w_out w) (w_unhandled w).

Definition with_now (t : Z) (w : World) : World :=
  mkWorld t (w_sessions w) (w_bots w) (w_next_bot w) (w_reqs w) (w_dirs w) (w_out w) (w_unhandled w).

(** [activeSessions.delete(sessionId)]. *)
Definition sessions_delete (sid : string) (w : World) : World :=
  with_sessions (reg_delete sid (w_sessions w)) w.

Definition set_phase (r : ReqId) (ph : Phase) (w : World) : World :=
  with_reqs (alter (fun q => mkReq (req_route q) ph) r (w_reqs w)) w.

(** [res.json(body)] with its status: the response goes out. *)
Definition send (r : ReqId) (status : Z) (body : Body) (w : World) : World :=
  mkWorld (w_now w) (w_sessions w) (w_bots w) (w_next_bot w) (w_reqs w) (w_dirs w)
    (w_out w ++ [(r, mkResponse status body)]) (w_unhandled w).

(** A rejection nobody handles is recorded. *)
Definition record_unhandled (r : ReqId) (w : World) : World :=
  mkWorld (w_now w) (w_sessions w) (w_bots w) (w_next_bot w) (w_reqs w) (w_dirs w)
    (w_out w) (w_unhandled w ++ [r]).

(** [res.status(status).json(body)]: the response is sent and the handler
    is finished. *)
Definition respond (r : ReqId) (status : Z) (body : Body) (w : World) : World :=
  send r status body (set_phase r PhDone w).

(** A rejection nobody handles: no response is ever sent for [r]. *)
Definition unhandled (r : ReqId) (w : World) : World :=
  record_unhandled r (set_phase r PhHung w).

Definition bot_update (b : BotId) (f : Emitter EventName Listener -> Emitter EventName Listener)
    (w : World) : World :=
  with_bots (alter (fun bot => mkBot (bot_sid bot) (f (bot_ev bot)) (bot_closed bot)) b (w_bots w)) w.

Definition mark_closed (b : BotId) (w : World) : World :=
  with_bots (alter (fun bot => mkBot (bot_sid bot) (bot_ev bot) true) b (w_bots w)) w.

Definition phase_of (r : ReqId) (w : World) : option Phase := req_phase <$> w_reqs w !! r.

Definition is_racing (r : ReqId) (w : World) : bool :=
  match phase_of r w with Some (PhRacing _ _ _) => true | _ => false end.

(** Settling the race promise of [r]: only the first settlement counts. *)
Definition settle (r : ReqId) (ph : Phase) (w : World) : World :=
  if is_racing r w then set_phase r ph w else w.

(** The [catch] block of [GET /pair] (index.js:134-138):
    [activeSessions.delete(sessionId)] and a 500 with
    [error.message || 'Gagal membuat pairing code. ..']. *)
Definition pair_catch (r : ReqId) (sid : string) (msg : string) (w : World) : World :=
  respond r 500 (BError (Some msg ?|| pair_default_message)) (sessions_delete sid w).

(** The [catch] block of [GET /qr] (index.js:180-184). *)
Definition qr_catch (r : ReqId) (sid : string) (msg : string) (w : World) : World :=
  respond r 500 (BError (Some msg ?|| qr_default_message)) (sessions_delete sid w).

(** A rejection with message [msg] reaches the [catch] of the handler of
    request [r]. *)
Definition fail_request (r : ReqId) (sid : string) (msg : string) (w : World) : World :=
  match w_reqs w !! r with
  | Some q => match req_route q with RPair => pair_catch r sid msg w | RQr => qr_catch r sid msg w end
  | None => w
  end.

(** ** [GET /pair] and [GET /qr] up to their first [await] *)

(** What the synchronous part of a handler does. *)
Inductive Outcome :=
  | ORespond (status : Z) (body : Body)   (** [return res.status(..).json(..)] *)
  | OThrow                                (** a [TypeError] before the [try] *)
  | OLoad (sid : string).                 (** [createWhatsAppSession(sessionId)] starts *)

(** index.js:90-103 up to [await createWhatsAppSession]. *)
Definition pair_handler (q : Query) (sessions : gmap string BotId) : Outcome :=
  match q with
  | QMissing | QString EmptyString => ORespond 400 (BError missing_number_message)
  | QOther => OThrow      (* phoneNumber.replace is not a function *)
  | QString phoneNumber =>
      let sessionId := pair_session_id phoneNumber in
      if reg_has sessionId sessions then ORespond 400 (BError duplicate_pair_message)
      else OLoad sessionId
  end.

(** index.js:142-151 up to [await createWhatsAppSession]. *)
Definition qr_handler (sessions : gmap string BotId) : Outcome :=
  let sessionId := qr_session_id in
  if reg_has sessionId sessions then ORespond 400 (BError duplicate_qr_message)
  else OLoad sessionId.

Definition route_handler (rt : Route) (q : Query) (sessions : gmap string BotId) : Outcome :=
  match rt with RPair => pair_handler q sessions | RQr => qr_handler sessions end.

(** A request [r] for route [rt] arrives and its handler runs to its
    first [await], a [return] or a [throw]. *)
Definition add_request (r : ReqId) (rt : Route) (ph : Phase) (w : World) : World :=
  with_reqs (<[r := mkReq rt ph]> (w_reqs w)) w.

Definition request_arrives (r : ReqId) (rt : Route) (q : Query) (w : World) : World :=
  match route_handler rt q (w_sessions w) with
  | ORespond status body => send r status body (add_request r rt PhDone w)
  | OThrow => record_unhandled r (add_request r rt PhHung w)
  | OLoad sid => add_request r rt (PhLoadingAuth sid) w
  end.

(** [useMultiFileAuthState(sessionPath)] completes: it has created the
    session directory; or it rejects, and the handler's [catch] runs. *)
Definition auth_state_loaded (r : ReqId) (res : option ErrInfo) (w : World) : option World :=
  match phase_of r w with
  | Some (PhLoadingAuth sid) =>
      Some match res with
           | None => set_phase r (PhLoadingVersion sid) (with_dirs ({[session_path sid]} ∪ w_dirs w) w)
           | Some e => fail_request r sid (err_message e) w
           end
  | _ => None
  end.

(** The listener table [createWhatsAppSession] leaves on a new socket
    (index.js:49, 52, 72). *)
Definition session_table (sid : string) : Emitter EventName Listener :=
  on MessagesUpsert LMessagesUpsert
    (on ConnectionUpdate (LSessionUpdate sid) (on CredsUpdate (LSaveCreds (session_path sid)) [])).

(** The rest of [createWhatsAppSession] (index.js:34-79): a socket, its
    registration in [activeSessions] (overwriting any entry), and its three
    listeners. *)
Definition createWhatsAppSession (sid : string) (w : World) : World * BotId :=
  let b := w_next_bot w in
  let w1 := mkWorld (w_now w) (reg_set sid b (w_sessions w))
              (<[b := mkBot sid (session_table sid) false]> (w_bots w))
              (S b) (w_reqs w) (w_dirs w) (w_out w) (w_unhandled w) in
  (w1, b).

(** The race listener each handler attaches to [connection.update]. *)
Definition race_listener (rt : Route) (r : ReqId) (sid : string) (b : BotId) : Listener :=
  match rt with RPair => LPairRace r sid b | RQr => LQrRace r sid b end.

(** The table of a socket whose request is racing. *)
Definition race_table (sid : string) (r : ReqId) (b : BotId) (rt : Route) : Emitter EventName Listener :=
  on ConnectionUpdate (race_listener rt r sid b) (session_table sid).

(** [new Promise(..)] of [GET /pair] (index.js:106-126): the 30 s timer
    is armed and the race listener attached; the handler awaits it. *)
Definition pair_connection_promise (r : ReqId) (sid : string) (b : BotId) (w : World) : World :=
  set_phase r (PhRacing sid b (w_now w + pair_timeout_ms))
    (bot_update b (on ConnectionUpdate (LPairRace r sid b)) w).

(** [new Promise(..)] of [GET /qr] (index.js:154-170), with its 60 s timer. *)
Definition qr_promise (r : ReqId) (sid : string) (b : BotId) (w : World) : World :=
  set_phase r (PhRacing sid b (w_now w + qr_timeout_ms))
    (bot_update b (on ConnectionUpdate (LQrRace r sid b)) w).

(** [fetchLatestBaileysVersion] completes (it catches its own errors); the
    rest of [createWhatsAppSession] runs and the handler resumes and builds
    its promise. *)
Definition version_loaded (r : ReqId) (w : World) : option World :=
  match w_reqs w !! r with
  | Some (mkReq rt (PhLoadingVersion sid)) =>
      let '(w1, b) := createWhatsAppSession sid w in
      Some match rt with RPair => pair_connection_promise r sid b w1 | RQr => qr_promise r sid b w1 end
  | _ => None
  end.

(** ** The listeners *)

(** [saveCreds] (index.js:49): the credential files are written into the
    session directory.  [useMultiFileAuthState] writes with [writeFile]
    into that directory, which exists from the [mkdir] of the auth state;
    index.js never deletes it, so recording the path again is the same
    set. *)
Definition save_creds (path : string) (w : World) : World :=
  with_dirs ({[path]} ∪ w_dirs w) w.

(** The [connection.update] listener of [createWhatsAppSession]
    (index.js:52-69): on [close] the identifier leaves [activeSessions],
    whatever the status code. *)
Definition session_update (sid : string) (u : Update) (w : World) : World :=
  if decide (upd_connection u = Some Close) then sessions_delete sid w else w.

(** The race listener of [/pair] (index.js:113-125). *)
Definition pair_race_update (r : ReqId) (sid : string) (b : BotId) (u : Update) (w : World) : World :=
  match upd_connection u with
  | Some Open =>
      (* clearTimeout; removeAllListeners; resolve(true); then requestPairingCode *)
      settle r (PhPairing sid b) (bot_update b (removeAllListeners ConnectionUpdate) w)
  | Some Close =>
      (* clearTimeout; removeAllListeners; delete; reject(new Boom(..)); then catch *)
      let w1 := sessions_delete sid (bot_update b (removeAllListeners ConnectionUpdate) w) in
      if is_racing r w1 then fail_request r sid (boom_message (upd_error u)) w1 else w1
  | _ => w
  end.

(** The race listener of [/qr] (index.js:161-169) up to its [await]. *)
Definition qr_race_update (r : ReqId) (sid : string) (b : BotId) (u : Update) (w : World) : World :=
  match upd_qr u with
  | Some qr =>
      if js_truthy (Some qr) then
        (* clearTimeout; removeAllListeners; await qrcode.toDataURL(qr) *)
        settle r (PhRendering sid b qr) (bot_update b (removeAllListeners ConnectionUpdate) w)
      else w
  | None => w
  end.

(** [simpl] unfolds the listener bodies once they are applied, so that a
    case analysis on the listener reaches their branches. *)
Arguments save_creds _ _ /.
Arguments session_update _ _ _ /.
Arguments pair_race_update _ _ _ _ _ /.
Arguments qr_race_update _ _ _ _ _ /.

(** A listener runs on an event it is registered for. *)
Definition run_listener (ev : Event) (l : Listener) (w : World) : World :=
  match l, ev with
  | LSaveCreds path, ECredsUpdate => save_creds path w
  | LSessionUpdate sid, EConnectionUpdate u => session_update sid u w
  | LPairRace r sid b, EConnectionUpdate u => pair_race_update r sid b u w
  | LQrRace r sid b, EConnectionUpdate u => qr_race_update r sid b u w
  | _, _ => w
  end.

Definition is_close (ev : Event) : bool :=
  match ev with
  | EConnectionUpdate u => bool_decide (upd_connection u = Some Close)
  | _ => false
  end.

(** Socket [b] emits [ev]: the listeners registered at that moment run in
    order. *)
Definition emit_event (b : BotId) (ev : Event) (w : World) : option World :=
  match w_bots w !! b with
  | Some bot =>
      if bot_closed bot then None
      else
        let w1 := dispatch (run_listener ev) (listeners (event_name ev) (bot_ev bot)) w in
        Some (if is_close ev then mark_closed b w1 else w1)
  | None => None
  end.

(** ** Timers and library replies *)

(** The [setTimeout] callback of [GET /pair] (index.js:108-110): the
    listeners go, the identifier is deleted, and the rejection reaches the
    [catch]. *)
Definition pair_timer_callback (r : ReqId) (sid : string) (b : BotId) (w : World) : World :=
  pair_catch r sid pair_timeout_message
    (sessions_delete sid (bot_update b (removeAllListeners ConnectionUpdate) w)).

(** The [setTimeout] callback of [GET /qr] (index.js:156-158). *)
Definition qr_timer_callback (r : ReqId) (sid : string) (b : BotId) (w : World) : World :=
  qr_catch r sid qr_timeout_message
    (sessions_delete sid (bot_update b (removeAllListeners ConnectionUpdate) w)).

(** A timer armed for [deadline] is due: Node runs a [setTimeout]
    callback once its delay has elapsed, never before. *)
Definition timer_due (deadline : Z) (w : World) : bool := bool_decide (deadline <= w_now w)%Z.

(** The timer of a racing request fires, at or after its deadline. *)
Definition timer_fires (r : ReqId) (w : World) : option World :=
  match w_reqs w !! r with
  | Some (mkReq rt (PhRacing sid b deadline)) =>
      if timer_due deadline w then
        Some match rt with
             | RPair => pair_timer_callback r sid b w
             | RQr => qr_timer_callback r sid b w
             end
      else None
  | _ => None
  end.

(** [bot.requestPairingCode(sessionId)] settles (index.js:130-133). *)
Definition pairing_code_reply (r : ReqId) (res : string + ErrInfo) (w : World) : option World :=
  match phase_of r w with
  | Some (PhPairing sid _) =>
      Some match res with
           | inl pairingCode => respond r 200 (BCode (formatPairingCode pairingCode)) w
           | inr e => fail_request r sid (err_message e) w
           end
  | _ => None
  end.

(** [qrcode.toDataURL(qr)] settles inside the async listener
    (index.js:166-167): on success the promise resolves and the handler
    answers; on failure the listener's own promise rejects unhandled and
    [qrPromise] is never settled. *)
Definition qr_rendered (r : ReqId) (res : string + ErrInfo) (w : World) : option World :=
  match phase_of r w with
  | Some (PhRendering _ _ _) =>
      Some match res with
           | inl qrUrl => respond r 200 (BQr qrUrl qr_instructions) w
           | inr _ => unhandled r w
           end
  | _ => None
  end.

(** ** The machine *)

Inductive Input :=
  | IRequest (r : ReqId) (rt : Route) (q : Query)
  | IAuthState (r : ReqId) (res : option ErrInfo)
  | IVersion (r : ReqId)
  | IEmit (b : BotId) (ev : Event)
  | ITick (dt : Z)
  | IFire (r : ReqId)
  | IPairingCode (r : ReqId) (res : string + ErrInfo)
  | IRendered (r : ReqId) (res : string + ErrInfo).

Definition step (w : World) (i : Input) : option World :=
  match i with
  | IRequest r rt q =>
      if decide (w_reqs w !! r = None) then Some (request_arrives r rt q w) else None
  | IAuthState r res => auth_state_loaded r res w
  | IVersion r => version_loaded r w
  | IEmit b ev => emit_event b ev w
  | ITick dt => if bool_decide (0 < dt)%Z then Some (with_now (w_now w + dt) w) else None
  | IFire r => timer_fires r w
  | IPairingCode r res => pairing_code_reply r res w
  | IRendered r res => qr_rendered r res w
  end.

Fixpoint run (w : World) (inputs : list Input) : option World :=
  match inputs with
  | [] => Some w
  | i :: rest => step w i ≫= fun w' => run w' rest
  end.

Inductive reachable : World -> Prop :=
  | reachable_init : reachable init_world
  | reachable_step w i w' : reachable w -> step w i = Some w' -> reachable w'.

End Index.
