(* ===== verification/IndexInvariants.v ===== *)
(** * IndexInvariants: the invariants of [src/index.js] and the protocol

    The lemmas the properties of [IndexProps] are proved with:
    - frames: what each update of the world leaves alone;
    - the response invariant ([answered_once]): by rule induction on
      [Index.reachable], one response per finished request;
    - the listener tables ([tables_ok]): every open socket carries the
      listeners [createWhatsAppSession] gave it, plus the race listener of
      the one request racing on it, if any;
    - the protocol [phase_edge] of a request and [step_follows]: every
      step moves every request along it; finished requests stay finished. *)

From S2P Require Import Prelude JsText Emitter Registry Answered Protocol IndexServer.
From Stdlib Require Import ZArith.

Module IndexInvariants.
Import SessionId PairingCode Index.

(** ** The handlers of the two routes, read together

    index.js repeats the same code in its two handlers; the model has one
    definition per handler ([pair_catch], [qr_catch], ...).  These
    equations give the shape both share, which the proofs reason on. *)

Lemma fail_request_unfold (r : ReqId) (sid msg : string) (w : World) :
  fail_request r sid msg w =
  match w_reqs w !! r with
  | Some q => respond r 500 (BError (Some msg ?|| route_default_message (req_route q))) (sessions_delete sid w)
  | None => w
  end.
Proof. unfold fail_request. by destruct (w_reqs w !! r) as [[[] ?]|]. Qed.

Lemma version_loaded_unfold (r : ReqId) (w : World) :
  version_loaded r w =
  match w_reqs w !! r with
  | Some (mkReq rt (PhLoadingVersion sid)) =>
      let '(w1, b) := createWhatsAppSession sid w in
      Some (set_phase r (PhRacing sid b (w_now w + route_timeout rt))
              (bot_update b (on ConnectionUpdate (race_listener rt r sid b)) w1))
  | _ => None
  end.
Proof. unfold version_loaded. by destruct (w_reqs w !! r) as [[[] []]|]. Qed.

Lemma timer_fires_unfold (r : ReqId) (w : World) :
  timer_fires r w =
  match w_reqs w !! r with
  | Some (mkReq rt (PhRacing sid b deadline)) =>
      if timer_due deadline w then
        let w1 := sessions_delete sid (bot_update b (removeAllListeners ConnectionUpdate) w) in
        Some (fail_request r sid (route_timeout_message rt) w1)
      else None
  | _ => None
  end.
Proof.
  unfold timer_fires. destruct (w_reqs w !! r) as [[[] []]|] eqn:E; try done.
  all: destruct (timer_due _ _); [|done]; unfold fail_request, pair_timer_callback, qr_timer_callback.
  all: cbn [w_reqs sessions_delete with_sessions bot_update with_bots]; by rewrite E.
Qed.

(** ** Reading the world after an update *)

Section Frame.
Context (r : ReqId) (w : World).

Lemma reqs_with_sessions m : w_reqs (with_sessions m w) = w_reqs w.
Proof. reflexivity. Qed.
Lemma reqs_with_bots bs : w_reqs (with_bots bs w) = w_reqs w.
Proof. reflexivity. Qed.
Lemma reqs_with_dirs ds : w_reqs (with_dirs ds w) = w_reqs w.
Proof. reflexivity. Qed.
Lemma reqs_with_now t : w_reqs (with_now t w) = w_reqs w.
Proof. reflexivity. Qed.
Lemma reqs_send st b : w_reqs (send r st b w) = w_reqs w.
Proof. reflexivity. Qed.
Lemma reqs_record_unhandled : w_reqs (record_unhandled r w) = w_reqs w.
Proof. reflexivity. Qed.
Lemma out_with_sessions m : w_out (with_sessions m w) = w_out w.
Proof. reflexivity. Qed.
Lemma out_with_bots bs : w_out (with_bots bs w) = w_out w.
Proof. reflexivity. Qed.
Lemma out_with_reqs rs : w_out (with_reqs rs w) = w_out w.
Proof. reflexivity. Qed.
Lemma out_with_dirs ds : w_out (with_dirs ds w) = w_out w.
Proof. reflexivity. Qed.
Lemma out_with_now t : w_out (with_now t w) = w_out w.
Proof. reflexivity. Qed.
Lemma out_record_unhandled : w_out (record_unhandled r w) = w_out w.
Proof. reflexivity. Qed.
Lemma out_send st b : w_out (send r st b w) = w_out w ++ [(r, mkResponse st b)].
Proof. reflexivity. Qed.
End Frame.

Create HintDb idx discriminated.
Create Rewrite HintDb idx_rw.
#[export] Hint Rewrite reqs_with_sessions reqs_with_bots reqs_with_dirs reqs_with_now reqs_send
  reqs_record_unhandled out_with_sessions out_with_bots out_with_reqs out_with_dirs out_with_now
  out_record_unhandled out_send : idx_rw.

(** ** Every request is answered at most once *)

Definition responses_of (r : ReqId) (w : World) : list Response := responses_for r (w_out w).

Definition finished (q : Req) : bool := bool_decide (req_phase q = PhDone).

(** The number of responses for [r] is one when its handler is finished
    and zero otherwise (also for a request that never arrived): the shared
    statement of [Answered] on the requests and responses of the world. *)
Definition answered_once (w : World) : Prop := answered_once_in finished (w_reqs w) (w_out w).

Lemma answered_once_phase (w : World) :
  answered_once w -> forall r,
    length (responses_of r w) = if bool_decide (phase_of r w = Some PhDone) then 1 else 0.
Proof.
  intros H r. unfold responses_of. rewrite (H r). unfold phase_of, finished.
  destruct (w_reqs w !! r) as [q|]; simpl; [|done]. case_bool_decide; case_bool_decide; congruence.
Qed.

Lemma answered_once_frame (w w' : World) :
  w_reqs w' = w_reqs w -> w_out w' = w_out w -> answered_once w -> answered_once w'.
Proof. unfold answered_once. by intros -> ->. Qed.

Lemma responses_of_frame (r : ReqId) (w w' : World) :
  w_out w' = w_out w -> responses_of r w' = responses_of r w.
Proof. intros Ho. unfold responses_of. by rewrite Ho. Qed.

Lemma phase_of_frame (r : ReqId) (w w' : World) :
  w_reqs w' = w_reqs w -> phase_of r w' = phase_of r w.
Proof. intros Hr. unfold phase_of. by rewrite Hr. Qed.

Lemma responses_of_send (r r' : ReqId) (st : Z) (b : Body) (w : World) :
  responses_of r' (send r st b w) =
  responses_of r' w ++ (if decide (r = r') then [mkResponse st b] else []).
Proof. unfold responses_of. rewrite out_send. apply responses_for_snoc. Qed.

Lemma phase_of_set_phase (r r' : ReqId) (ph : Phase) (w : World) :
  phase_of r' (set_phase r ph w) =
  if decide (r = r') then (fun _ => ph) <$> phase_of r w else phase_of r' w.
Proof.
  unfold phase_of, set_phase. cbn [w_reqs with_reqs].
  destruct (decide (r = r')) as [<-|Hne].
  - rewrite lookup_alter_eq. by destruct (w_reqs w !! r).
  - by rewrite lookup_alter_ne.
Qed.

(** The response of a request in progress finishes it. *)
Lemma phase_of_respond (r : ReqId) (st : Z) (body : Body) (w : World) :
  is_Some (phase_of r w) -> phase_of r (respond r st body w) = Some PhDone.
Proof.
  intros [p Hp]. unfold respond. rewrite (phase_of_frame r (set_phase r PhDone w)) by done.
  by rewrite phase_of_set_phase, decide_True, Hp.
Qed.

Lemma phase_of_fail_request (r : ReqId) (sid msg : string) (w : World) :
  is_Some (phase_of r w) -> phase_of r (fail_request r sid msg w) = Some PhDone.
Proof.
  intros Hs. rewrite fail_request_unfold. unfold phase_of in Hs.
  destruct (w_reqs w !! r) eqn:E; [|by destruct Hs]. apply phase_of_respond.
  rewrite (phase_of_frame r w) by done. unfold phase_of. by rewrite E.
Qed.

(** Moving an unfinished request to another unfinished phase. *)
Lemma answered_once_set_phase (r : ReqId) (ph : Phase) (w : World) :
  ph <> PhDone -> phase_of r w <> Some PhDone -> answered_once w -> answered_once (set_phase r ph w).
Proof.
  intros Hph Hr H. apply answered_once_in_alter; [|done].
  intros q Hq. unfold phase_of in Hr. rewrite Hq in Hr. unfold finished. simpl in *.
  split; apply bool_decide_false; congruence.
Qed.

(** Finishing an unfinished request with one response. *)
Lemma answered_once_respond (r : ReqId) (st : Z) (b : Body) (w : World) :
  is_Some (phase_of r w) -> phase_of r w <> Some PhDone -> answered_once w ->
  answered_once (respond r st b w).
Proof.
  intros [ph Hph] Hr H. unfold phase_of in *. destruct (w_reqs w !! r) as [q|] eqn:Hq; [|done].
  apply (answered_once_in_finish _ _ r q); [done | | done | done]. unfold finished. simpl in Hr.
  apply bool_decide_false. congruence.
Qed.

Lemma answered_once_unhandled (r : ReqId) (w : World) :
  phase_of r w <> Some PhDone -> answered_once w -> answered_once (unhandled r w).
Proof.
  intros Hr H. apply (answered_once_frame (set_phase r PhHung w)); [done..|].
  by apply answered_once_set_phase.
Qed.

Lemma answered_once_fail_request (r : ReqId) (sid msg : string) (w : World) :
  is_Some (phase_of r w) -> phase_of r w <> Some PhDone -> answered_once w ->
  answered_once (fail_request r sid msg w).
Proof.
  intros Hs Hr H. rewrite fail_request_unfold. destruct (w_reqs w !! r) as [q|] eqn:E; [|done].
  apply answered_once_respond; [done..|].
  by apply (answered_once_frame w).
Qed.

(** An update that leaves the requests and the responses alone. *)
Ltac answered_frame H := exact (answered_once_frame _ _ eq_refl eq_refl H).

Lemma is_racing_unfinished (r : ReqId) (w : World) :
  is_racing r w = true -> is_Some (phase_of r w) /\ phase_of r w <> Some PhDone.
Proof. unfold is_racing. destruct (phase_of r w) as [[]|]; naive_solver. Qed.

Lemma answered_once_settle (r : ReqId) (ph : Phase) (w : World) :
  ph <> PhDone -> answered_once w -> answered_once (settle r ph w).
Proof.
  intros Hph H. unfold settle. destruct (is_racing r w) eqn:E; [|done].
  apply answered_once_set_phase; [done | apply is_racing_unfinished, E | done].
Qed.

Lemma answered_once_add_request (r : ReqId) (rt : Route) (ph : Phase) (w : World) :
  w_reqs w !! r = None -> ph <> PhDone -> answered_once w -> answered_once (add_request r rt ph w).
Proof.
  intros Hr Hph H. apply answered_once_in_insert; [done| |done].
  unfold finished. apply bool_decide_false. done.
Qed.

Lemma answered_once_add_response (r : ReqId) (rt : Route) (st : Z) (b : Body) (w : World) :
  w_reqs w !! r = None -> answered_once w -> answered_once (send r st b (add_request r rt PhDone w)).
Proof. intros Hr H. by apply answered_once_in_insert_answered. Qed.

Lemma answered_once_run_listener (ev : Event) (l : Listener) (w : World) :
  answered_once w -> answered_once (run_listener ev l w).
Proof.
  intros H. destruct l, ev; simpl; try answered_frame H.
  - case_decide; [answered_frame H | done].
  - destruct (upd_connection u) as [[]|]; try done.
    + apply answered_once_settle; [done | answered_frame H].
    + destruct (is_racing r _) eqn:E; [|answered_frame H].
      apply is_racing_unfinished in E as [? ?].
      apply answered_once_fail_request; [done..|answered_frame H].
  - repeat case_match; try answered_frame H.
    all: apply answered_once_settle; [done | answered_frame H].
Qed.

(** Every input but a pairing-code reply keeps the response invariant. *)
Lemma answered_once_step_other (w : World) (i : Input) (w' : World) :
  answered_once w -> step w i = Some w' -> (forall r res, i <> IPairingCode r res) -> answered_once w'.
Proof.
  intros H Hs Hi. destruct i as [r rt q|r res|r|b ev|dt|r|r res|r res]; simpl in Hs.
  - case_decide as Hr; [|done]. injection Hs as <-. unfold request_arrives.
    destruct (route_handler rt q (w_sessions w)).
    + by apply answered_once_add_response.
    + exact (answered_once_frame _ (add_request r rt PhHung w) eq_refl eq_refl
               (answered_once_add_request r rt PhHung w Hr ltac:(done) H)).
    + by apply answered_once_add_request.
  - unfold auth_state_loaded in Hs. destruct (phase_of r w) as [[]|] eqn:E; try done.
    injection Hs as <-. destruct res.
    + apply answered_once_fail_request; [by rewrite E | by rewrite E | done].
    + apply answered_once_set_phase; [done | | answered_frame H].
      by rewrite (phase_of_frame r w (with_dirs ({[session_path sid]} ∪ w_dirs w) w)), E.
  - rewrite version_loaded_unfold in Hs. destruct (w_reqs w !! r) as [[rt []]|] eqn:E; try done.
    injection Hs as <-. apply answered_once_set_phase; [done | |answered_frame H].
    unfold phase_of. simpl. by rewrite E.
  - unfold emit_event in Hs. destruct (w_bots w !! b) as [bot|]; [|done].
    destruct (bot_closed bot); [done|]. injection Hs as <-.
    assert (Hd : answered_once (dispatch (run_listener ev) (listeners (event_name ev) (bot_ev bot)) w)).
    { apply dispatch_preserves; [|done]. intros. by apply answered_once_run_listener. }
    destruct (is_close ev); [answered_frame Hd | done].
  - case_bool_decide; [|done]. injection Hs as <-. answered_frame H.
  - rewrite timer_fires_unfold in Hs. destruct (w_reqs w !! r) as [[rt []]|] eqn:E; try done.
    destruct (timer_due _ _); [|done]. injection Hs as <-.
    apply answered_once_fail_request; [| |answered_frame H]; unfold phase_of; simpl; by rewrite E.
  - by destruct (Hi r res).
  - unfold qr_rendered in Hs. destruct (phase_of r w) as [[]|] eqn:E; try done.
    injection Hs as <-. destruct res.
    + apply answered_once_respond; [by rewrite E | by rewrite E | done].
    + apply answered_once_unhandled; [by rewrite E | done].
Qed.

(** ** One step of a handler *)


Definition open_update : Event := EConnectionUpdate (mkUpdate (Some Open) None None).

Lemma listeners_race_table (sid : string) (r : ReqId) (b : BotId) (rt : Route) :
  listeners ConnectionUpdate (race_table sid r b rt) = [LSessionUpdate sid; race_listener rt r sid b].
Proof. reflexivity. Qed.

Lemma step_pair_request (w : World) (r : ReqId) (phoneNumber : string) :
  w_reqs w !! r = None -> phoneNumber <> EmptyString ->
  w_sessions w !! pair_session_id phoneNumber = None ->
  step w (IRequest r RPair (QString phoneNumber))
  = Some (add_request r RPair (PhLoadingAuth (pair_session_id phoneNumber)) w).
Proof.
  intros Hr Hne Hs. simpl. rewrite decide_True by done. f_equal.
  unfold request_arrives, route_handler, pair_handler. rewrite ?reg_has_js, ?Hs.
  by destruct phoneNumber.
Qed.

Lemma step_auth_ok (w : World) (r : ReqId) (sid : string) :
  phase_of r w = Some (PhLoadingAuth sid) ->
  step w (IAuthState r None)
  = Some (set_phase r (PhLoadingVersion sid) (with_dirs ({[session_path sid]} ∪ w_dirs w) w)).
Proof. intros Hp. simpl. unfold auth_state_loaded. by rewrite Hp. Qed.

(** After the version is loaded the request races on a fresh socket whose
    table is [race_table]. *)
Lemma step_version (w : World) (r : ReqId) (rt : Route) (sid : string) :
  w_reqs w !! r = Some (mkReq rt (PhLoadingVersion sid)) ->
  exists w', step w (IVersion r) = Some w' /\
    w_bots w' !! w_next_bot w = Some (mkBot sid (race_table sid r (w_next_bot w) rt) false) /\
    w_sessions w' = <[sid := w_next_bot w]> (w_sessions w) /\
    w_reqs w' !! r = Some (mkReq rt (PhRacing sid (w_next_bot w) (w_now w + route_timeout rt))) /\
    w_out w' = w_out w /\ w_dirs w' = w_dirs w /\ w_now w' = w_now w /\
    w_next_bot w' = S (w_next_bot w) /\
    (forall r', r' <> r -> w_reqs w' !! r' = w_reqs w !! r') /\
    (forall b', b' <> w_next_bot w -> w_bots w' !! b' = w_bots w !! b').
Proof.
  intros Hr. simpl. rewrite version_loaded_unfold. rewrite Hr. eexists; split; [reflexivity|].
  unfold set_phase, bot_update; simpl. rewrite lookup_alter_eq, lookup_insert_eq, lookup_alter_eq, Hr.
  split_and!; try done; intros x Hx; by rewrite ?lookup_alter_ne, ?lookup_insert_ne.
Qed.

(** An update emitted on a socket whose request is racing runs the
    session listener, then the race listener. *)
Lemma step_emit_race (w : World) (b : BotId) (sid : string) (r : ReqId) (rt : Route) (u : Update) :
  w_bots w !! b = Some (mkBot sid (race_table sid r b rt) false) ->
  step w (IEmit b (EConnectionUpdate u)) =
  Some (let w1 := run_listener (EConnectionUpdate u) (race_listener rt r sid b)
                    (run_listener (EConnectionUpdate u) (LSessionUpdate sid) w) in
        if is_close (EConnectionUpdate u) then mark_closed b w1 else w1).
Proof. intros Hb. simpl. unfold emit_event. rewrite Hb. reflexivity. Qed.

Lemma is_racing_phase (r : ReqId) (w : World) (sid : string) (b : BotId) (d : Z) :
  phase_of r w = Some (PhRacing sid b d) -> is_racing r w = true.
Proof. unfold is_racing. by intros ->. Qed.

Definition qr_event (qr : string) : Event := EConnectionUpdate (mkUpdate None None (Some qr)).

Lemma step_qr_request (w : World) (r : ReqId) (q : Query) :
  w_reqs w !! r = None -> w_sessions w !! qr_session_id = None ->
  step w (IRequest r RQr q) = Some (add_request r RQr (PhLoadingAuth qr_session_id) w).
Proof.
  intros Hr Hs. simpl. rewrite decide_True by done. f_equal.
  unfold request_arrives, route_handler, qr_handler. by rewrite reg_has_js, Hs.
Qed.

Lemma step_emit_qr (w : World) (b : BotId) (sid : string) (r : ReqId) (d : Z) (qr : string) :
  w_bots w !! b = Some (mkBot sid (race_table sid r b RQr) false) ->
  phase_of r w = Some (PhRacing sid b d) -> qr <> EmptyString ->
  step w (IEmit b (qr_event qr)) =
  Some (set_phase r (PhRendering sid b qr) (bot_update b (removeAllListeners ConnectionUpdate) w)).
Proof.
  intros Hb Hp Hq. unfold qr_event. rewrite (step_emit_race _ _ _ _ _ _ Hb). f_equal. simpl.
  destruct qr as [|c qr]; [done|]. simpl. unfold settle. by rewrite (is_racing_phase r _ sid b d).
Qed.

Lemma step_rendered_ok (w : World) (r : ReqId) (sid : string) (b : BotId) (qr qrUrl : string) :
  phase_of r w = Some (PhRendering sid b qr) ->
  step w (IRendered r (inl qrUrl)) = Some (respond r 200 (BQr qrUrl qr_instructions) w).
Proof. intros Hp. simpl. unfold qr_rendered. by rewrite Hp. Qed.

(** ** The listener table of every socket *)

(** What is left of a socket's table once its race is over: the
    [connection.update] listeners are all gone, including the session
    listener of index.js:52. *)
Definition settled_table (sid : string) : Emitter EventName Listener :=
  removeAllListeners ConnectionUpdate (session_table sid).

Definition racing_on (w : World) (r : ReqId) (rt : Route) (sid : string) (b : BotId) (d : Z) : Prop :=
  w_reqs w !! r = Some (mkReq rt (PhRacing sid b d)).

(** Socket ids are below [w_next_bot]; a racing request's socket carries
    its race table (and is open on the pairing path); every other socket
    has the settled table. *)
Definition tables_ok (w : World) : Prop :=
  (forall b, is_Some (w_bots w !! b) -> b < w_next_bot w) /\
  (forall r rt sid b d, racing_on w r rt sid b d ->
     exists closed, w_bots w !! b = Some (mkBot sid (race_table sid r b rt) closed) /\
                    (rt = RPair -> closed = false)) /\
  (forall b bot, w_bots w !! b = Some bot ->
     bot_ev bot = settled_table (bot_sid bot) \/
     exists r rt d, bot_ev bot = race_table (bot_sid bot) r b rt /\ racing_on w r rt (bot_sid bot) b d).

Lemma race_table_inj (sid sid' : string) (r r' : ReqId) (b : BotId) (rt rt' : Route) :
  race_table sid r b rt = race_table sid' r' b rt' -> r = r' /\ rt = rt' /\ sid = sid'.
Proof.
  unfold race_table, on. intros H. apply app_inj_tail in H as [_ H].
  destruct rt, rt'; simpl in H; naive_solver.
Qed.

Lemma settled_not_race (sid sid' : string) (r : ReqId) (b : BotId) (rt : Route) :
  settled_table sid <> race_table sid' r b rt.
Proof. intros H. apply (f_equal length) in H. discriminate. Qed.

Lemma removeAll_race_table (sid : string) (r : ReqId) (b : BotId) (rt : Route) :
  removeAllListeners ConnectionUpdate (race_table sid r b rt) = settled_table sid.
Proof. reflexivity. Qed.

(** Updates that leave the sockets and the racing requests alone. *)
Lemma tables_ok_frame (w w' : World) :
  w_bots w' = w_bots w -> w_next_bot w' = w_next_bot w ->
  (forall r rt sid b d, racing_on w' r rt sid b d <-> racing_on w r rt sid b d) ->
  tables_ok w -> tables_ok w'.
Proof.
  intros Hb Hn Hr (H1 & H2 & H3). unfold tables_ok. rewrite Hb, Hn. split; [done|]. split.
  - intros r rt sid b d Hrace. eapply H2, Hr, Hrace.
  - intros b bot Hbot. destruct (H3 b bot Hbot) as [?|(r & rt & d & ? & ?)]; [by left|].
    right. exists r, rt, d. split; [done|]. by apply Hr.
Qed.

Ltac tables_frame H := apply (tables_ok_frame _ _ eq_refl eq_refl); [intros; reflexivity | exact H].

Definition not_racing (ph : Phase) : Prop := match ph with PhRacing _ _ _ => False | _ => True end.

(** Moving a request that is not racing to a phase that is not racing. *)
Lemma tables_ok_set_phase (r : ReqId) (ph : Phase) (w : World) :
  not_racing ph -> (forall q, w_reqs w !! r = Some q -> not_racing (req_phase q)) ->
  tables_ok w -> tables_ok (set_phase r ph w).
Proof.
  intros Hph Hq H. apply (tables_ok_frame w); [done..| |done].
  intros r' rt sid b d. unfold racing_on, set_phase. simpl. destruct (decide (r = r')) as [<-|Hne].
  - rewrite lookup_alter_eq. destruct (w_reqs w !! r) as [q|] eqn:E; simpl; [|done].
    specialize (Hq q eq_refl). split; intros Hx.
    + injection Hx as _ ->. simpl in Hph. done.
    + injection Hx as ->. simpl in Hq. done.
  - by rewrite lookup_alter_ne.
Qed.

Lemma tables_ok_finish (r : ReqId) (sid : string) (st : Z) (body : Body) (msg : string) (w : World) :
  (forall q, w_reqs w !! r = Some q -> not_racing (req_phase q)) -> tables_ok w ->
  tables_ok (respond r st body w) /\ tables_ok (fail_request r sid msg w) /\ tables_ok (unhandled r w).
Proof.
  intros Hq H. assert (Hd : tables_ok (set_phase r PhDone w)) by by apply tables_ok_set_phase.
  split; [|split].
  - unfold respond. tables_frame Hd.
  - assert (tables_ok (set_phase r PhDone (sessions_delete sid w))) as Hd'.
    { apply tables_ok_set_phase; [done | exact Hq | tables_frame H]. }
    rewrite fail_request_unfold. destruct (w_reqs w !! r); [|done]. unfold respond. tables_frame Hd'.
  - unfold unhandled. assert (tables_ok (set_phase r PhHung w)) as Hh by by apply tables_ok_set_phase.
    tables_frame Hh.
Qed.

Lemma tables_ok_respond (r : ReqId) (st : Z) (body : Body) (w : World) :
  (forall q, w_reqs w !! r = Some q -> not_racing (req_phase q)) -> tables_ok w ->
  tables_ok (respond r st body w).
Proof. intros Hq H. apply (tables_ok_finish r "" st body "" w Hq H). Qed.

Lemma tables_ok_fail_request (r : ReqId) (sid msg : string) (w : World) :
  (forall q, w_reqs w !! r = Some q -> not_racing (req_phase q)) -> tables_ok w ->
  tables_ok (fail_request r sid msg w).
Proof. intros Hq H. apply (tables_ok_finish r sid 0 (BError "") msg w Hq H). Qed.

Lemma tables_ok_send (r : ReqId) (st : Z) (body : Body) (w : World) : tables_ok w -> tables_ok (send r st body w).
Proof. intros H. tables_frame H. Qed.

Lemma tables_ok_unhandled (r : ReqId) (w : World) :
  (forall q, w_reqs w !! r = Some q -> not_racing (req_phase q)) -> tables_ok w ->
  tables_ok (unhandled r w).
Proof. intros Hq H. apply (tables_ok_finish r "" 0 (BError "") "" w Hq H). Qed.

Lemma tables_ok_add_request (r : ReqId) (rt : Route) (ph : Phase) (w : World) :
  w_reqs w !! r = None -> not_racing ph -> tables_ok w -> tables_ok (add_request r rt ph w).
Proof.
  intros Hr Hph H. apply (tables_ok_frame w); [done..| |done].
  intros r' rt' sid b d. unfold racing_on, add_request. simpl. destruct (decide (r = r')) as [<-|Hne].
  - rewrite lookup_insert_eq, Hr. split; intros Hx; [injection Hx as _ ->; simpl in Hph; done | done].
  - by rewrite lookup_insert_ne.
Qed.

(** The end of a race: the request leaves [PhRacing] and its socket loses
    its [connection.update] listeners. *)
Lemma tables_ok_end_race (r : ReqId) (rt : Route) (sid : string) (b : BotId) (d : Z) (ph : Phase) (w : World) :
  racing_on w r rt sid b d -> not_racing ph -> tables_ok w ->
  tables_ok (set_phase r ph (bot_update b (removeAllListeners ConnectionUpdate) w)).
Proof.
  intros Hrace Hph (H1 & H2 & H3).
  destruct (H2 _ _ _ _ _ Hrace) as (closed & Hb & _).
  assert (Hother : forall r' rt' sid' d', racing_on w r' rt' sid' b d' -> r' = r).
  { intros r' rt' sid' d' Hr'. destruct (H2 _ _ _ _ _ Hr') as (c' & Hb' & _).
    assert (Ht : race_table sid' r' b rt' = race_table sid r b rt) by congruence.
    by apply race_table_inj in Ht as [-> _]. }
  assert (Hnr : forall r' rt' sid' b' d', racing_on (set_phase r ph (bot_update b (removeAllListeners ConnectionUpdate) w)) r' rt' sid' b' d' <->
                  r' <> r /\ racing_on w r' rt' sid' b' d').
  { intros r' rt' sid' b' d'. unfold racing_on, set_phase. simpl. destruct (decide (r = r')) as [<-|Hne].
    - rewrite lookup_alter_eq, Hrace. simpl. split; [intros Hx; injection Hx as _ ->; simpl in Hph; done | naive_solver].
    - rewrite lookup_alter_ne by done. naive_solver. }
  split; [|split].
  - intros b' Hb'. apply H1. unfold bot_update, set_phase in Hb'. simpl in Hb'.
    by apply lookup_alter_is_Some in Hb'.
  - intros r' rt' sid' b' d' Hr'. apply Hnr in Hr' as [Hne Hr'].
    destruct (decide (b = b')) as [<-|Hbne]; [by apply Hother in Hr'|].
    destruct (H2 _ _ _ _ _ Hr') as (c' & Hb' & Hc'). exists c'. split; [|done].
    unfold bot_update, set_phase. simpl. by rewrite lookup_alter_ne.
  - intros b' bot' Hb'. unfold bot_update, set_phase in Hb'. simpl in Hb'.
    destruct (decide (b = b')) as [<-|Hbne].
    + rewrite lookup_alter_eq, Hb in Hb'. injection Hb' as <-. left. simpl. apply removeAll_race_table.
    + rewrite lookup_alter_ne in Hb' by done.
      destruct (H3 _ _ Hb') as [?|(r' & rt' & d' & Ht & Hr')]; [by left|].
      right. exists r', rt', d'. split; [done|]. apply Hnr. split; [|done].
      intros ->. destruct (H2 _ _ _ _ _ Hrace) as (? & Hb2 & _). rewrite Hb in Hb2. congruence.
Qed.

Lemma tables_ok_ext (w w' : World) :
  w_bots w' = w_bots w -> w_next_bot w' = w_next_bot w -> w_reqs w' = w_reqs w ->
  tables_ok w -> tables_ok w'.
Proof.
  intros Hb Hn Hr. apply tables_ok_frame; [done..|]. intros. unfold racing_on. by rewrite Hr.
Qed.

Lemma no_race_on_settled (w : World) (b : BotId) (bot : Bot) :
  tables_ok w -> w_bots w !! b = Some bot -> bot_ev bot = settled_table (bot_sid bot) ->
  forall r rt sid d, ~ racing_on w r rt sid b d.
Proof.
  intros (_ & H2 & _) Hb Ht r rt sid d Hr. destruct (H2 _ _ _ _ _ Hr) as (c & Hb' & _).
  rewrite Hb in Hb'. injection Hb' as ->. simpl in Ht. symmetry in Ht. by apply settled_not_race in Ht.
Qed.

(** At most one request races on a socket. *)
Lemma racing_unique (w : World) (r r' : ReqId) (rt rt' : Route) (sid sid' : string) (b : BotId) (d d' : Z) :
  tables_ok w -> racing_on w r rt sid b d -> racing_on w r' rt' sid' b d' -> r' = r /\ rt' = rt.
Proof.
  intros (_ & H2 & _) Hr Hr'. destruct (H2 _ _ _ _ _ Hr) as (c & Hb & _).
  destruct (H2 _ _ _ _ _ Hr') as (c' & Hb' & _).
  assert (Ht : race_table sid' r' b rt' = race_table sid r b rt) by congruence.
  apply race_table_inj in Ht. naive_solver.
Qed.

Lemma tables_ok_mark_closed (b : BotId) (w : World) :
  (forall r rt sid d, racing_on w r rt sid b d -> rt = RQr) -> tables_ok w -> tables_ok (mark_closed b w).
Proof.
  intros Hq (H1 & H2 & H3). unfold mark_closed, tables_ok, racing_on. simpl. split; [|split].
  - intros b' Hb'. apply H1. by apply lookup_alter_is_Some in Hb'.
  - intros r rt sid b' d Hr. destruct (H2 _ _ _ _ _ Hr) as (c & Hb' & Hc).
    destruct (decide (b = b')) as [<-|Hne].
    + rewrite lookup_alter_eq, Hb'. eexists; split; [done|]. intros ->. by specialize (Hq _ _ _ _ Hr).
    + rewrite lookup_alter_ne by done. eauto.
  - intros b' bot Hb'. destruct (decide (b = b')) as [<-|Hne].
    + rewrite lookup_alter in Hb'. rewrite decide_True in Hb' by done.
      destruct (w_bots w !! b) as [bot0|] eqn:E; [|done]. simpl in Hb'. injection Hb' as <-.
      apply (H3 _ _ E).
    + rewrite lookup_alter_ne in Hb' by done. apply (H3 _ _ Hb').
Qed.

(** The socket created when the version is loaded is fresh, and its request
    races on it. *)
Lemma tables_ok_version (w w' : World) (r : ReqId) :
  tables_ok w -> version_loaded r w = Some w' -> tables_ok w'.
Proof.
  intros (H1 & H2 & H3) Hv. rewrite version_loaded_unfold in Hv.
  destruct (w_reqs w !! r) as [[rt []]|] eqn:Er; try done. injection Hv as <-.
  set (b := w_next_bot w).
  assert (Hbots : forall b', w_bots (set_phase r (PhRacing sid b (w_now w + route_timeout rt))
            (bot_update b (on ConnectionUpdate (race_listener rt r sid b))
               (createWhatsAppSession sid w).1)) !! b' =
          if decide (b = b') then Some (mkBot sid (race_table sid r b rt) false) else w_bots w !! b').
  { intros b'. unfold set_phase, bot_update. simpl. destruct (decide (b = b')) as [<-|Hne].
    - by rewrite lookup_alter_eq, lookup_insert_eq.
    - by rewrite lookup_alter_ne, lookup_insert_ne. }
  assert (Hfresh : w_bots w !! b = None).
  { destruct (w_bots w !! b) eqn:E; [|done]. specialize (H1 b (mk_is_Some _ _ E)). subst b. lia. }
  assert (Hrace : forall r' rt' sid' b' d',
            racing_on (set_phase r (PhRacing sid b (w_now w + route_timeout rt))
              (bot_update b (on ConnectionUpdate (race_listener rt r sid b)) (createWhatsAppSession sid w).1))
              r' rt' sid' b' d' <->
            (r' = r /\ rt' = rt /\ sid' = sid /\ b' = b /\ d' = (w_now w + route_timeout rt)%Z) \/
            (r' <> r /\ racing_on w r' rt' sid' b' d')).
  { intros r' rt' sid' b' d'. unfold racing_on, set_phase. simpl. destruct (decide (r = r')) as [<-|Hne].
    - rewrite lookup_alter_eq, Er. simpl. split; [intros Hx; injection Hx as; naive_solver|].
      intros [(_ & -> & -> & -> & ->)|[? _]]; [done|congruence].
    - rewrite lookup_alter_ne by done. naive_solver. }
  split; [|split].
  - intros b' Hb'. rewrite Hbots in Hb'. simpl. case_decide as Hd; [lia|]. specialize (H1 b' Hb'). lia.
  - intros r' rt' sid' b' d' Hr'. apply Hrace in Hr' as [(-> & -> & -> & -> & _)|[Hne Hr']].
    + exists false. rewrite Hbots, decide_True; done.
    + destruct (H2 _ _ _ _ _ Hr') as (c & Hb' & Hc). exists c. rewrite Hbots.
      rewrite decide_False; [done|]. intros <-. by rewrite Hfresh in Hb'.
  - intros b' bot Hb'. rewrite Hbots in Hb'. destruct (decide (b = b')) as [<-|Hne].
    + injection Hb' as <-. right. exists r, rt, (w_now w + route_timeout rt)%Z. simpl.
      split; [done|]. apply Hrace. by left.
    + destruct (H3 _ _ Hb') as [?|(r' & rt' & d' & Ht & Hr')]; [by left|]. right.
      exists r', rt', d'. split; [done|]. apply Hrace. right. split; [|done].
      intros ->. unfold racing_on in Hr'. by rewrite Er in Hr'.
Qed.

Lemma tables_ok_close_settled (b : BotId) (bot : Bot) (w : World) :
  tables_ok w -> w_bots w !! b = Some bot -> bot_ev bot = settled_table (bot_sid bot) ->
  tables_ok (mark_closed b w).
Proof.
  intros H Hb Ht. apply tables_ok_mark_closed; [|done].
  intros r rt sid d Hr. by destruct (no_race_on_settled w b bot H Hb Ht r rt sid d).
Qed.

(** The end of the race of [r] on [b], possibly followed by the close of
    [b]; [f] is any update of the registry and the directories. *)
Lemma tables_ok_end_race_close (r : ReqId) (rt : Route) (sid : string) (b : BotId) (d : Z) (ph : Phase)
    (w w' : World) (closing : bool) :
  racing_on w r rt sid b d -> not_racing ph -> tables_ok w ->
  w_bots w' = w_bots (set_phase r ph (bot_update b (removeAllListeners ConnectionUpdate) w)) ->
  w_next_bot w' = w_next_bot w ->
  w_reqs w' = w_reqs (set_phase r ph (bot_update b (removeAllListeners ConnectionUpdate) w)) ->
  tables_ok (if closing then mark_closed b w' else w').
Proof.
  intros Hr Hph H Hb Hn Hq.
  pose proof (tables_ok_end_race r rt sid b d ph w Hr Hph H) as He.
  assert (He' : tables_ok w') by (eapply tables_ok_ext; [..|exact He]; done).
  destruct closing; [|done].
  destruct H as (_ & H2 & _). destruct (H2 _ _ _ _ _ Hr) as (c & Hbot & _).
  eapply tables_ok_close_settled; [exact He'| |].
  - rewrite Hb. unfold set_phase, bot_update. simpl. by rewrite lookup_alter_eq, Hbot.
  - simpl. apply removeAll_race_table.
Qed.

Lemma run_session_listener_frame (ev : Event) (sid : string) (w : World) :
  w_bots (run_listener ev (LSessionUpdate sid) w) = w_bots w /\
  w_next_bot (run_listener ev (LSessionUpdate sid) w) = w_next_bot w /\
  w_reqs (run_listener ev (LSessionUpdate sid) w) = w_reqs w.
Proof. destruct ev; simpl; try case_decide; done. Qed.

Lemma run_qr_race (u : Update) (r : ReqId) (sid : string) (b : BotId) (w : World) :
  run_listener (EConnectionUpdate u) (LQrRace r sid b) w =
  if js_truthy (upd_qr u)
  then settle r (PhRendering sid b (default EmptyString (upd_qr u)))
         (bot_update b (removeAllListeners ConnectionUpdate) w)
  else w.
Proof. simpl. by destruct (upd_qr u) as [[]|]. Qed.

(** The race listener of the request racing on socket [b] runs on an
    update, and the socket is marked closed if the update says [close]. *)
Lemma tables_ok_race_update (w1 : World) (r : ReqId) (rt : Route) (sid : string) (b : BotId) (d : Z) (u : Update) :
  tables_ok w1 -> racing_on w1 r rt sid b d ->
  tables_ok (if is_close (EConnectionUpdate u)
             then mark_closed b (run_listener (EConnectionUpdate u) (race_listener rt r sid b) w1)
             else run_listener (EConnectionUpdate u) (race_listener rt r sid b) w1).
Proof.
  intros H1w Hr1.
    destruct rt; simpl race_listener.
    + cbn [run_listener]. unfold pair_race_update, is_close.
      destruct (upd_connection u) as [[]|] eqn:Eu.
      * rewrite bool_decide_false by congruence. done.
      * rewrite bool_decide_false by congruence. unfold settle.
        rewrite (is_racing_phase r _ sid b d) by (unfold phase_of; simpl; by rewrite Hr1).
        by apply (tables_ok_end_race_close r RPair sid b d (PhPairing sid b) w1 _ false).
      * rewrite bool_decide_true by done. cbv zeta.
        rewrite (is_racing_phase r _ sid b d) by (unfold phase_of; simpl; by rewrite Hr1).
        rewrite fail_request_unfold. cbn [w_reqs sessions_delete with_sessions bot_update with_bots].
        rewrite Hr1.
        apply (tables_ok_end_race_close r RPair sid b d PhDone w1 _ true); done.
      * rewrite bool_decide_false by congruence. done.
    + rewrite run_qr_race. destruct (js_truthy (upd_qr u)).
      * unfold settle.
        rewrite (is_racing_phase r _ sid b d) by (unfold phase_of; simpl; by rewrite Hr1).
        by apply (tables_ok_end_race_close r RQr sid b d
                    (PhRendering sid b (default EmptyString (upd_qr u))) w1).
      * destruct (is_close _); [|done]. apply tables_ok_mark_closed; [|done].
        intros r' rt' sid' d' Hr'. by destruct (racing_unique w1 r r' RQr rt' _ _ b d d' H1w Hr1 Hr') as [_ ->].
Qed.

Lemma tables_ok_emit (w w' : World) (b : BotId) (ev : Event) :
  tables_ok w -> emit_event b ev w = Some w' -> tables_ok w'.
Proof.
  intros H He. unfold emit_event in He.
  destruct (w_bots w !! b) as [bot|] eqn:Eb; [|done].
  destruct (bot_closed bot) eqn:Ec; [done|]. injection He as <-.
  pose proof H as (H1 & H2 & H3).
  destruct (H3 b bot Eb) as [Hset|(r & rt & d & Ht & Hr)].
  - rewrite Hset. destruct ev as [|u|]; simpl.
    + eapply tables_ok_ext; [..|exact H]; done.
    + case_bool_decide; [|done]. by eapply tables_ok_close_settled.
    + done.
  - rewrite Ht. destruct ev as [|u|]; [eapply tables_ok_ext; [..|exact H]; done| |done].
    cbn [event_name]. rewrite listeners_race_table, !dispatch_cons, dispatch_nil.
    set (w1 := run_listener (EConnectionUpdate u) (LSessionUpdate (bot_sid bot)) w).
    destruct (run_session_listener_frame (EConnectionUpdate u) (bot_sid bot) w) as (Hb1 & Hn1 & Hq1).
    fold w1 in Hb1, Hn1, Hq1.
    assert (H1w : tables_ok w1) by (eapply tables_ok_ext; [..|exact H]; done).
    assert (Hr1 : racing_on w1 r rt (bot_sid bot) b d) by (unfold racing_on; by rewrite Hq1).
    clearbody w1. clear H Hb1 Hq1 Hn1.
    by apply (tables_ok_race_update w1 r rt (bot_sid bot) b d u).
Qed.

Lemma not_racing_phase_of (r : ReqId) (w : World) (ph : Phase) :
  phase_of r w = Some ph -> not_racing ph ->
  forall q, w_reqs w !! r = Some q -> not_racing (req_phase q).
Proof. unfold phase_of. intros Hp Hn q Hq. rewrite Hq in Hp. by injection Hp as ->. Qed.

Lemma tables_ok_step (w : World) (i : Input) (w' : World) :
  tables_ok w -> step w i = Some w' -> tables_ok w'.
Proof.
  intros H Hs. destruct i as [r rt q|r res|r|b ev|dt|r|r res|r res]; simpl in Hs.
  - case_decide as Hr; [|done]. injection Hs as <-. unfold request_arrives.
    destruct (route_handler rt q (w_sessions w)).
    + eapply tables_ok_ext; [..|apply (tables_ok_add_request r rt PhDone w Hr I H)]; done.
    + eapply tables_ok_ext; [..|apply (tables_ok_add_request r rt PhHung w Hr I H)]; done.
    + by apply tables_ok_add_request.
  - unfold auth_state_loaded in Hs. destruct (phase_of r w) as [[]|] eqn:E; try done.
    injection Hs as <-. pose proof (not_racing_phase_of r w _ E I) as Hn. destruct res.
    + by apply tables_ok_fail_request.
    + apply tables_ok_set_phase; [done|exact Hn|]. eapply tables_ok_ext; [..|exact H]; done.
  - by eapply tables_ok_version.
  - by eapply tables_ok_emit.
  - case_bool_decide; [|done]. injection Hs as <-. eapply tables_ok_ext; [..|exact H]; done.
  - rewrite timer_fires_unfold in Hs. destruct (w_reqs w !! r) as [[rt []]|] eqn:E; try done.
    destruct (timer_due _ _); [|done]. injection Hs as <-.
    rewrite fail_request_unfold. cbn [w_reqs sessions_delete with_sessions bot_update with_bots]. rewrite E.
    apply (tables_ok_end_race_close r rt sid b deadline PhDone w _ false); done.
  - unfold pairing_code_reply in Hs. destruct (phase_of r w) as [[]|] eqn:E; try done.
    injection Hs as <-. pose proof (not_racing_phase_of r w _ E I) as Hn.
    destruct res; repeat first [apply tables_ok_respond | apply tables_ok_fail_request | apply tables_ok_send
                               | exact Hn | exact H].
  - unfold qr_rendered in Hs. destruct (phase_of r w) as [[]|] eqn:E; try done.
    injection Hs as <-. pose proof (not_racing_phase_of r w _ E I) as Hn.
    destruct res; [by apply tables_ok_respond | by apply tables_ok_unhandled].
Qed.

Lemma tables_ok_reachable (w : World) : reachable w -> tables_ok w.
Proof.
  induction 1 as [|w i w' Hw IH Hs].
  - split; [|split]; intros *; unfold racing_on; simpl; rewrite ?lookup_empty; try done.
  - by eapply tables_ok_step.
Qed.

(** ** The protocol every request follows *)

(** The moves of one request between the suspension points of its
    handler (spec section 4.2: pending, then open or qr-issued, then an
    outcome).  [PhDone] and [PhHung] have no successor. *)
Inductive phase_edge : Phase -> Phase -> Prop :=
  | edge_auth_ok sid : phase_edge (PhLoadingAuth sid) (PhLoadingVersion sid)
  | edge_auth_fail sid : phase_edge (PhLoadingAuth sid) PhDone
  | edge_version sid b d : phase_edge (PhLoadingVersion sid) (PhRacing sid b d)
  | edge_open sid b d : phase_edge (PhRacing sid b d) (PhPairing sid b)
  | edge_qr sid b d qr : phase_edge (PhRacing sid b d) (PhRendering sid b qr)
  | edge_reject sid b d : phase_edge (PhRacing sid b d) PhDone
  | edge_code sid b : phase_edge (PhPairing sid b) PhDone
  | edge_rendered sid b qr : phase_edge (PhRendering sid b qr) PhDone
  | edge_render_fail sid b qr : phase_edge (PhRendering sid b qr) PhHung.

(** Where a request starts: suspended on its credentials, or finished by
    the synchronous part of its handler. *)
Definition initial_phase (ph : Phase) : Prop :=
  (exists sid, ph = PhLoadingAuth sid) \/ ph = PhDone \/ ph = PhHung.

(** [advances] and [follows] of [Protocol] for the requests of index.js. *)
Abbreviation advances := (Protocol.advances phase_of phase_edge).
Abbreviation follows := (Protocol.follows phase_of phase_edge initial_phase).

Lemma advances_frame (w w' : World) : w_reqs w' = w_reqs w -> advances w w'.
Proof. intros E. apply advances_same. intros r. by apply phase_of_frame. Qed.

Ltac advances_frame := apply advances_frame; reflexivity.

(** A request takes one edge of the protocol. *)
Lemma advances_set_phase (r : ReqId) (ph : Phase) (w : World) :
  (forall p, phase_of r w = Some p -> phase_edge p ph) -> advances w (set_phase r ph w).
Proof.
  intros He. split; intros r'; rewrite phase_of_set_phase; case_decide; subst; try done.
  - intros p Hp. exists ph. rewrite Hp. split; [done|]. apply rtc_once, He, Hp.
  - intros p Hp. exists p. split; [done | apply rtc_refl].
  - intros ->. done.
Qed.

Lemma advances_respond (r : ReqId) (st : Z) (body : Body) (w : World) :
  (forall p, phase_of r w = Some p -> phase_edge p PhDone) -> advances w (respond r st body w).
Proof.
  intros He. apply (advances_trans _ (set_phase r PhDone w)); [by apply advances_set_phase|advances_frame].
Qed.

Lemma advances_fail_request (r : ReqId) (sid msg : string) (w : World) :
  (forall p, phase_of r w = Some p -> phase_edge p PhDone) -> advances w (fail_request r sid msg w).
Proof.
  intros He. rewrite fail_request_unfold. destruct (w_reqs w !! r); [|advances_frame].
  apply (advances_trans _ (sessions_delete sid w)); [advances_frame|].
  apply advances_respond. intros p Hp. apply He. by rewrite <- (phase_of_frame r w (sessions_delete sid w)).
Qed.

(** The same after an update that leaves the requests alone. *)
Lemma advances_respond_frame (r : ReqId) (st : Z) (body : Body) (w w0 : World) :
  w_reqs w0 = w_reqs w -> (forall p, phase_of r w = Some p -> phase_edge p PhDone) ->
  advances w (respond r st body w0).
Proof.
  intros E He. apply (advances_trans _ w0); [by apply advances_frame|].
  apply advances_respond. intros p. rewrite (phase_of_frame r w w0 E). apply He.
Qed.

Lemma advances_fail_request_frame (r : ReqId) (sid msg : string) (w w0 : World) :
  w_reqs w0 = w_reqs w -> (forall p, phase_of r w = Some p -> phase_edge p PhDone) ->
  advances w (fail_request r sid msg w0).
Proof.
  intros E He. apply (advances_trans _ w0); [by apply advances_frame|].
  apply advances_fail_request. intros p. rewrite (phase_of_frame r w w0 E). apply He.
Qed.

(** Settling the race of a request racing on [sid] and [b]. *)
Lemma advances_settle (r : ReqId) (ph : Phase) (sid : string) (b : BotId) (w : World) :
  (forall p, phase_of r w = Some p -> is_racing r w = true -> exists d, p = PhRacing sid b d) ->
  (forall d, phase_edge (PhRacing sid b d) ph) -> advances w (settle r ph w).
Proof.
  intros Hr He. unfold settle. destruct (is_racing r w) eqn:E; [|advances_frame].
  apply advances_set_phase. intros p Hp. destruct (Hr p Hp eq_refl) as [d ->]. apply He.
Qed.

Lemma racing_edge_done (r : ReqId) (w : World) :
  is_racing r w = true -> forall p, phase_of r w = Some p -> phase_edge p PhDone.
Proof. unfold is_racing. intros Hr p Hp. rewrite Hp in Hr. destruct p; try done. constructor. Qed.

(** A listener other than a race listener leaves the requests alone. *)
Lemma advances_run_other (ev : Event) (l : Listener) (w : World) :
  (forall r sid b, l <> LPairRace r sid b /\ l <> LQrRace r sid b) -> advances w (run_listener ev l w).
Proof.
  intros Hl. destruct l as [| | |r sid b|r sid b]; try (by destruct (Hl r sid b)).
  all: destruct ev; simpl; try case_decide; advances_frame.
Qed.

(** The race listener of a request racing on [sid] and [b]. *)
Lemma advances_run_race (ev : Event) (rt : Route) (r : ReqId) (sid : string) (b : BotId) (d : Z) (w : World) :
  phase_of r w = Some (PhRacing sid b d) -> advances w (run_listener ev (race_listener rt r sid b) w).
Proof.
  intros Hp. assert (Hr : forall w0, w_reqs w0 = w_reqs w ->
                         forall p, phase_of r w0 = Some p -> is_racing r w0 = true -> exists d, p = PhRacing sid b d).
  { intros w0 E p Hp0 _. rewrite (phase_of_frame r w w0 E), Hp in Hp0. injection Hp0 as <-. by exists d. }
  destruct rt, ev as [|u|]; simpl; try advances_frame.
  - destruct (upd_connection u) as [[]|]; try advances_frame.
    + match goal with |- advances _ (settle _ _ ?w0) => apply (advances_trans _ w0); [advances_frame|] end.
      apply (advances_settle _ _ sid b); [by apply Hr | constructor].
    + set (w1 := sessions_delete sid _). apply (advances_trans _ w1); [advances_frame|].
      destruct (is_racing r w1) eqn:E; [|advances_frame].
      by apply advances_fail_request, racing_edge_done.
  - repeat case_match; try advances_frame.
    all: match goal with |- advances _ (settle _ _ ?w0) => apply (advances_trans _ w0); [advances_frame|] end.
    all: apply (advances_settle _ _ sid b); [by apply Hr | constructor].
Qed.

Lemma settled_table_eq (sid : string) :
  settled_table sid = [(CredsUpdate, LSaveCreds (session_path sid)); (MessagesUpsert, LMessagesUpsert)].
Proof. reflexivity. Qed.

Lemma listeners_session_creds (sid : string) :
  listeners CredsUpdate (session_table sid) = [LSaveCreds (session_path sid)].
Proof. reflexivity. Qed.

Lemma listeners_session_messages (sid : string) :
  listeners MessagesUpsert (session_table sid) = [LMessagesUpsert].
Proof. reflexivity. Qed.

(** An emission on a socket of a world whose tables are consistent. *)
Lemma advances_emit (w : World) (b : BotId) (ev : Event) (w' : World) :
  tables_ok w -> emit_event b ev w = Some w' -> advances w w'.
Proof.
  intros (_ & _ & H3) Hs. unfold emit_event in Hs. destruct (w_bots w !! b) as [bot|] eqn:Eb; [|done].
  destruct (bot_closed bot); [done|]. injection Hs as <-.
  assert (Hd : advances w (dispatch (run_listener ev) (listeners (event_name ev) (bot_ev bot)) w)).
  { destruct (H3 b bot Eb) as [Ht | (r & rt & d & Ht & Hr)]; rewrite Ht.
    - apply (dispatch_preserves (advances w)); [|advances_frame].
      intros l w0 Hl H0. eapply advances_trans; [exact H0|]. apply advances_run_other.
      rewrite settled_table_eq, elem_of_listeners in Hl. intros. set_solver.
    - destruct ev as [|u|].
      + unfold race_table. cbn [event_name]. rewrite listeners_on_ne, listeners_session_creds by done.
        apply advances_run_other. intros. split; congruence.
      + cbn [event_name]. rewrite listeners_race_table, !dispatch_cons, dispatch_nil. apply (advances_trans _ (run_listener (EConnectionUpdate u) (LSessionUpdate (bot_sid bot)) w)).
        * apply advances_run_other. intros. split; congruence.
        * eapply advances_run_race. unfold phase_of. simpl. case_decide; simpl; by rewrite Hr.
      + unfold race_table. cbn [event_name]. rewrite listeners_on_ne, listeners_session_messages by done.
        apply advances_run_other. intros. split; congruence. }
  destruct (is_close ev); [|done]. eapply advances_trans; [exact Hd | advances_frame].
Qed.

Lemma advances_step (w : World) (i : Input) (w' : World) :
  tables_ok w -> step w i = Some w' -> (forall r rt q, i <> IRequest r rt q) -> advances w w'.
Proof.
  intros Ht Hs Hi. destruct i as [r rt q|r res|r|b ev|dt|r|r res|r res]; simpl in Hs.
  - by destruct (Hi r rt q).
  - unfold auth_state_loaded in Hs. destruct (phase_of r w) as [[]|] eqn:E; try done.
    injection Hs as <-. destruct res; [apply advances_fail_request; rewrite E; intros ? [= <-]; constructor|].
    apply (advances_trans _ (with_dirs ({[session_path sid]} ∪ w_dirs w) w)); [advances_frame|].
    apply advances_set_phase. unfold phase_of in *. simpl. rewrite E. intros ? [= <-]. constructor.
  - rewrite version_loaded_unfold in Hs. destruct (w_reqs w !! r) as [[rt []]|] eqn:E; try done.
    injection Hs as <-. eapply advances_trans; [|apply advances_set_phase]; [advances_frame|].
    unfold phase_of. simpl. rewrite E. intros ? [= <-]. constructor.
  - by apply (advances_emit w b ev).
  - case_bool_decide; [|done]. injection Hs as <-. advances_frame.
  - rewrite timer_fires_unfold in Hs. destruct (w_reqs w !! r) as [[rt []]|] eqn:E; try done.
    destruct (timer_due _ _); [|done]. injection Hs as <-.
    set (w1 := sessions_delete sid _). apply (advances_trans _ w1); [advances_frame|].
    apply advances_fail_request. unfold phase_of. simpl. rewrite E. intros ? [= <-]. constructor.
  - unfold pairing_code_reply in Hs. destruct (phase_of r w) as [[]|] eqn:E; try done.
    injection Hs as <-. assert (He : forall p, phase_of r w = Some p -> phase_edge p PhDone)
      by (rewrite E; intros ? [= <-]; constructor).
    destruct res; [apply advances_respond_frame | apply advances_fail_request_frame]; done.
  - unfold qr_rendered in Hs. destruct (phase_of r w) as [[]|] eqn:E; try done.
    injection Hs as <-. destruct res.
    + apply advances_respond. rewrite E. intros ? [= <-]. constructor.
    + unfold unhandled. eapply advances_trans; [apply advances_set_phase|advances_frame].
      rewrite E. intros ? [= <-]. constructor.
Qed.

(** The arrival of request [r]: the others keep their phase, [r] starts in
    an initial phase. *)
Lemma request_arrives_phases (w : World) (r : ReqId) (rt : Route) (q : Query) (r' : ReqId) :
  w_reqs w !! r = None ->
  phase_of r' (request_arrives r rt q w) = if decide (r = r') then
    Some match route_handler rt q (w_sessions w) with
         | ORespond _ _ => PhDone | OThrow => PhHung | OLoad sid => PhLoadingAuth sid end
  else phase_of r' w.
Proof.
  intros Hr. unfold request_arrives, phase_of.
  destruct (route_handler rt q (w_sessions w)); simpl;
    (case_decide; [subst; by rewrite lookup_insert_eq | by rewrite lookup_insert_ne]).
Qed.

(** A step moves every request along the protocol. *)
Lemma step_protocol (w : World) (i : Input) (w' : World) :
  reachable w -> step w i = Some w' ->
  (forall r ph, phase_of r w = Some ph -> exists ph', phase_of r w' = Some ph' /\ rtc phase_edge ph ph') /\
  (forall r ph', phase_of r w = None -> phase_of r w' = Some ph' -> initial_phase ph').
Proof.
  intros Hw Hs. destruct i as [r rt q|? ?|?|? ?|?|?|? ?|? ?].
  2-8: destruct (advances_step w _ w' (tables_ok_reachable w Hw) Hs ltac:(by intros ? ? ? [=])) as [Ha Hn];
       split; [done|]; intros r0 ph' Hr0 Hp; by rewrite Hn in Hp.
  simpl in Hs. case_decide as Hr; [|done]. injection Hs as <-. split.
  - intros r' ph Hp. exists ph. split; [|apply rtc_refl]. rewrite request_arrives_phases by done.
    rewrite decide_False; [done|]. intros <-. unfold phase_of in Hp. by rewrite Hr in Hp.
  - intros r' ph' Hn. rewrite request_arrives_phases by done. case_decide; [|congruence].
    intros [= <-]. unfold initial_phase. case_match; eauto.
Qed.

(** The same, as [follows], with the invariant carried along. *)
Lemma step_follows (w : World) (i : Input) (w' : World) :
  reachable w -> step w i = Some w' -> reachable w' /\ follows w w'.
Proof.
  intros Hw Hs. split; [by eapply reachable_step|].
  destruct (step_protocol w i w' Hw Hs) as [Ha Hn]. split; [done|].
  intros r ph' Hp Hp'. exists ph'. split; [by apply (Hn r) | apply rtc_refl].
Qed.



(** ** Finished requests stay finished *)

Definition final (ph : Phase) : Prop := ph = PhHung \/ ph = PhDone.

Lemma rtc_final (ph ph' : Phase) : rtc phase_edge ph ph' -> final ph -> ph' = ph.
Proof. intros Hr Hf. apply (rtc_no_successor (edge := phase_edge) ph ph'); [|done]. intros p Hp. destruct Hf as [-> | ->]; inversion Hp. Qed.

Lemma final_phase_stable (w : World) (i : Input) (w' : World) (r : ReqId) (ph : Phase) :
  reachable w -> phase_of r w = Some ph -> final ph -> step w i = Some w' -> phase_of r w' = Some ph.
Proof.
  intros Hw Hp Hf Hs. destruct (step_protocol w i w' Hw Hs) as [Ha _].
  destruct (Ha r ph Hp) as (ph' & Hp' & E). by rewrite Hp', (rtc_final ph ph' E Hf).
Qed.

Lemma reachable_run (w w' : World) (inputs : list Input) :
  reachable w -> run w inputs = Some w' -> reachable w'.
Proof.
  revert w; induction inputs as [|i inputs IH]; intros w Hw Hr; simpl in Hr.
  - by injection Hr as <-.
  - destruct (step w i) as [w1|] eqn:E; [|done]. simpl in Hr. apply (IH w1); [|done].
    by eapply reachable_step.
Qed.

End IndexInvariants.
