(* ===== verification/IndexProps.v ===== *)
(** * IndexProps: what [src/index.js] guarantees, and where it does not

    - Every request is answered at most once (C3), follows the protocol of
      its handler (C36) and is suspended a bounded number of times (C38),
      proved from the invariants of [IndexInvariants].
    - The behaviour of each handler on every branch: the success paths of
      [/pair] and [/qr], the 400 answers, the race of [connection.update]
      against the timer, the [catch] paths, the refinement of the registry
      contract.
    - The findings: an identifier whose socket reported success stays
      registered forever; a failing QR rendering leaves the request without
      answer; the [has]/[set] check-then-act window lets a second request
      replace a registered socket. *)

From S2P Require Import Prelude JsText Emitter Registry Answered Protocol IndexServer IndexInvariants.
From Stdlib Require Import ZArith.

Module IndexProps.
Import SessionId PairingCode Index IndexInvariants.

(** C3: every request is answered at most once: in every reachable state
    the responses sent for a request number one if its handler has finished
    and none otherwise. *)
Theorem answered_at_most_once (w : World) :
  reachable w -> forall r,
    length (responses_of r w) = if bool_decide (phase_of r w = Some PhDone) then 1 else 0.
Proof.
  intros Hw. apply answered_once_phase.
  induction Hw as [|w i w' Hw IH Hs]; [apply answered_once_in_empty|].
  destruct i as [| | | | | |r res|];
    try (eapply answered_once_step_other; [eassumption | eassumption | by intros ? ? [=]]).
  simpl in Hs. unfold pairing_code_reply in Hs. destruct (phase_of r w) as [[]|] eqn:E; try done.
  injection Hs as <-. destruct res.
  - apply answered_once_respond; [by rewrite E | by rewrite E | done].
  - apply answered_once_fail_request; [by rewrite E | by rewrite E | done].
Qed.

Lemma answered_once_step (w : World) (i : Input) (w' : World) :
  answered_once w -> step w i = Some w' -> answered_once w'.
Proof.
  intros H Hs. destruct i as [| | | | | |r res|];
    try (eapply answered_once_step_other; [eassumption | eassumption | by intros ? ? [=]]).
  simpl in Hs. unfold pairing_code_reply in Hs. destruct (phase_of r w) as [[]|] eqn:E; try done.
  injection Hs as <-. destruct res.
  - apply answered_once_respond; [by rewrite E | by rewrite E | done].
  - apply answered_once_fail_request; [by rewrite E | by rewrite E | done].
Qed.

Lemma answered_once_reachable (w : World) : reachable w -> answered_once w.
Proof. induction 1 as [|w i w' Hw IH Hs]; [apply answered_once_in_empty | by eapply answered_once_step]. Qed.


(** ** The race of [/pair] *)

(** C4: a racing [/pair] request whose socket emits [connection: 'open']
    proceeds to request the pairing code: its timer is cleared, the
    registry is untouched and no answer is sent yet. *)
Theorem pair_race_open (w : World) (r : ReqId) (sid : string) (b : BotId) (d : Z) :
  reachable w -> w_reqs w !! r = Some (mkReq RPair (PhRacing sid b d)) ->
  exists w', step w (IEmit b open_update) = Some w' /\
    phase_of r w' = Some (PhPairing sid b) /\ w_sessions w' = w_sessions w /\ w_out w' = w_out w.
Proof.
  intros Hw Hr. destruct (tables_ok_reachable w Hw) as (_ & H2 & _).
  destruct (H2 _ _ _ _ _ Hr) as (c & Hb & Hc). rewrite Hc in Hb by done.
  assert (Hp : phase_of r w = Some (PhRacing sid b d)) by (unfold phase_of; by rewrite Hr).
  assert (E : step w (IEmit b open_update) =
    Some (set_phase r (PhPairing sid b) (bot_update b (removeAllListeners ConnectionUpdate) w))).
  { unfold open_update. rewrite (step_emit_race _ _ _ _ _ _ Hb). f_equal. simpl.
    unfold settle. by rewrite (is_racing_phase r _ sid b d). }
  rewrite E.
  eexists; split; [reflexivity|]. split; [|done].
  rewrite phase_of_set_phase, decide_True by done. unfold phase_of. simpl. by rewrite Hr.
Qed.

Lemma step_emit_open_pair (w : World) (b : BotId) (sid : string) (r : ReqId) (d : Z) :
  w_bots w !! b = Some (mkBot sid (race_table sid r b RPair) false) ->
  phase_of r w = Some (PhRacing sid b d) ->
  step w (IEmit b open_update) =
  Some (set_phase r (PhPairing sid b) (bot_update b (removeAllListeners ConnectionUpdate) w)).
Proof.
  intros Hb Hp. unfold open_update. rewrite (step_emit_race _ _ _ _ _ _ Hb). f_equal. simpl.
  unfold settle. by rewrite (is_racing_phase r _ sid b d).
Qed.


(** ** The registry contract *)

Lemma step_request_registered (w : World) (r : ReqId) (rt : Route) (q : Query) (sid : string) (msg : string) :
  w_reqs w !! r = None -> is_Some (w_sessions w !! sid) ->
  route_handler rt q (w_sessions w) = ORespond 400 (BError msg) ->
  step w (IRequest r rt q) = Some (send r 400 (BError msg) (add_request r rt PhDone w)).
Proof. intros Hr _ Hh. simpl. rewrite decide_True by done. unfold request_arrives. by rewrite Hh. Qed.

(** C2: refinement of the registry contract of spec section 4.1 when the
    handler runs without interleaving: [create(id)] fails exactly when
    [/pair] answers 400 with the registry unchanged, and otherwise the
    registry after the handler has created its socket is the one [create]
    returns, with the new socket as the handle. *)
Theorem pair_refines_create (w : World) (r : ReqId) (phoneNumber : string) :
  w_reqs w !! r = None -> phoneNumber <> EmptyString ->
  match create (pair_session_id phoneNumber) (w_next_bot w) (w_sessions w) with
  | inl DuplicateSession =>
      exists w', step w (IRequest r RPair (QString phoneNumber)) = Some w' /\
        w_sessions w' = w_sessions w /\
        w_out w' = w_out w ++ [(r, mkResponse 400 (BError duplicate_pair_message))]
  | inr reg' =>
      exists w', run w [IRequest r RPair (QString phoneNumber); IAuthState r None; IVersion r] = Some w' /\
        w_sessions w' = reg'
  end.
Proof.
  intros Hr Hne. destruct (w_sessions w !! pair_session_id phoneNumber) as [b0|] eqn:Hs.
  - rewrite create_duplicate by (rewrite reg_get_js, Hs; eauto).
    rewrite (step_request_registered _ _ _ _ (pair_session_id phoneNumber) duplicate_pair_message);
      try (done || by rewrite Hs).
    + by eexists.
    + cbn [route_handler]. unfold pair_handler. rewrite reg_has_js, bool_decide_true by (rewrite Hs; eauto).
      by destruct phoneNumber.
  - rewrite create_fresh by (by rewrite reg_get_js). set (sid := pair_session_id phoneNumber).
    cbn [run]. rewrite step_pair_request by done. cbn [mbind option_bind].
    rewrite (step_auth_ok _ r sid).
    2:{ unfold phase_of, add_request. simpl. by rewrite lookup_insert_eq. }
    cbn [mbind option_bind].
    match goal with |- context [step ?w2 (IVersion r)] =>
      destruct (step_version w2 r RPair sid) as (w3 & -> & _ & Hs3 & _);
      [unfold set_phase, add_request; simpl; by rewrite lookup_alter_eq, lookup_insert_eq|] end.
    eexists; split; [reflexivity|]. rewrite Hs3. done.
Qed.

(** ** The success paths *)

(** C1: the [/pair] handler on its success path: a request for a number
    whose identifier is not registered loads the credentials, creates and
    registers a socket, waits for [connection: 'open'], requests the code
    and answers 200 with the code in groups of four.  The identifier stays
    registered, the credential directory exists, and the race has removed
    every [connection.update] listener of the socket. *)
Theorem pair_success_path (w : World) (r : ReqId) (phoneNumber pairingCode : string) :
  w_reqs w !! r = None -> phoneNumber <> EmptyString ->
  w_sessions w !! pair_session_id phoneNumber = None ->
  exists w', run w [IRequest r RPair (QString phoneNumber); IAuthState r None; IVersion r;
                    IEmit (w_next_bot w) open_update; IPairingCode r (inl pairingCode)] = Some w' /\
    w_out w' = w_out w ++ [(r, mkResponse 200 (BCode (formatPairingCode pairingCode)))] /\
    w_sessions w' !! pair_session_id phoneNumber = Some (w_next_bot w) /\
    session_path (pair_session_id phoneNumber) ∈ w_dirs w' /\
    exists bot, w_bots w' !! w_next_bot w = Some bot /\ listeners ConnectionUpdate (bot_ev bot) = [].
Proof.
  intros Hr Hne Hs. set (sid := pair_session_id phoneNumber). set (b := w_next_bot w).
  cbn [run]. rewrite step_pair_request by done. cbn [mbind option_bind].
  rewrite (step_auth_ok _ r sid).
  2:{ unfold phase_of, add_request. simpl. by rewrite lookup_insert_eq. }
  cbn [mbind option_bind].
  match goal with |- context [step ?w2 (IVersion r)] =>
    destruct (step_version w2 r RPair sid) as (w3 & -> & Hb3 & Hs3 & Hr3 & Ho3 & Hd3 & _);
    [|change (w_next_bot w2) with b in Hb3, Hs3, Hr3;
      change (w_sessions w2) with (w_sessions w) in Hs3;
      change (w_out w2) with (w_out w) in Ho3;
      change (w_now w2) with (w_now w) in Hr3] end.
  { unfold set_phase, add_request. simpl. by rewrite lookup_alter_eq, lookup_insert_eq. }
  cbn [mbind option_bind].
  rewrite (step_emit_open_pair w3 b sid r (w_now w + route_timeout RPair)); [|done|].
  2:{ unfold phase_of. by rewrite Hr3. }
  cbn [mbind option_bind].
  match goal with |- context [step ?w4 (IPairingCode r ?res)] =>
    change (step w4 (IPairingCode r res)) with (pairing_code_reply r res w4);
    assert (Hp4 : phase_of r w4 = Some (PhPairing sid b)) end.
  { rewrite phase_of_set_phase, decide_True by done. unfold phase_of. simpl. by rewrite Hr3. }
  unfold pairing_code_reply. rewrite Hp4.
  eexists; split; [reflexivity|]. cbn. rewrite Ho3. split; [done|].
  rewrite Hs3, lookup_insert_eq. split; [done|]. split.
  - rewrite Hd3. simpl. set_solver.
  - unfold bot_update, set_phase. simpl. rewrite lookup_alter_eq, Hb3. eexists; split; [done|].
    apply listeners_removeAll_eq.
Qed.

(** C35: the [/qr] handler of [index.js] on its success path: with the QR
    identifier free, the request loads the credentials, registers a
    socket, takes the first non-empty [qr], renders it and answers 200
    with the image and the three instructions.  The identifier stays
    registered while the race has removed every [connection.update]
    listener of the socket, the one of [createWhatsAppSession] included. *)
Theorem qr_success_path (w : World) (r : ReqId) (q : Query) (qr qrUrl : string) :
  w_reqs w !! r = None -> w_sessions w !! qr_session_id = None -> qr <> EmptyString ->
  exists w', run w [IRequest r RQr q; IAuthState r None; IVersion r;
                    IEmit (w_next_bot w) (qr_event qr); IRendered r (inl qrUrl)] = Some w' /\
    w_out w' = w_out w ++ [(r, mkResponse 200 (BQr qrUrl qr_instructions))] /\
    w_sessions w' !! qr_session_id = Some (w_next_bot w) /\
    exists bot, w_bots w' !! w_next_bot w = Some bot /\ listeners ConnectionUpdate (bot_ev bot) = [].
Proof.
  intros Hr Hs Hq. set (b := w_next_bot w).
  cbn [run]. rewrite step_qr_request by done. cbn [mbind option_bind].
  rewrite (step_auth_ok _ r qr_session_id).
  2:{ unfold phase_of, add_request. simpl. by rewrite lookup_insert_eq. }
  cbn [mbind option_bind].
  match goal with |- context [step ?w2 (IVersion r)] =>
    destruct (step_version w2 r RQr qr_session_id) as (w3 & -> & Hb3 & Hs3 & Hr3 & Ho3 & _ & _);
    [|change (w_next_bot w2) with b in Hb3, Hs3, Hr3;
      change (w_sessions w2) with (w_sessions w) in Hs3;
      change (w_out w2) with (w_out w) in Ho3;
      change (w_now w2) with (w_now w) in Hr3] end.
  { unfold set_phase, add_request. simpl. by rewrite lookup_alter_eq, lookup_insert_eq. }
  cbn [mbind option_bind].
  rewrite (step_emit_qr w3 b qr_session_id r (w_now w + route_timeout RQr)); [|done| |done].
  2:{ unfold phase_of. by rewrite Hr3. }
  cbn [mbind option_bind]. rewrite (step_rendered_ok _ r qr_session_id b qr).
  2:{ rewrite phase_of_set_phase, decide_True by done. unfold phase_of. simpl. by rewrite Hr3. }
  eexists; split; [reflexivity|]. cbn. rewrite Ho3. split; [done|].
  rewrite Hs3, lookup_insert_eq. split; [done|].
  unfold bot_update, set_phase. simpl. rewrite lookup_alter_eq, Hb3. eexists; split; [done|].
  apply listeners_removeAll_eq.
Qed.

Lemma qr_success_path_witness :
  exists w', run init_world [IRequest 0 RQr QMissing; IAuthState 0 None; IVersion 0;
                             IEmit (w_next_bot init_world) (qr_event "2@AbCdEf");
                             IRendered 0 (inl "data:image/png;base64,iVBORw0KGgo")] = Some w' /\
    w_out w' = w_out init_world ++ [(0, mkResponse 200 (BQr "data:image/png;base64,iVBORw0KGgo" qr_instructions))] /\
    w_sessions w' !! qr_session_id = Some (w_next_bot init_world) /\
    exists bot, w_bots w' !! w_next_bot init_world = Some bot /\ listeners ConnectionUpdate (bot_ev bot) = [].
Proof. apply qr_success_path; [reflexivity | reflexivity | discriminate]. Defined.


Definition close_update (e : option ErrInfo) : Event :=
  EConnectionUpdate (mkUpdate (Some Close) e None).

(** C5: a racing [/pair] request whose socket emits [connection: 'close']
    is rejected: the identifier leaves the registry, the socket is left
    without [connection.update] listeners, and the answer is a 500 carrying
    the [Boom] message of [lastDisconnect.error] (or the default message
    when it is empty). *)
Theorem pair_race_close (w : World) (r : ReqId) (sid : string) (b : BotId) (d : Z) (e : option ErrInfo) :
  reachable w -> w_reqs w !! r = Some (mkReq RPair (PhRacing sid b d)) ->
  exists w', step w (IEmit b (close_update e)) = Some w' /\
    w_out w' = w_out w ++ [(r, mkResponse 500 (BError (Some (boom_message e) ?|| pair_default_message)))] /\
    w_sessions w' !! sid = None /\ phase_of r w' = Some PhDone /\
    exists bot, w_bots w' !! b = Some bot /\ bot_closed bot = true /\
                listeners ConnectionUpdate (bot_ev bot) = [].
Proof.
  intros Hw Hr. destruct (tables_ok_reachable w Hw) as (_ & H2 & _).
  destruct (H2 _ _ _ _ _ Hr) as (c & Hb & Hc). rewrite Hc in Hb by done.
  unfold close_update. rewrite (step_emit_race _ _ _ _ _ _ Hb). eexists; split; [reflexivity|].
  cbn [run_listener save_creds session_update pair_race_update qr_race_update race_listener upd_connection is_close].
  rewrite decide_True, bool_decide_true by done.
  rewrite (is_racing_phase r _ sid b d) by (unfold phase_of; simpl; by rewrite Hr).
  rewrite fail_request_unfold. cbn [w_reqs sessions_delete with_sessions bot_update with_bots mark_closed].
  rewrite Hr. cbn. split; [done|]. split; [by rewrite !lookup_delete_eq|]. split.
  - unfold phase_of. simpl. by rewrite lookup_alter_eq, Hr.
  - rewrite lookup_alter_eq, lookup_alter_eq, Hb. eexists; split; [done|]. split; [done|].
    apply listeners_removeAll_eq.
Qed.

Lemma step_tick (w : World) (dt : Z) :
  (0 < dt)%Z -> step w (ITick dt) = Some (with_now (w_now w + dt) w).
Proof. intros Hdt. simpl. by rewrite bool_decide_true. Qed.

Lemma step_fire (w : World) (r : ReqId) (rt : Route) (sid : string) (b : BotId) (d : Z) :
  w_reqs w !! r = Some (mkReq rt (PhRacing sid b d)) -> timer_due d w = true ->
  step w (IFire r) =
  Some (respond r 500 (BError (route_timeout_message rt))
          (sessions_delete sid (sessions_delete sid (bot_update b (removeAllListeners ConnectionUpdate) w)))).
Proof.
  intros Hr Hd. simpl. rewrite timer_fires_unfold, Hr, Hd. f_equal.
  rewrite fail_request_unfold. cbn [w_reqs sessions_delete with_sessions bot_update with_bots]. rewrite Hr.
  by destruct rt.
Qed.

(** C6: a race that reaches its deadline is rejected with the timeout
    message of its route; the identifier leaves the registry and the socket
    loses its [connection.update] listeners (the socket itself is not
    ended). *)
Theorem race_timeout (w : World) (r : ReqId) (rt : Route) (sid : string) (b : BotId) (d : Z) :
  reachable w -> w_reqs w !! r = Some (mkReq rt (PhRacing sid b d)) -> (d <= w_now w)%Z ->
  exists w', step w (IFire r) = Some w' /\
    w_out w' = w_out w ++ [(r, mkResponse 500 (BError (route_timeout_message rt)))] /\
    w_sessions w' !! sid = None /\
    exists bot, w_bots w' !! b = Some bot /\ listeners ConnectionUpdate (bot_ev bot) = [].
Proof.
  intros Hw Hr Hd. destruct (tables_ok_reachable w Hw) as (_ & H2 & _).
  destruct (H2 _ _ _ _ _ Hr) as (c & Hb & _).
  rewrite (step_fire w r rt sid b d Hr) by (unfold timer_due; apply bool_decide_true; lia).
  eexists; split; [reflexivity|]. cbn.
  split; [done|]. split; [by rewrite !lookup_delete_eq|].
  rewrite lookup_alter_eq, Hb. eexists; split; [done|]. apply listeners_removeAll_eq.
Qed.

(** C7: the race timers of index.js wait 30 s for [/pair] (index.js:111)
    and 60 s for [/qr] (index.js:159): once [fetchLatestBaileysVersion] has
    resolved and the handler has armed its timer, the timer callback can
    run after the clock has advanced by [dt] exactly when [dt] reaches the
    timeout of the route. *)
Theorem race_timer_delay (w : World) (r : ReqId) (rt : Route) (sid : string) (dt : Z) :
  w_reqs w !! r = Some (mkReq rt (PhLoadingVersion sid)) -> (0 < dt)%Z ->
  exists w1, step w (IVersion r) = Some w1 /\
    (is_Some (run w1 [ITick dt; IFire r]) <->
     (match rt with RPair => 30000 | RQr => 60000 end <= dt)%Z).
Proof.
  intros Hr Hdt. destruct (step_version w r rt sid Hr) as (w1 & -> & _ & _ & Hr1 & _ & _ & Hn1 & _).
  eexists; split; [reflexivity|]. cbn [run]. rewrite step_tick by done. cbn [mbind option_bind step].
  rewrite timer_fires_unfold. cbn [w_reqs w_now with_now]. rewrite Hr1, Hn1. unfold timer_due. cbn [w_now with_now].
  case_bool_decide as Hd; destruct rt; unfold route_timeout, pair_timeout_ms, qr_timeout_ms in Hd; cbn.
  all: split; intros H; try (by eexists); try (destruct H as [? H]; discriminate); lia.
Qed.

(** A request whose race timer is armed can be answered: the clock
    reaches the deadline and the timer fires. *)
Lemma racing_can_finish (w : World) (r : ReqId) (rt : Route) (sid : string) (b : BotId) (d : Z) :
  w_reqs w !! r = Some (mkReq rt (PhRacing sid b d)) ->
  exists w', run w [ITick (Z.max 1 (d - w_now w)); IFire r] = Some w' /\ phase_of r w' = Some PhDone.
Proof.
  intros Hr. cbn [run]. rewrite step_tick by lia. cbn [mbind option_bind].
  rewrite (step_fire _ r rt sid b d) by (done || (unfold timer_due; apply bool_decide_true; simpl; lia)).
  eexists; split; [reflexivity|]. apply phase_of_respond. unfold phase_of. simpl. by rewrite Hr.
Qed.

(** C8: liveness of the handlers: a request that has not hung is never
    stuck.  From every reachable state, some schedule of the environment
    (the promises the handler awaits settling, the clock advancing, the
    timer firing) brings it to its answer, and it is then answered exactly
    once.  Only the rejections nobody handles ([PhHung]) leave a request
    without answer. *)
Theorem request_can_finish (w : World) (r : ReqId) (ph : Phase) :
  reachable w -> phase_of r w = Some ph -> ph <> PhHung ->
  exists inputs w', run w inputs = Some w' /\
    phase_of r w' = Some PhDone /\ length (responses_of r w') = 1.
Proof.
  intros Hw Hp Hh.
  enough (exists inputs w', run w inputs = Some w' /\ phase_of r w' = Some PhDone) as (inputs & w' & Hrun & Hd).
  { exists inputs, w'. split_and!; [done | done |].
    rewrite (answered_once_phase w' (answered_once_reachable w' (reachable_run w w' inputs Hw Hrun)) r).
    by rewrite bool_decide_true. }
  assert (Hs : is_Some (phase_of r w)) by by eexists.
  unfold phase_of in Hp. destruct (w_reqs w !! r) as [[rt ph0]|] eqn:Hr; [|done]. injection Hp as <-.
  destruct ph0 as [sid|sid|sid b d|sid b|sid b qr| |]; try done.
  - exists [IAuthState r (Some (mkErr EmptyString None))]. eexists; split.
    + cbn [run step]. unfold auth_state_loaded. unfold phase_of. rewrite Hr. reflexivity.
    + by apply phase_of_fail_request.
  - destruct (step_version w r rt sid Hr) as (w1 & Hs1 & _ & _ & Hr1 & _).
    destruct (racing_can_finish w1 r rt _ _ _ Hr1) as (w' & Hrun & Hd).
    eexists (IVersion r :: _), w'. cbn [run]. rewrite Hs1. split; [exact Hrun | exact Hd].
  - destruct (racing_can_finish w r rt _ _ _ Hr) as (w' & Hrun & Hd). by eexists _, w'.
  - exists [IPairingCode r (inl EmptyString)]. eexists; split.
    + cbn [run step]. unfold pairing_code_reply. unfold phase_of. rewrite Hr. reflexivity.
    + by apply phase_of_respond.
  - exists [IRendered r (inl EmptyString)]. eexists; split.
    + cbn [run step]. unfold qr_rendered. unfold phase_of. rewrite Hr. reflexivity.
    + by apply phase_of_respond.
  - exists [], w. split; [done|]. unfold phase_of. by rewrite Hr.
Qed.

(** C36: along every schedule, every request follows the protocol of its
    handler: a request present at the start moves along [phase_edge]
    (pending, then open or QR issued, then answered or hung), never
    backwards and never out of a final phase; a request that arrives
    during the schedule starts in an initial phase and moves along it. *)
Theorem request_protocol (w w' : World) (inputs : list Input) :
  reachable w -> run w inputs = Some w' ->
  (forall r ph, phase_of r w = Some ph -> exists ph', phase_of r w' = Some ph' /\ rtc phase_edge ph ph') /\
  (forall r ph', phase_of r w = None -> phase_of r w' = Some ph' ->
     exists ph0, initial_phase ph0 /\ rtc phase_edge ph0 ph').
Proof.
  intros Hw Hr. change (follows w w'). revert w Hw Hr.
  induction inputs as [|i inputs IH]; intros w Hw Hr; simpl in Hr; [injection Hr as <-; apply follows_refl|].
  destruct (step w i) as [w1|] eqn:E; [|done].
  destruct (step_follows w i w1 Hw E) as [Hw1 Hf]. apply (follows_trans w w1 w'); [done | by apply IH].
Qed.

(** ** Every handler is suspended a bounded number of times *)

(** How many suspension points a request still has ahead of it. *)
Definition phase_rank (ph : Phase) : nat :=
  match ph with
  | PhLoadingAuth _ => 4
  | PhLoadingVersion _ => 3
  | PhRacing _ _ _ => 2
  | PhPairing _ _ | PhRendering _ _ _ => 1
  | PhHung | PhDone => 0
  end.

Lemma phase_edge_rank (p p' : Phase) : phase_edge p p' -> phase_rank p' < phase_rank p.
Proof. intros E. destruct E; simpl; lia. Qed.

Lemma initial_rank (p : Phase) : initial_phase p -> phase_rank p < 5.
Proof. intros [[sid ->]|[-> | ->]]; simpl; lia. Qed.

(** C38: termination of the handlers: along any schedule from a reachable
    state, the phase of a request changes at most [phase_rank] times (at
    most four times for a request in flight, at most five counting its
    arrival): no handler of index.js is suspended and resumed without end,
    whatever the sockets, timers and library calls do. *)
Theorem request_moves_bounded (w : World) (inputs : list Input) (r : ReqId) :
  reachable w ->
  phase_changes phase_of step r w inputs <=
    match phase_of r w with Some ph => phase_rank ph | None => 5 end.
Proof.
  apply (phase_changes_bounded phase_of step phase_edge initial_phase reachable phase_rank 5);
    [exact step_follows | exact phase_edge_rank | exact initial_rank].
Qed.

(** A request left hanging is never answered, whatever happens next. *)
Lemma hung_never_answered (w w' : World) (r : ReqId) (inputs : list Input) :
  reachable w -> phase_of r w = Some PhHung -> run w inputs = Some w' -> responses_of r w' = [].
Proof.
  intros Hw Hp Hr.
  assert (Hp' : phase_of r w' = Some PhHung).
  { revert w Hw Hp Hr; induction inputs as [|i inputs IH]; intros w Hw Hp Hr; simpl in Hr.
    - by injection Hr as <-.
    - destruct (step w i) as [w1|] eqn:E; [|done]. simpl in Hr.
      apply (IH w1); [by eapply reachable_step | | done].
      eapply final_phase_stable; [done | done | by left | done]. }
  pose proof (answered_once_phase w' (answered_once_reachable w' (reachable_run w w' inputs Hw Hr)) r) as Hn.
  rewrite Hp', bool_decide_false in Hn by congruence. by destruct (responses_of r w').
Qed.

(** C11: when [qrcode.toDataURL] fails inside the asynchronous QR listener,
    its rejection is unhandled and [qrPromise] never settles (the timer was
    already cleared): the request is never answered, whatever happens
    afterwards. *)
Theorem qr_render_failure_unanswered (w : World) (r : ReqId) (sid : string) (b : BotId) (qr : string)
    (e : ErrInfo) :
  reachable w -> phase_of r w = Some (PhRendering sid b qr) ->
  exists w', step w (IRendered r (inr e)) = Some w' /\ r ∈ w_unhandled w' /\
    forall inputs w'', run w' inputs = Some w'' -> responses_of r w'' = [].
Proof.
  intros Hw Hp. simpl. unfold qr_rendered. rewrite Hp. eexists; split; [reflexivity|]. split.
  - unfold unhandled, record_unhandled. simpl. set_solver.
  - intros inputs w'' Hr. eapply (hung_never_answered _ _ r inputs); [| |exact Hr].
    + apply (reachable_step w (IRendered r (inr e))); [exact Hw|]. simpl. unfold qr_rendered. by rewrite Hp.
    + unfold unhandled. rewrite (phase_of_frame r (set_phase r PhHung w)) by done.
      rewrite phase_of_set_phase, decide_True, Hp by done. done.
Qed.

(** ** Identifiers that can never be released *)

Definition phase_sid (ph : Phase) : option string :=
  match ph with
  | PhLoadingAuth sid | PhLoadingVersion sid | PhRacing sid _ _ | PhPairing sid _
  | PhRendering sid _ _ => Some sid
  | PhHung | PhDone => None
  end.

Definition listener_sid (l : Listener) : option string :=
  match l with
  | LSessionUpdate sid | LPairRace _ sid _ | LQrRace _ sid _ => Some sid
  | _ => None
  end.

(** [sid] is registered, no in-flight request works for it, and no open
    socket has a [connection.update] listener that could remove it. *)
Definition stuck_registered (sid : string) (w : World) : Prop :=
  is_Some (w_sessions w !! sid) /\
  map_Forall (fun _ q => phase_sid (req_phase q) <> Some sid) (w_reqs w) /\
  map_Forall (fun _ bot => bot_closed bot = false ->
                Forall (fun l => listener_sid l <> Some sid) (listeners ConnectionUpdate (bot_ev bot)))
             (w_bots w).

#[export] Instance stuck_registered_dec (sid : string) (w : World) : Decision (stuck_registered sid w).
Proof. unfold stuck_registered. apply _. Defined.

Section Stuck.
Context (sid : string).

Definition reqs_free (w : World) : Prop :=
  map_Forall (fun _ q => phase_sid (req_phase q) <> Some sid) (w_reqs w).
Definition bots_free (w : World) : Prop :=
  map_Forall (fun _ bot => bot_closed bot = false ->
                Forall (fun l => listener_sid l <> Some sid) (listeners ConnectionUpdate (bot_ev bot)))
             (w_bots w).

Lemma reqs_free_set_phase (r : ReqId) (ph : Phase) (w : World) :
  phase_sid ph <> Some sid -> reqs_free w -> reqs_free (set_phase r ph w).
Proof.
  intros Hph H. unfold reqs_free, set_phase. simpl. by apply map_Forall_alter.
Qed.

Lemma reqs_free_add (r : ReqId) (rt : Route) (ph : Phase) (w : World) :
  phase_sid ph <> Some sid -> reqs_free w -> reqs_free (add_request r rt ph w).
Proof. intros Hph H. unfold reqs_free, add_request. simpl. by apply map_Forall_insert_2. Qed.

Lemma bots_free_update (b : BotId) (f : Emitter EventName Listener -> Emitter EventName Listener)
    (w : World) :
  (forall em, listeners ConnectionUpdate (f em) ⊆ listeners ConnectionUpdate em) ->
  bots_free w -> bots_free (bot_update b f w).
Proof.
  intros Hf H. unfold bots_free, bot_update. simpl. apply map_Forall_alter; [|done].
  intros bot Hbot Hc. simpl in *. specialize (Hbot Hc). rewrite Forall_forall in Hbot |- *.
  intros l Hl. apply Hbot, Hf, Hl.
Qed.

Lemma bots_free_mark_closed (b : BotId) (w : World) : bots_free w -> bots_free (mark_closed b w).
Proof.
  intros H. unfold bots_free, mark_closed. simpl. apply map_Forall_alter; [|done]. simpl. done.
Qed.

Lemma removeAll_conn_subset (em : Emitter EventName Listener) :
  listeners ConnectionUpdate (removeAllListeners ConnectionUpdate em) ⊆ listeners ConnectionUpdate em.
Proof. rewrite listeners_removeAll_eq. set_solver. Qed.

(** The pieces of [stuck_registered] each operation keeps. *)
Lemma stuck_fail_request (r : ReqId) (sid' msg : string) (w : World) :
  sid' <> sid -> stuck_registered sid w -> stuck_registered sid (fail_request r sid' msg w).
Proof.
  intros Hne (Hs & Hq & Hb). rewrite fail_request_unfold. destruct (w_reqs w !! r); [|done].
  unfold respond, send. simpl. split; [|split].
  - cbn [w_sessions]. by rewrite lookup_delete_ne.
  - apply (reqs_free_set_phase r PhDone (sessions_delete sid' w)); [done|exact Hq].
  - exact Hb.
Qed.

Lemma stuck_settle (r : ReqId) (ph : Phase) (w : World) :
  phase_sid ph <> Some sid -> stuck_registered sid w -> stuck_registered sid (settle r ph w).
Proof.
  intros Hph (Hs & Hq & Hb). unfold settle. destruct (is_racing r w); [|done].
  split; [done|]. split; [by apply reqs_free_set_phase | done].
Qed.

Lemma stuck_removeAll (b : BotId) (w : World) :
  stuck_registered sid w -> stuck_registered sid (bot_update b (removeAllListeners ConnectionUpdate) w).
Proof.
  intros (Hs & Hq & Hb). split; [done|]. split; [done|].
  apply bots_free_update; [apply removeAll_conn_subset | done].
Qed.

Lemma stuck_delete_other (sid' : string) (w : World) :
  sid' <> sid -> stuck_registered sid w -> stuck_registered sid (sessions_delete sid' w).
Proof. intros Hne (Hs & Hq & Hb). split; [|done]. cbn [w_sessions sessions_delete with_sessions]. rewrite reg_delete_js. by rewrite lookup_delete_ne. Qed.

Lemma stuck_run_listener (ev : Event) (l : Listener) (w : World) :
  listener_sid l <> Some sid -> stuck_registered sid w -> stuck_registered sid (run_listener ev l w).
Proof.
  intros Hl H. destruct l as [p|sid'|r sid' b|r sid' b|r sid' b], ev as [|u|]; simpl in Hl |- *;
    try done.
  - case_decide; [|done]. apply stuck_delete_other; [congruence | done].
  - destruct (upd_connection u) as [[]|]; try done.
    + apply stuck_settle; [simpl; congruence|]. by apply stuck_removeAll.
    + assert (H1 : stuck_registered sid (sessions_delete sid' (bot_update b (removeAllListeners ConnectionUpdate) w)))
        by (apply stuck_delete_other; [congruence | by apply stuck_removeAll]).
      destruct (is_racing r _); [|done]. apply stuck_fail_request; [congruence | done].
  - repeat case_match; try done. apply stuck_settle; [simpl; congruence|]. by apply stuck_removeAll.
Qed.

Lemma stuck_respond (r : ReqId) (st : Z) (body : Body) (w : World) :
  stuck_registered sid w -> stuck_registered sid (respond r st body w).
Proof.
  intros (Hs & Hq & Hb). split; [done|]. split; [|done].
  apply (reqs_free_set_phase r PhDone w); [done | exact Hq].
Qed.

Lemma stuck_unhandled (r : ReqId) (w : World) :
  stuck_registered sid w -> stuck_registered sid (unhandled r w).
Proof.
  intros (Hs & Hq & Hb). split; [done|]. split; [|done].
  apply (reqs_free_set_phase r PhHung w); [done | exact Hq].
Qed.

Lemma stuck_phase_sid (r : ReqId) (ph : Phase) (w : World) :
  stuck_registered sid w -> phase_of r w = Some ph -> phase_sid ph <> Some sid.
Proof.
  intros (_ & Hq & _) Hp. unfold phase_of in Hp.
  destruct (w_reqs w !! r) as [q|] eqn:E; [|done]. injection Hp as <-. by apply (Hq r).
Qed.

Lemma route_handler_load (rt : Route) (q : Query) (m : gmap string BotId) (sid' : string) :
  route_handler rt q m = OLoad sid' -> m !! sid' = None.
Proof.
  destruct rt; simpl; [unfold pair_handler | unfold qr_handler];
    repeat case_match; rewrite ?reg_has_js in *; intros Hl; simplify_eq;
    repeat match goal with H : bool_decide _ = false |- _ => apply bool_decide_eq_false in H end;
    by apply eq_None_not_Some.
Qed.

Lemma stuck_run_listener_other (ev : Event) (l : Listener) (w : World) :
  event_name ev <> ConnectionUpdate -> stuck_registered sid w -> stuck_registered sid (run_listener ev l w).
Proof. intros He H. destruct ev, l; simpl in *; done. Qed.

(** Loading the version registers a fresh socket for another identifier,
    whose race listener is not for [sid]. *)
Lemma stuck_version (w : World) (r : ReqId) (w' : World) :
  stuck_registered sid w -> version_loaded r w = Some w' -> stuck_registered sid w'.
Proof.
  intros (Hreg & Hq & Hb) Hs. rewrite version_loaded_unfold in Hs.
  destruct (w_reqs w !! r) as [[rt []]|] eqn:E; try done.
  injection Hs as <-. assert (Hne : sid0 <> sid) by (intros ->; by apply (Hq r _ E)).
  split; [|split].
  - simpl. rewrite ?reg_set_js, lookup_insert_ne by done. done.
  - apply reqs_free_set_phase; [simpl; congruence | done].
  - unfold bots_free, bot_update. simpl. apply map_Forall_alter.
    + intros bot Hbot Hc. simpl in *. rewrite listeners_on_eq, Forall_app. split; [by apply Hbot|].
      constructor; [|done]. destruct rt; simpl; congruence.
    + apply map_Forall_insert_2; [|done]. intros _. simpl.
      change (listeners ConnectionUpdate (session_table sid0)) with [LSessionUpdate sid0].
      constructor; [simpl; congruence | done].
Qed.

Lemma stuck_step (w : World) (i : Input) (w' : World) :
  stuck_registered sid w -> step w i = Some w' -> stuck_registered sid w'.
Proof.
  intros H Hs. pose proof H as (Hreg & Hq & Hb).
  destruct i as [r rt q|r res|r|b ev|dt|r|r res|r res]; simpl in Hs.
  - case_decide as Hr; [|done]. injection Hs as <-. unfold request_arrives.
    destruct (route_handler rt q (w_sessions w)) as [st body| |sid'] eqn:Eh.
    + split; [done|]. split; [|done]. by apply reqs_free_add.
    + split; [done|]. split; [|done]. by apply reqs_free_add.
    + apply route_handler_load in Eh. split; [done|]. split; [|done].
      apply reqs_free_add; [|done]. simpl. intros [= ->]. destruct Hreg. congruence.
  - unfold auth_state_loaded in Hs. destruct (phase_of r w) as [[]|] eqn:E; try done.
    injection Hs as <-. pose proof (stuck_phase_sid r _ w H E) as Hne. simpl in Hne.
    destruct res; [apply stuck_fail_request; [congruence | done]|].
    split; [done|]. split; [|done]. by apply reqs_free_set_phase.
  - by apply (stuck_version w r).
  - unfold emit_event in Hs. destruct (w_bots w !! b) as [bot|] eqn:Eb; [|done].
    destruct (bot_closed bot) eqn:Ec; [done|]. injection Hs as <-.
    assert (Hd : stuck_registered sid (dispatch (run_listener ev) (listeners (event_name ev) (bot_ev bot)) w)).
    { apply (dispatch_preserves (stuck_registered sid)); [|done]. intros l w0 Hl Hw0.
      destruct ev as [|u|]; [apply stuck_run_listener_other; done| |apply stuck_run_listener_other; done].
      apply stuck_run_listener; [|done]. specialize (Hb b bot Eb Ec).
      rewrite Forall_forall in Hb. apply Hb, Hl. }
    destruct (is_close ev); [|done]. destruct Hd as (? & ? & ?).
    split; [done|]. split; [done|]. by apply bots_free_mark_closed.
  - case_bool_decide; [|done]. by injection Hs as <-.
  - rewrite timer_fires_unfold in Hs. destruct (w_reqs w !! r) as [[rt []]|] eqn:E; try done.
    destruct (timer_due _ _); [|done]. injection Hs as <-.
    assert (Hne : sid0 <> sid) by (intros ->; by apply (Hq r _ E)).
    apply stuck_fail_request; [done|]. apply stuck_delete_other; [done|]. by apply stuck_removeAll.
  - unfold pairing_code_reply in Hs. destruct (phase_of r w) as [[]|] eqn:E; try done.
    injection Hs as <-. pose proof (stuck_phase_sid r _ w H E) as Hne. simpl in Hne.
    destruct res; [by apply stuck_respond | apply stuck_fail_request; [congruence | done]].
  - unfold qr_rendered in Hs. destruct (phase_of r w) as [[]|] eqn:E; try done.
    injection Hs as <-. destruct res; [by apply stuck_respond | by apply stuck_unhandled].
Qed.

Lemma stuck_run (w w' : World) (inputs : list Input) :
  stuck_registered sid w -> run w inputs = Some w' -> stuck_registered sid w'.
Proof.
  revert w; induction inputs as [|i inputs IH]; intros w H Hr; simpl in Hr.
  - by injection Hr as <-.
  - destruct (step w i) as [w1|] eqn:E; [|done]. apply (IH w1); [|done]. by eapply stuck_step.
Qed.

End Stuck.


Lemma pair_handler_registered (phoneNumber : string) (m : gmap string BotId) :
  phoneNumber <> EmptyString -> is_Some (m !! pair_session_id phoneNumber) ->
  route_handler RPair (QString phoneNumber) m = ORespond 400 (BError duplicate_pair_message).
Proof.
  intros Hne Hs. cbn [route_handler]. unfold pair_handler. rewrite reg_has_js, bool_decide_true by done.
  by destruct phoneNumber.
Qed.

(** C9: an identifier that is registered while no request works for it and
    no open socket has a listener for it stays registered in every later
    state, and every later [/pair] for a number with that identifier is
    answered 400.  This is the state a successful [/pair] leaves behind:
    the race's [removeAllListeners('connection.update')] (index.js:117)
    also removed the close handler of [createWhatsAppSession]
    (index.js:52-69), so the later close of the socket no longer deletes
    the entry. *)
Theorem stuck_number_rejected_forever (w w' : World) (inputs : list Input) (r : ReqId)
    (phoneNumber : string) :
  stuck_registered (pair_session_id phoneNumber) w -> run w inputs = Some w' ->
  w_reqs w' !! r = None -> phoneNumber <> EmptyString ->
  step w' (IRequest r RPair (QString phoneNumber)) =
  Some (send r 400 (BError duplicate_pair_message) (add_request r RPair PhDone w')).
Proof.
  intros Hs Hrun Hr Hne. destruct (stuck_run _ w w' inputs Hs Hrun) as (Hreg & _ & _).
  apply (step_request_registered _ _ _ _ (pair_session_id phoneNumber)); [done..|].
  by apply pair_handler_registered.
Qed.

(** C10: the same for the QR login: once the fixed QR identifier is
    registered with nothing left that could remove it (the state a
    successful [/qr] leaves, index.js:165), every later [/qr] is answered
    400 until the process restarts. *)
Theorem stuck_qr_rejected_forever (w w' : World) (inputs : list Input) (r : ReqId) (q : Query) :
  stuck_registered qr_session_id w -> run w inputs = Some w' -> w_reqs w' !! r = None ->
  step w' (IRequest r RQr q) =
  Some (send r 400 (BError duplicate_qr_message) (add_request r RQr PhDone w')).
Proof.
  intros Hs Hrun Hr. destruct (stuck_run _ w w' inputs Hs Hrun) as (Hreg & _ & _).
  apply (step_request_registered _ _ _ _ qr_session_id); [done..|].
  cbn [route_handler]. unfold qr_handler. by rewrite reg_has_js, bool_decide_true.
Qed.

(** ** Concrete schedules *)

Definition conn_close : Event := close_update (Some (mkErr "Connection Closed" (Some 428%Z))).

(** A successful [/pair] for ["+62 812-3456"], then the socket closes. *)
Definition stale_pair_trace : list Input :=
  [IRequest 0 RPair (QString "+62 812-3456"); IAuthState 0 None; IVersion 0;
   IEmit 0 open_update; IPairingCode 0 (inl "ABCD1234"); IEmit 0 conn_close].

Definition world_of (o : option World) : World := default init_world o.

Definition stale_pair_world : World := world_of (run init_world stale_pair_trace).

Lemma stuck_number_rejected_forever_witness :
  w_out stale_pair_world = [(0, mkResponse 200 (BCode "ABCD-1234"))] /\
  step stale_pair_world (IRequest 1 RPair (QString "628123456")) =
  Some (send 1 400 (BError duplicate_pair_message) (add_request 1 RPair PhDone stale_pair_world)).
Proof.
  split; [vm_compute; reflexivity|].
  apply (stuck_number_rejected_forever stale_pair_world stale_pair_world [] 1 "628123456").
  - apply (bool_decide_unpack _). vm_compute. exact I.
  - reflexivity.
  - vm_compute. reflexivity.
  - discriminate.
Defined.

(** A successful [/qr], then the socket closes. *)
Definition stale_qr_trace : list Input :=
  [IRequest 0 RQr QMissing; IAuthState 0 None; IVersion 0;
   IEmit 0 (EConnectionUpdate (mkUpdate None None (Some "2@AbCdEf")));
   IRendered 0 (inl "data:image/png;base64,iVBORw0KGgo"); IEmit 0 conn_close].

Definition stale_qr_world : World := world_of (run init_world stale_qr_trace).

Lemma stuck_qr_rejected_forever_witness :
  step stale_qr_world (IRequest 1 RQr QMissing) =
  Some (send 1 400 (BError duplicate_qr_message) (add_request 1 RQr PhDone stale_qr_world)).
Proof.
  apply (stuck_qr_rejected_forever stale_qr_world stale_qr_world [] 1 QMissing).
  - apply (bool_decide_unpack _). vm_compute. exact I.
  - reflexivity.
  - vm_compute. reflexivity.
Defined.

(** C12: the check-then-act window of [/pair]: [activeSessions.has]
    (index.js:98) and [activeSessions.set] (index.js:46) are separated by
    the awaits of [createWhatsAppSession].  For any state, any number and
    any two new requests for it, the interleaving where both pass the [has]
    check before either loads its version gives both a socket; the second
    [set] replaces the first socket in the registry, although the registry
    contract of spec section 4.1 refuses that creation; and the close of
    the first, replaced socket then deletes the entry of the second, which
    is still racing. *)
Theorem check_then_act_window (w : World) (r0 r1 : ReqId) (phoneNumber : string) :
  w_reqs w !! r0 = None -> w_reqs w !! r1 = None -> r0 <> r1 -> phoneNumber <> EmptyString ->
  w_sessions w !! pair_session_id phoneNumber = None ->
  exists w', run w [IRequest r0 RPair (QString phoneNumber); IRequest r1 RPair (QString phoneNumber);
                    IAuthState r0 None; IAuthState r1 None; IVersion r0; IVersion r1] = Some w' /\
    w_sessions w' !! pair_session_id phoneNumber = Some (S (w_next_bot w)) /\
    phase_of r0 w' = Some (PhRacing (pair_session_id phoneNumber) (w_next_bot w) (w_now w + 30000)) /\
    phase_of r1 w' = Some (PhRacing (pair_session_id phoneNumber) (S (w_next_bot w)) (w_now w + 30000)) /\
    create (pair_session_id phoneNumber) (S (w_next_bot w)) (<[pair_session_id phoneNumber := w_next_bot w]> (w_sessions w)) = inl DuplicateSession /\
    exists w'', step w' (IEmit (w_next_bot w) (close_update None)) = Some w'' /\
      w_sessions w'' !! pair_session_id phoneNumber = None /\
      phase_of r1 w'' = Some (PhRacing (pair_session_id phoneNumber) (S (w_next_bot w)) (w_now w + 30000)).
Proof.
  intros H0 H1 Hne01 Hne Hs. set (sid := pair_session_id phoneNumber). set (b0 := w_next_bot w).
  cbn [run]. rewrite step_pair_request by done. cbn [mbind option_bind].
  rewrite step_pair_request; [| unfold add_request; simpl; by rewrite lookup_insert_ne | done | done].
  cbn [mbind option_bind].
  rewrite (step_auth_ok _ r0 sid) by (unfold phase_of; simpl; by rewrite lookup_insert_ne, lookup_insert_eq).
  cbn [mbind option_bind].
  rewrite (step_auth_ok _ r1 sid) by (unfold phase_of; simpl; by rewrite lookup_alter_ne, lookup_insert_eq).
  cbn [mbind option_bind].
  match goal with |- context [step ?w2 (IVersion r0)] =>
    destruct (step_version w2 r0 RPair sid) as (w3 & -> & Hb3 & Hs3 & Hr3 & _ & _ & Hn3 & Hnb3 & Hq3 & _);
    [unfold set_phase, add_request; simpl; by rewrite lookup_alter_ne, lookup_alter_eq, lookup_insert_ne, lookup_insert_eq|] end.
  cbn [mbind option_bind].
  destruct (step_version w3 r1 RPair sid) as (w4 & -> & _ & Hs4 & Hr4 & _ & _ & Hn4 & _ & Hq4 & Hb4).
  { rewrite Hq3 by done. unfold set_phase, add_request; simpl. by rewrite lookup_alter_eq, lookup_alter_ne, lookup_insert_eq. }
  cbn [mbind option_bind]. simpl in Hb3, Hs3, Hr3, Hn3. change (w_next_bot w) with b0 in Hb3, Hs3, Hr3, Hn3, Hnb3, Hb4.
  rewrite Hnb3 in Hr4, Hs4. rewrite Hn3 in Hr4.
  eexists; split; [reflexivity|]. split_and!.
  - by rewrite Hs4, lookup_insert_eq.
  - unfold phase_of. by rewrite Hq4, Hr3.
  - unfold phase_of. by rewrite Hr4.
  - apply create_duplicate. rewrite reg_get_js, lookup_insert_eq. eauto.
  - assert (Hb0 : w_bots w4 !! b0 = Some (mkBot sid (race_table sid r0 b0 RPair) false)).
    { rewrite Hb4; [exact Hb3|]. rewrite Hnb3. simpl. lia. }
    unfold close_update. rewrite (step_emit_race _ _ _ _ _ _ Hb0). eexists; split; [reflexivity|].
    cbn [run_listener save_creds session_update pair_race_update qr_race_update race_listener upd_connection is_close].
    rewrite decide_True, bool_decide_true by done.
    rewrite (is_racing_phase r0 _ sid b0 _) by (unfold phase_of; simpl; rewrite Hq4 by done; by rewrite Hr3).
    rewrite fail_request_unfold. cbn [w_reqs sessions_delete with_sessions bot_update with_bots mark_closed].
    rewrite Hq4, Hr3 by done. cbn. split; [by rewrite !lookup_delete_eq|].
    unfold phase_of. simpl. rewrite lookup_alter_ne by done. by rewrite Hr4.
Qed.

Lemma check_then_act_window_witness :
  exists w', run init_world [IRequest 0 RPair (QString "628123456"); IRequest 1 RPair (QString "628123456");
                             IAuthState 0 None; IAuthState 1 None; IVersion 0; IVersion 1] = Some w' /\
    w_sessions w' !! pair_session_id "628123456" = Some (S (w_next_bot init_world)) /\
    phase_of 0 w' = Some (PhRacing (pair_session_id "628123456") (w_next_bot init_world) (w_now init_world + 30000)) /\
    phase_of 1 w' = Some (PhRacing (pair_session_id "628123456") (S (w_next_bot init_world)) (w_now init_world + 30000)) /\
    create (pair_session_id "628123456") (S (w_next_bot init_world))
      (<[pair_session_id "628123456" := w_next_bot init_world]> (w_sessions init_world)) = inl DuplicateSession /\
    exists w'', step w' (IEmit (w_next_bot init_world) (close_update None)) = Some w'' /\
      w_sessions w'' !! pair_session_id "628123456" = None /\
      phase_of 1 w'' = Some (PhRacing (pair_session_id "628123456") (S (w_next_bot init_world)) (w_now init_world + 30000)).
Proof. apply (check_then_act_window init_world 0 1 "628123456"); [reflexivity | reflexivity | lia | discriminate | reflexivity]. Defined.

(** C13: [GET /pair] without a usable [number] (absent or empty) is
    answered 400 with [error: 'Nomor telepon diperlukan'] and creates
    nothing: no registry entry, no socket, no directory. *)
Theorem pair_missing_number (w : World) (r : ReqId) (q : Query) :
  w_reqs w !! r = None -> q = QMissing \/ q = QString EmptyString ->
  exists w', step w (IRequest r RPair q) = Some w' /\
    w_out w' = w_out w ++ [(r, mkResponse 400 (BError missing_number_message))] /\
    w_sessions w' = w_sessions w /\ w_bots w' = w_bots w /\ w_dirs w' = w_dirs w.
Proof.
  intros Hr Hq. simpl. rewrite decide_True by done. eexists; split; [reflexivity|].
  unfold request_arrives. by destruct Hq as [-> | ->].
Qed.

Lemma pair_missing_number_witness :
  exists w', step init_world (IRequest 0 RPair (QString "")) = Some w' /\
    w_out w' = w_out init_world ++ [(0, mkResponse 400 (BError missing_number_message))] /\
    w_sessions w' = w_sessions init_world /\ w_bots w' = w_bots init_world /\
    w_dirs w' = w_dirs init_world.
Proof. apply pair_missing_number; [reflexivity | right; reflexivity]. Defined.

(** C14: a [/pair] for a number whose identifier is registered (also a
    number written differently, ["+62 812"] and ["62812"] alike) is
    answered 400 and changes neither the registry nor the sockets. *)
Theorem pair_duplicate_rejected (w : World) (r : ReqId) (phoneNumber : string) :
  w_reqs w !! r = None -> phoneNumber <> EmptyString ->
  is_Some (w_sessions w !! pair_session_id phoneNumber) ->
  exists w', step w (IRequest r RPair (QString phoneNumber)) = Some w' /\
    w_out w' = w_out w ++ [(r, mkResponse 400 (BError duplicate_pair_message))] /\
    w_sessions w' = w_sessions w /\ w_bots w' = w_bots w.
Proof.
  intros Hr Hne Hs. rewrite (step_request_registered _ _ _ _ (pair_session_id phoneNumber) duplicate_pair_message); try done.
  - by eexists.
  - by apply pair_handler_registered.
Qed.

Lemma pair_duplicate_rejected_witness :
  exists w', step stale_pair_world (IRequest 1 RPair (QString "62-812-3456")) = Some w' /\
    w_out w' = w_out stale_pair_world ++ [(1, mkResponse 400 (BError duplicate_pair_message))] /\
    w_sessions w' = w_sessions stale_pair_world /\ w_bots w' = w_bots stale_pair_world.
Proof. apply pair_duplicate_rejected; [vm_compute; reflexivity | discriminate | vm_compute; eauto]. Defined.

(** C15: a [number] that is not a string (the query parser gives an array
    for [number=1&number=2]) makes [phoneNumber.replace] throw before the
    [try]: the handler's promise rejects unhandled and the request is never
    answered. *)
Theorem pair_non_string_unanswered (w : World) (r : ReqId) :
  reachable w -> w_reqs w !! r = None ->
  exists w', step w (IRequest r RPair QOther) = Some w' /\ r ∈ w_unhandled w' /\
    forall inputs w'', run w' inputs = Some w'' -> responses_of r w'' = [].
Proof.
  intros Hw Hr. simpl. rewrite decide_True by done. eexists; split; [reflexivity|]. split.
  - simpl. set_solver.
  - intros inputs w'' Hrun. eapply (hung_never_answered _ _ r inputs); [| |exact Hrun].
    + apply (reachable_step w (IRequest r RPair QOther)); [done|]. simpl. by rewrite decide_True.
    + unfold phase_of. simpl. by rewrite lookup_insert_eq.
Qed.

Lemma pair_non_string_unanswered_witness :
  exists w', step init_world (IRequest 0 RPair QOther) = Some w' /\ 0 ∈ w_unhandled w' /\
    forall inputs w'', run w' inputs = Some w'' -> responses_of 0 w'' = [].
Proof. apply pair_non_string_unanswered; [apply reachable_init | reflexivity]. Defined.

(** C16: [index.js] never deletes a credential directory: the set of session
    directories only grows, whatever the close reason (the deletion is
    commented out at index.js:64-65; spec section 4.2 says a logout close
    deletes them). *)
Theorem index_credentials_never_deleted (w : World) (i : Input) (w' : World) :
  step w i = Some w' -> w_dirs w ⊆ w_dirs w'.
Proof.
  intros Hs.
  assert (Hl : forall ev l w0, w_dirs w0 ⊆ w_dirs (run_listener ev l w0)).
  { intros ev l w0. destruct l, ev; simpl; repeat case_match; simpl; try set_solver.
    all: unfold settle; rewrite ?fail_request_unfold; repeat case_match; simpl; set_solver. }
  destruct i as [r rt q|r res|r|b ev|dt|r|r res|r res]; simpl in Hs.
  - case_decide; [|done]. injection Hs as <-. unfold request_arrives. case_match; simpl; set_solver.
  - unfold auth_state_loaded in Hs. repeat case_match; simplify_eq; rewrite ?fail_request_unfold;
      repeat case_match; simpl; set_solver.
  - rewrite version_loaded_unfold in Hs. destruct (w_reqs w !! r) as [[rt []]|]; try done. injection Hs as <-. simpl. set_solver.
  - unfold emit_event in Hs. repeat case_match; simplify_eq; try done.
    all: match goal with |- context [dispatch ?f ?ls ?w0] =>
           assert (w_dirs w0 ⊆ w_dirs (dispatch f ls w0))
             by (apply (dispatch_preserves (fun w1 => w_dirs w0 ⊆ w_dirs w1)); [|done];
                 intros l w1 _ Hw1; etrans; [exact Hw1 | apply Hl]) end.
    all: simpl; set_solver.
  - case_bool_decide; [|done]. injection Hs as <-. simpl. set_solver.
  - rewrite timer_fires_unfold in Hs. destruct (w_reqs w !! r) as [[rt []]|]; try done.
    destruct (timer_due _ _); [|done]. injection Hs as <-. rewrite fail_request_unfold. repeat case_match; simpl; set_solver.
  - unfold pairing_code_reply in Hs. repeat case_match; simplify_eq; rewrite ?fail_request_unfold;
      repeat case_match; simpl; set_solver.
  - unfold qr_rendered in Hs. repeat case_match; simplify_eq; simpl; set_solver.
Qed.

(** C17: a [number] without any digit (["abc"]) passes the presence check
    and yields the empty identifier; its credentials are loaded from
    [sessions] itself, the directory that holds every other session's
    directory. *)
Theorem pair_no_digit_number (w : World) (r : ReqId) (phoneNumber : string) :
  w_reqs w !! r = None -> phoneNumber <> EmptyString ->
  str_forallb (fun c => negb (is_digit c)) phoneNumber = true ->
  w_sessions w !! EmptyString = None ->
  exists w', run w [IRequest r RPair (QString phoneNumber); IAuthState r None] = Some w' /\
    phase_of r w' = Some (PhLoadingVersion EmptyString) /\ "sessions" ∈ w_dirs w'.
Proof.
  intros Hr Hne Hd Hs.
  assert (Hid : pair_session_id phoneNumber = EmptyString).
  { clear -Hd. unfold pair_session_id. induction phoneNumber as [|c s IH]; [done|].
    simpl in *. apply andb_prop in Hd as [Hc Hd]. apply negb_true_iff in Hc. rewrite Hc. auto. }
  cbn [run]. rewrite step_pair_request by (rewrite ?Hid; done). cbn [mbind option_bind].
  rewrite Hid, (step_auth_ok _ r EmptyString).
  2:{ unfold phase_of, add_request. simpl. by rewrite lookup_insert_eq. }
  eexists; split; [reflexivity|]. split.
  - rewrite phase_of_set_phase, decide_True by done. unfold phase_of. simpl. by rewrite lookup_insert_eq.
  - simpl. set_solver.
Qed.

Lemma pair_no_digit_number_witness :
  exists w', run init_world [IRequest 0 RPair (QString "abc"); IAuthState 0 None] = Some w' /\
    phase_of 0 w' = Some (PhLoadingVersion EmptyString) /\ "sessions" ∈ w_dirs w'.
Proof. apply pair_no_digit_number; [reflexivity | discriminate | reflexivity | reflexivity]. Defined.


Lemma pair_refines_create_witness :
  (w_reqs stale_pair_world !! 1 = None /\ "62 812 3456" <> EmptyString) /\
  match create (pair_session_id "62 812 3456") (w_next_bot stale_pair_world) (w_sessions stale_pair_world) with
  | inl DuplicateSession =>
      exists w', step stale_pair_world (IRequest 1 RPair (QString "62 812 3456")) = Some w' /\
        w_sessions w' = w_sessions stale_pair_world /\
        w_out w' = w_out stale_pair_world ++ [(1, mkResponse 400 (BError duplicate_pair_message))]
  | inr reg' =>
      exists w', run stale_pair_world [IRequest 1 RPair (QString "62 812 3456"); IAuthState 1 None; IVersion 1]
        = Some w' /\ w_sessions w' = reg'
  end.
Proof.
  split; [split; [vm_compute; reflexivity | discriminate]|].
  apply pair_refines_create; [vm_compute; reflexivity | discriminate].
Defined.

(** ** Witnesses on reachable worlds *)

Definition racing_trace : list Input :=
  [IRequest 0 RPair (QString "628123456"); IAuthState 0 None; IVersion 0].

Definition racing_world : World := world_of (run init_world racing_trace).

Lemma racing_world_reachable : reachable racing_world.
Proof. apply (reachable_run init_world _ racing_trace reachable_init). vm_compute. reflexivity. Qed.

Lemma pair_success_path_witness :
  exists w', run init_world [IRequest 0 RPair (QString "+62 812-3456"); IAuthState 0 None; IVersion 0;
                    IEmit (w_next_bot init_world) open_update; IPairingCode 0 (inl "ABCD1234")] = Some w' /\
    w_out w' = w_out init_world ++ [(0, mkResponse 200 (BCode (formatPairingCode "ABCD1234")))] /\
    w_sessions w' !! pair_session_id "+62 812-3456" = Some (w_next_bot init_world) /\
    session_path (pair_session_id "+62 812-3456") ∈ w_dirs w' /\
    exists bot, w_bots w' !! w_next_bot init_world = Some bot /\ listeners ConnectionUpdate (bot_ev bot) = [].
Proof. apply pair_success_path; [reflexivity | discriminate | reflexivity]. Defined.

Lemma answered_at_most_once_witness :
  length (responses_of 0 stale_pair_world) =
  if bool_decide (phase_of 0 stale_pair_world = Some PhDone) then 1 else 0.
Proof.
  apply answered_at_most_once.
  apply (reachable_run init_world _ stale_pair_trace reachable_init). vm_compute. reflexivity.
Defined.

Definition pair_finish_trace : list Input := [IEmit 0 open_update; IPairingCode 0 (inl "ABCD1234")].

Lemma request_protocol_witness :
  run racing_world pair_finish_trace = Some (world_of (run racing_world pair_finish_trace)) /\
  phase_of 0 (world_of (run racing_world pair_finish_trace)) = Some PhDone /\
  (forall r ph, phase_of r racing_world = Some ph ->
     exists ph', phase_of r (world_of (run racing_world pair_finish_trace)) = Some ph' /\ rtc phase_edge ph ph') /\
  (forall r ph', phase_of r racing_world = None ->
     phase_of r (world_of (run racing_world pair_finish_trace)) = Some ph' ->
     exists ph0, initial_phase ph0 /\ rtc phase_edge ph0 ph').
Proof.
  split; [vm_compute; reflexivity|]. split; [vm_compute; reflexivity|].
  apply (request_protocol racing_world _ pair_finish_trace); [apply racing_world_reachable | vm_compute; reflexivity].
Defined.

Definition pair_full_trace : list Input :=
  [IRequest 0 RPair (QString "628123456"); IAuthState 0 None; IVersion 0;
   IEmit 0 open_update; IPairingCode 0 (inl "ABCD1234")].

(** The bound is reached: a [/pair] request that succeeds moves five times. *)
Lemma request_moves_bounded_witness :
  phase_of 0 init_world = None /\
  phase_changes phase_of step 0 init_world pair_full_trace = 5 /\
  phase_changes phase_of step 0 init_world pair_full_trace <=
    match phase_of 0 init_world with Some ph => phase_rank ph | None => 5 end.
Proof.
  split; [reflexivity|]. split; [vm_compute; reflexivity|].
  apply (request_moves_bounded init_world pair_full_trace 0 reachable_init).
Defined.

Lemma pair_race_open_witness :
  exists w', step racing_world (IEmit 0 open_update) = Some w' /\
    phase_of 0 w' = Some (PhPairing "628123456" 0) /\ w_sessions w' = w_sessions racing_world /\
    w_out w' = w_out racing_world.
Proof.
  apply (pair_race_open racing_world 0 "628123456" 0 30000);
    [apply racing_world_reachable | vm_compute; reflexivity].
Defined.

Lemma pair_race_close_witness :
  exists w', step racing_world (IEmit 0 (close_update None)) = Some w' /\
    w_out w' = w_out racing_world ++
      [(0, mkResponse 500 (BError (Some (boom_message None) ?|| pair_default_message)))] /\
    w_sessions w' !! "628123456" = None /\ phase_of 0 w' = Some PhDone /\
    exists bot, w_bots w' !! 0 = Some bot /\ bot_closed bot = true /\
                listeners ConnectionUpdate (bot_ev bot) = [].
Proof.
  apply (pair_race_close racing_world 0 "628123456" 0 30000); [apply racing_world_reachable|].
  vm_compute. reflexivity.
Defined.

Definition loading_world : World :=
  world_of (run init_world [IRequest 0 RPair (QString "628123456"); IAuthState 0 None]).

Lemma race_timer_delay_witness :
  exists w1, step loading_world (IVersion 0) = Some w1 /\
    (is_Some (run w1 [ITick 29999; IFire 0]) <-> (30000 <= 29999)%Z).
Proof. apply (race_timer_delay loading_world 0 RPair "628123456" 29999); [vm_compute; reflexivity | lia]. Defined.

Lemma race_timeout_witness :
  exists w', step (with_now 30000 racing_world) (IFire 0) = Some w' /\
    w_out w' = w_out (with_now 30000 racing_world) ++ [(0, mkResponse 500 (BError (route_timeout_message RPair)))] /\
    w_sessions w' !! "628123456" = None /\
    exists bot, w_bots w' !! 0 = Some bot /\ listeners ConnectionUpdate (bot_ev bot) = [].
Proof.
  apply (race_timeout _ 0 RPair "628123456" 0 30000).
  - apply (reachable_step racing_world (ITick 30000)); [apply racing_world_reachable | vm_compute; reflexivity].
  - vm_compute. reflexivity.
  - vm_compute. discriminate.
Defined.

Lemma request_can_finish_witness :
  exists inputs w', run racing_world inputs = Some w' /\
    phase_of 0 w' = Some PhDone /\ length (responses_of 0 w') = 1.
Proof.
  apply (request_can_finish racing_world 0 (PhRacing "628123456" 0 30000));
    [apply racing_world_reachable | vm_compute; reflexivity | discriminate].
Defined.

Definition rendering_world : World :=
  world_of (run init_world [IRequest 0 RQr QMissing; IAuthState 0 None; IVersion 0;
                            IEmit 0 (EConnectionUpdate (mkUpdate None None (Some "2@AbCdEf")))]).

Lemma qr_render_failure_unanswered_witness :
  exists w', step rendering_world (IRendered 0 (inr (mkErr "render failed" None))) = Some w' /\
    0 ∈ w_unhandled w' /\ forall inputs w'', run w' inputs = Some w'' -> responses_of 0 w'' = [].
Proof.
  apply (qr_render_failure_unanswered rendering_world 0 qr_session_id 0 "2@AbCdEf").
  - apply (reachable_run init_world _ [IRequest 0 RQr QMissing; IAuthState 0 None; IVersion 0;
                            IEmit 0 (EConnectionUpdate (mkUpdate None None (Some "2@AbCdEf")))] reachable_init).
    vm_compute. reflexivity.
  - vm_compute. reflexivity.
Defined.

(** A close with Baileys' [loggedOut] code (401) keeps the directory. *)
Definition logout_close : Event := close_update (Some (mkErr "Connection Failure" (Some 401%Z))).

Lemma index_credentials_never_deleted_witness :
  step racing_world (IEmit 0 logout_close) = Some (world_of (step racing_world (IEmit 0 logout_close))) /\
  w_dirs racing_world ⊆ w_dirs (world_of (step racing_world (IEmit 0 logout_close))).
Proof.
  split; [vm_compute; reflexivity|].
  apply (index_credentials_never_deleted racing_world (IEmit 0 logout_close)). vm_compute. reflexivity.
Defined.

End IndexProps.
