(* ===== verification/ServerJs.v ===== *)
(** * ServerJs: [src/server.js] as an event-driven machine

    The second server has no registry.  Its state is an [SWorld]: the
    clock, the sockets with their listener tables, the in-flight requests
    with the point each handler is suspended at, the QR renderings started
    by the asynchronous [connection.update] listener of [/qr] and not yet
    finished, the credential directories on disk, the responses sent and
    the rejections nobody handles (the process-level handlers of
    server.js:18-19 only log them).  As for [index.js], each [SInput] is one
    callback of the event loop and [sstep] runs it to the next suspension
    point.

    [sock.end] belongs to the protocol library: Baileys' [end] emits
    [connection: 'close'] on the socket's own emitter, synchronously, with
    [lastDisconnect.error] set to its argument, and then removes every
    [connection.update] listener; a close the network causes goes through
    the same [end].  [sock_end] models exactly that.  [fs.rm] (server.js:94)
    completes after its callback is scheduled; its deletion is applied at
    once, which no request of the model can observe in between. *)

From S2P Require Import Prelude JsText Emitter IndexServer.
From Stdlib Require Import Ascii String ZArith.

Module Server.
Import PairingCode.

(** ** Data *)

(** The Baileys event shapes are those of [index.js]. *)
Abbreviation ErrInfo := Index.ErrInfo.
Abbreviation Update := Index.Update.
Abbreviation EventName := Index.EventName.
Abbreviation Event := Index.Event.
Abbreviation Route := Index.Route.
Abbreviation BotId := Index.BotId.
Abbreviation ReqId := Index.ReqId.

#[export] Existing Instances Index.Connection_eq_dec Index.EventName_eq_dec Index.Route_eq_dec.

(** [req.query.number]: absent, a string, an array of strings
    ([number=a&number=b]) or an object ([number[x]=1]). *)
Inductive SQuery :=
  | SQMissing
  | SQString (s : string)
  | SQArray (l : list string)
  | SQObject.

(** [if (!number)] (server.js:24): [undefined] and [""] are falsy, an array
    or an object is truthy even when empty. *)
Definition number_truthy (q : SQuery) : bool :=
  match q with
  | SQMissing | SQString EmptyString => false
  | _ => true
  end.

(** [`${number}`]: an array is joined with commas, an object prints as
    ["[object Object]"]. *)
Definition number_text (q : SQuery) : string :=
  match q with
  | SQMissing => "undefined"
  | SQString s => s
  | SQArray l => join "," l
  | SQObject => "[object Object]"
  end.

(** [const sessionPath = `auth_info_${number}`] (server.js:27). *)
Definition pair_session_path (q : SQuery) : string := "auth_info_" ++ number_text q.

(** [const sessionPath = 'auth_info_qr'] (server.js:68). *)
Definition qr_session_path : string := "auth_info_qr".

(** [DisconnectReason.loggedOut] of Baileys. *)
Definition loggedOut : Z := 401.

Definition pair_delay_ms : Z := 2000.          (** server.js:55 *)
Definition srv_qr_timeout_ms : Z := 30000.     (** server.js:83 *)

Definition empty_number_message : string := "Nomor tidak boleh kosong.".
Definition pair_fail_error : string := "Gagal mendapatkan pairing code.".
Definition qr_fail_error : string := "Gagal menghasilkan QR code.".
Definition srv_qr_timeout_message : string := "Timeout: Gagal mendapatkan QR code dalam 30 detik.".
Definition qr_end_message : string := "Timeout saat menunggu QR".

(** server.js:106-111 *)
Definition srv_qr_instructions : list string :=
  ["1. Buka WhatsApp di ponsel Anda.";
   "2. Ketuk Menu (⋮) atau Pengaturan dan pilih Perangkat Tertaut.";
   "3. Ketuk Tautkan Perangkat.";
   "4. Pindai kode QR ini."].

(** The listeners of server.js with what their closures capture. *)
Inductive SListener :=
  | SLSaveCreds (path : string)              (** server.js:37, 78: [saveCreds] *)
  | SLPairConn (path : string)               (** server.js:38-52 *)
  | SLQrConn (r : ReqId) (b : BotId).        (** server.js:84-98 *)

Record SBot := mkSBot {
  sbot_ev : Emitter EventName SListener;
  sbot_closed : bool;
  }.

(** Where a request's handler is suspended. *)
Inductive SPhase :=
  | SPhLoadingAuth (path : string)        (** [await useMultiFileAuthState] (28, 69) *)
  | SPhSleeping (b : BotId) (wake : Z)    (** [await new Promise(.. setTimeout(resolve, 2000))] *)
  | SPhRequesting (b : BotId)             (** [await sock.requestPairingCode(number)] *)
  | SPhAwaitingQr (b : BotId) (timer : option Z)
      (** [await qrPromise]; the deadline of its timer until [clearTimeout] *)
  | SPhHung                               (** no response will ever be sent *)
  | SPhDone.

#[export] Instance SPhase_eq_dec : EqDecision SPhase.
Proof. solve_decision. Defined.

Record SReq := mkSReq { sreq_route : Route; sreq_phase : SPhase }.

(** A [qrcode.toDataURL(qr)] in flight inside the QR listener: the request
    and socket its closure captures, and whether the update it came with
    also said [connection: 'close'] (that test runs after the [await]). *)
Record Render := mkRender { rnd_req : ReqId; rnd_bot : BotId; rnd_close : bool }.

(** The JSON bodies: [{error}] or [{error, message}], [{success, code}],
    [{success, qr, instructions}]; server.js always sends [success: true]
    (server.js:58, 103). *)
Inductive SBody :=
  | SBError (error : string) (message : option string)
  | SBCode (success : bool) (code : string)
  | SBQr (success : bool) (qr : string) (instructions : list string).

Record SResponse := mkSResponse { srsp_status : Z; srsp_body : SBody }.

Record SWorld := mkSWorld {
  sw_now : Z;
  sw_bots : gmap BotId SBot;
  sw_next_bot : BotId;
  sw_reqs : gmap ReqId SReq;
  sw_renders : gmap nat Render;
  sw_next_render : nat;
  sw_dirs : gset string;
  sw_out : list (ReqId * SResponse);
  sw_unhandled : list ReqId;    (** rejections logged by [unhandledRejection] *)
  }.

Definition sinit : SWorld := mkSWorld 0 ∅ 0 ∅ ∅ 0 ∅ [] [].

(** ** Updating the world *)

Definition sw_with_bots (bs : gmap BotId SBot) (w : SWorld) : SWorld :=
  mkSWorld (sw_now w) bs (sw_next_bot w) (sw_reqs w) (sw_renders w) (sw_next_render w)
    (sw_dirs w) (sw_out w) (sw_unhandled w).

Definition sw_with_reqs (rs : gmap ReqId SReq) (w : SWorld) : SWorld :=
  mkSWorld (sw_now w) (sw_bots w) (sw_next_bot w) rs (sw_renders w) (sw_next_render w)
    (sw_dirs w) (sw_out w) (sw_unhandled w).

Definition sw_with_dirs (ds : gset string) (w : SWorld) : SWorld :=
  mkSWorld (sw_now w) (sw_bots w) (sw_next_bot w) (sw_reqs w) (sw_renders w) (sw_next_render w)
    ds (sw_out w) (sw_unhandled w).

Definition sw_with_renders (rd : gmap nat Render) (w : SWorld) : SWorld :=
  mkSWorld (sw_now w) (sw_bots w) (sw_next_bot w) (sw_reqs w) rd (sw_next_render w)
    (sw_dirs w) (sw_out w) (sw_unhandled w).

Definition sw_with_now (t : Z) (w : SWorld) : SWorld :=
  mkSWorld t (sw_bots w) (sw_next_bot w) (sw_reqs w) (sw_renders w) (sw_next_render w)
    (sw_dirs w) (sw_out w) (sw_unhandled w).

Definition sphase_of (r : ReqId) (w : SWorld) : option SPhase := sreq_phase <$> sw_reqs w !! r.

Definition sset_phase (r : ReqId) (ph : SPhase) (w : SWorld) : SWorld :=
  sw_with_reqs (alter (fun q => mkSReq (sreq_route q) ph) r (sw_reqs w)) w.

(** [res.json(body)] with its status: the response goes out. *)
Definition ssend (r : ReqId) (status : Z) (body : SBody) (w : SWorld) : SWorld :=
  mkSWorld (sw_now w) (sw_bots w) (sw_next_bot w) (sw_reqs w) (sw_renders w) (sw_next_render w)
    (sw_dirs w) (sw_out w ++ [(r, mkSResponse status body)]) (sw_unhandled w).

(** [res.status(status).json(body)] at the end of a handler. *)
Definition srespond (r : ReqId) (status : Z) (body : SBody) (w : SWorld) : SWorld :=
  ssend r status body (sset_phase r SPhDone w).

(** A rejection that only the process-level handler sees. *)
Definition slog_unhandled (r : ReqId) (w : SWorld) : SWorld :=
  mkSWorld (sw_now w) (sw_bots w) (sw_next_bot w) (sw_reqs w) (sw_renders w) (sw_next_render w)
    (sw_dirs w) (sw_out w) (sw_unhandled w ++ [r]).

(** [fs.rmSync(p, {recursive, force})] and [fs.rm(p, ..)]: the directory
    is gone, and a missing one is no error. *)
Definition rm_dir (p : string) (w : SWorld) : SWorld := sw_with_dirs (sw_dirs w ∖ {[p]}) w.

(** [lastDisconnect?.error?.output?.statusCode]. *)
Definition status_code (u : Update) : option Z := u.(Index.upd_error) ≫= Index.err_status.

Definition is_conn_close (u : Update) : bool :=
  bool_decide (u.(Index.upd_connection) = Some Index.Close).

(** ** The listeners *)

(** server.js:38-52: on [close] with the logged-out status code the
    credential directory is deleted; an open connection is only logged. *)
Definition pair_conn_update (path : string) (u : Update) (w : SWorld) : SWorld :=
  if is_conn_close u && bool_decide (status_code u = Some loggedOut) then rm_dir path w else w.

(** server.js:84-98, up to the [await]: a truthy [qr] clears the timer and
    starts the rendering (the rest of the listener runs when it finishes);
    otherwise a [close] removes [auth_info_qr]. *)
Definition qr_conn_update (r : ReqId) (b : BotId) (u : Update) (w : SWorld) : SWorld :=
  if js_truthy u.(Index.upd_qr) then
    let w1 := match sphase_of r w with
              | Some (SPhAwaitingQr b' _) => sset_phase r (SPhAwaitingQr b' None) w
              | _ => w
              end in
    let k := sw_next_render w1 in
    mkSWorld (sw_now w1) (sw_bots w1) (sw_next_bot w1) (sw_reqs w1)
      (<[k := mkRender r b (is_conn_close u)]> (sw_renders w1)) (S k)
      (sw_dirs w1) (sw_out w1) (sw_unhandled w1)
  else if is_conn_close u then rm_dir qr_session_path w
  else w.

(** [saveCreds] writes files into a directory that is there: the set of
    directories does not change. *)
Definition srun_listener (ev : Event) (l : SListener) (w : SWorld) : SWorld :=
  match l, ev with
  | SLPairConn path, Index.EConnectionUpdate u => pair_conn_update path u w
  | SLQrConn r b, Index.EConnectionUpdate u => qr_conn_update r b u w
  | _, _ => w
  end.

Arguments pair_conn_update _ _ _ /.
Arguments qr_conn_update _ _ _ _ /.

Definition sbot_update (b : BotId) (f : SBot -> SBot) (w : SWorld) : SWorld :=
  sw_with_bots (alter f b (sw_bots w)) w.

(** The listeners registered when the emission starts run in order. *)
Definition sdispatch (b : BotId) (ev : Event) (w : SWorld) : SWorld :=
  match sw_bots w !! b with
  | Some bot => dispatch (srun_listener ev) (listeners (Index.event_name ev) (sbot_ev bot)) w
  | None => w
  end.

(** Baileys' [end(error)] on socket [b]: unless already closed, emit
    [connection: 'close'] with [lastDisconnect.error = error], then remove
    every [connection.update] listener. *)
Definition close_update (e : option ErrInfo) : Update := Index.mkUpdate (Some Index.Close) e None.

Definition sock_end (b : BotId) (e : option ErrInfo) (w : SWorld) : SWorld :=
  match sw_bots w !! b with
  | Some bot =>
      if sbot_closed bot then w
      else
        let w1 := sdispatch b (Index.EConnectionUpdate (close_update e)) w in
        sbot_update b (fun bot => mkSBot (removeAllListeners Index.ConnectionUpdate (sbot_ev bot)) true) w1
  | None => w
  end.

(** ** The handlers *)

(** A fresh socket [b] with listener table [ev]. *)
Definition new_socket (ev : Emitter EventName SListener) (w : SWorld) : SWorld * BotId :=
  let b := sw_next_bot w in
  (mkSWorld (sw_now w) (<[b := mkSBot ev false]> (sw_bots w)) (S b) (sw_reqs w) (sw_renders w)
     (sw_next_render w) (sw_dirs w) (sw_out w) (sw_unhandled w), b).

Definition sadd_request (r : ReqId) (rt : Route) (ph : SPhase) (w : SWorld) : SWorld :=
  sw_with_reqs (<[r := mkSReq rt ph]> (sw_reqs w)) w.

(** [GET /pair] up to its first [await] (server.js:22-28): without a
    truthy [number] it is answered 400, otherwise it starts loading the
    credentials of [auth_info_<number>]. *)
Definition spair_arrives (r : ReqId) (q : SQuery) (w : SWorld) : SWorld :=
  if number_truthy q then sadd_request r Index.RPair (SPhLoadingAuth (pair_session_path q)) w
  else ssend r 400 (SBError empty_number_message None) (sadd_request r Index.RPair SPhDone w).

(** [GET /qr] up to its first [await] (server.js:66-69). *)
Definition sqr_arrives (r : ReqId) (w : SWorld) : SWorld :=
  sadd_request r Index.RQr (SPhLoadingAuth qr_session_path) w.

(** A request arrives and its handler runs to its first [await]. *)
Definition srequest_arrives (r : ReqId) (rt : Route) (q : SQuery) (w : SWorld) : SWorld :=
  match rt with
  | Index.RPair => spair_arrives r q w
  | Index.RQr => sqr_arrives r w
  end.

(** The listener tables of a new socket: [creds.update] then
    [connection.update] (server.js:37-38 and 78, 84). *)
Definition pair_table (path : string) : Emitter EventName SListener :=
  on Index.ConnectionUpdate (SLPairConn path) (on Index.CredsUpdate (SLSaveCreds path) []).

Definition qr_table (path : string) (r : ReqId) (b : BotId) : Emitter EventName SListener :=
  on Index.ConnectionUpdate (SLQrConn r b) (on Index.CredsUpdate (SLSaveCreds path) []).

(** [useMultiFileAuthState] resolves in [GET /pair] (server.js:28-55): the
    directory exists, the socket is made with its two listeners, and the
    handler enters its [try] and sleeps 2 s. *)
Definition spair_auth_loaded (r : ReqId) (path : string) (w : SWorld) : SWorld :=
  let w0 := sw_with_dirs ({[path]} ∪ sw_dirs w) w in
  let b := sw_next_bot w0 in
  sset_phase r (SPhSleeping b (sw_now w + pair_delay_ms)%Z) (new_socket (pair_table path) w0).1.

(** [useMultiFileAuthState] resolves in [GET /qr] (server.js:69-84): the
    socket is made, [qrPromise] arms its 30 s timer and attaches its
    listener, and the handler awaits it. *)
Definition sqr_auth_loaded (r : ReqId) (path : string) (w : SWorld) : SWorld :=
  let w0 := sw_with_dirs ({[path]} ∪ sw_dirs w) w in
  let b := sw_next_bot w0 in
  sset_phase r (SPhAwaitingQr b (Some (sw_now w + srv_qr_timeout_ms)%Z)) (new_socket (qr_table path r b) w0).1.

(** [useMultiFileAuthState(sessionPath)] settles.  It is awaited outside
    the [try] (server.js:28, 69): a rejection is unhandled and the request
    is never answered. *)
Definition sauth_state_loaded (r : ReqId) (res : option ErrInfo) (w : SWorld) : option SWorld :=
  match sw_reqs w !! r with
  | Some (mkSReq rt (SPhLoadingAuth path)) =>
      Some match res with
           | Some _ => slog_unhandled r (sset_phase r SPhHung w)
           | None =>
               match rt with
               | Index.RPair => spair_auth_loaded r path w
               | Index.RQr => sqr_auth_loaded r path w
               end
           end
  | _ => None
  end.

(** The [catch] of [GET /pair] (server.js:59-62). *)
Definition spair_catch (r : ReqId) (msg : string) (w : SWorld) : SWorld :=
  srespond r 500 (SBError pair_fail_error (Some msg)) w.

(** The [catch] of [GET /qr] (server.js:113-116). *)
Definition sqr_catch (r : ReqId) (msg : string) (w : SWorld) : SWorld :=
  srespond r 500 (SBError qr_fail_error (Some msg)) w.

(** The 2 s delay ends (server.js:55) and [sock.requestPairingCode(number)]
    is called. *)
Definition swake (r : ReqId) (w : SWorld) : option SWorld :=
  match sphase_of r w with
  | Some (SPhSleeping b t) =>
      if bool_decide (t <= sw_now w)%Z then Some (sset_phase r (SPhRequesting b) w) else None
  | _ => None
  end.

(** [requestPairingCode] settles (server.js:56-62): the raw code, or a 500
    with the error's message. *)
Definition spairing_code_reply (r : ReqId) (res : string + ErrInfo) (w : SWorld) : option SWorld :=
  match sphase_of r w with
  | Some (SPhRequesting _) =>
      Some match res with
           | inl pairingCode => srespond r 200 (SBCode true pairingCode) w
           | inr e => spair_catch r (Index.err_message e) w
           end
  | _ => None
  end.

(** The timer of [qrPromise] (server.js:80-83): [sock.end(new Error(..))],
    then the rejection reaches the [catch] (server.js:113-116). *)
Definition sfire (r : ReqId) (w : SWorld) : option SWorld :=
  match sphase_of r w with
  | Some (SPhAwaitingQr b (Some d)) =>
      if bool_decide (d <= sw_now w)%Z then
        let w1 := sock_end b (Some (Index.mkErr qr_end_message None)) w in
        Some (sqr_catch r srv_qr_timeout_message w1)
      else None
  | _ => None
  end.

(** A rendering [k] finishes (server.js:89-97).  On success the listener
    resolves [qrPromise] (only the first settlement counts), calls
    [sock.end()], and removes [auth_info_qr] if its update said [close];
    the handler's continuation answers after the listener's synchronous
    part.  On failure the listener's promise rejects unhandled. *)
Definition srendered (k : nat) (res : string + ErrInfo) (w : SWorld) : option SWorld :=
  match sw_renders w !! k with
  | Some (mkRender r b cl) =>
      let w0 := sw_with_renders (delete k (sw_renders w)) w in
      Some match res with
           | inl qrImage =>
               let settles := match sphase_of r w0 with Some (SPhAwaitingQr _ _) => true | _ => false end in
               let w1 := sock_end b None w0 in
               let w2 := if cl then rm_dir qr_session_path w1 else w1 in
               if settles then srespond r 200 (SBQr true qrImage srv_qr_instructions) w2 else w2
           | inr _ => slog_unhandled r w0
           end
  | None => None
  end.

(** Socket [b] emits [ev].  A [close] is always Baileys' [end] with the
    disconnect error; a closed socket emits nothing more. *)
Definition semit (b : BotId) (ev : Event) (w : SWorld) : option SWorld :=
  match sw_bots w !! b with
  | Some bot =>
      if sbot_closed bot then None
      else Some match ev with
                | Index.EConnectionUpdate u =>
                    if is_conn_close u then sock_end b (Index.upd_error u) w else sdispatch b ev w
                | _ => sdispatch b ev w
                end
  | None => None
  end.

(** ** The machine *)

Inductive SInput :=
  | SIRequest (r : ReqId) (rt : Route) (q : SQuery)
  | SIAuthState (r : ReqId) (res : option ErrInfo)
  | SIEmit (b : BotId) (ev : Event)
  | SITick (dt : Z)
  | SIWake (r : ReqId)
  | SIPairingCode (r : ReqId) (res : string + ErrInfo)
  | SIFire (r : ReqId)
  | SIRendered (k : nat) (res : string + ErrInfo).

Definition sstep (w : SWorld) (i : SInput) : option SWorld :=
  match i with
  | SIRequest r rt q =>
      if decide (sw_reqs w !! r = None) then Some (srequest_arrives r rt q w) else None
  | SIAuthState r res => sauth_state_loaded r res w
  | SIEmit b ev => semit b ev w
  | SITick dt => if bool_decide (0 < dt)%Z then Some (sw_with_now (sw_now w + dt)%Z w) else None
  | SIWake r => swake r w
  | SIPairingCode r res => spairing_code_reply r res w
  | SIFire r => sfire r w
  | SIRendered k res => srendered k res w
  end.

Fixpoint srun (w : SWorld) (inputs : list SInput) : option SWorld :=
  match inputs with
  | [] => Some w
  | i :: rest => sstep w i ≫= fun w' => srun w' rest
  end.

Inductive sreachable : SWorld -> Prop :=
  | sreachable_init : sreachable sinit
  | sreachable_step w i w' : sreachable w -> sstep w i = Some w' -> sreachable w'.

End Server.
