(* ===== verification/Paths.v ===== *)
(** * Paths: where the credential directories of the two servers land

    Both servers hand a relative path to the credential store, which
    creates, writes and (in [server.js]) deletes it with [fs].  The
    operating system resolves a relative path against the working directory
    segment by segment: empty segments and [.] are skipped, [..] drops the
    segment before it, and a [..] with nothing before it climbs above the
    working directory.  [resolve_relative] is that resolution (the one
    [path.normalize] also computes) as the list of remaining segments.

    [index.js] joins the digits-only identifier under [sessions]
    (index.js:29); [server.js] pastes the raw [number] after [auth_info_]
    (server.js:27).  The theorems show that the first always stays inside
    [sessions] and that the second can leave the working directory. *)

From S2P Require Import Prelude JsText IndexServer ServerJs.
From Stdlib Require Import Ascii String.

Module PosixPath.
Import SessionId.

Definition is_slash (c : ascii) : bool := Nat.eqb (nat_of_ascii c) 47.

(** The segments of a path between its slashes, empty ones included. *)
Fixpoint split_slash (s : string) : list string :=
  match s with
  | EmptyString => [EmptyString]
  | String c s' =>
      let rest := split_slash s' in
      if is_slash c then EmptyString :: rest
      else match rest with
           | x :: xs => String c x :: xs
           | [] => [String c EmptyString]
           end
  end.

(** Resolution of the segments, [acc] holding the resolved ones in
    reverse. *)
Fixpoint norm_segments (acc : list string) (segs : list string) : list string :=
  match segs with
  | [] => rev acc
  | seg :: rest =>
      if String.eqb seg "" || String.eqb seg "." then norm_segments acc rest
      else if String.eqb seg ".." then
        match acc with
        | x :: acc' => if String.eqb x ".." then norm_segments (".." :: acc) rest else norm_segments acc' rest
        | [] => norm_segments [".."] rest
        end
      else norm_segments (seg :: acc) rest
  end.

Definition resolve_relative (p : string) : list string := norm_segments [] (split_slash p).

(** Whether a relative path resolves outside the working directory. *)
Definition escapes_cwd (p : string) : bool :=
  match resolve_relative p with
  | seg :: _ => String.eqb seg ".."
  | [] => false
  end.

Lemma split_slash_no_slash (s : string) :
  str_forallb (fun c => negb (is_slash c)) s = true -> split_slash s = [s].
Proof.
  induction s as [|c s IH]; [done|]. simpl. intros [Hc Hs]%andb_prop.
  rewrite IH by done. destruct (is_slash c); done.
Qed.

Lemma digit_not_slash (c : ascii) : is_digit c = true -> is_slash c = false.
Proof.
  unfold is_digit, is_slash. intros H. apply Nat.eqb_neq.
  apply andb_prop in H as [H1 H2]. apply Nat.leb_le in H1. apply Nat.leb_le in H2. lia.
Qed.

Lemma digits_no_slash (s : string) :
  str_forallb is_digit s = true -> str_forallb (fun c => negb (is_slash c)) s = true.
Proof.
  induction s as [|c s IH]; [done|]. simpl. intros [Hc Hs]%andb_prop.
  by rewrite digit_not_slash, IH.
Qed.

(** A non-empty string of digits is neither [.] nor [..]. *)
Lemma digits_not_dots (s : string) :
  str_forallb is_digit s = true -> s <> EmptyString ->
  String.eqb s "" = false /\ String.eqb s "." = false /\ String.eqb s ".." = false.
Proof.
  intros Hd Hne. destruct s as [|c s]; [done|]. simpl in Hd. apply andb_prop in Hd as [Hc _].
  split_and!; apply String.eqb_neq; intros [= -> _]; discriminate.
Qed.

(** C33: every session path of [index.js] resolves inside [sessions]:
    [sessions/<id>] for a non-empty identifier, [sessions] itself for the
    empty one; no [number] can reach another directory. *)
Theorem index_session_path_inside (phoneNumber : string) :
  resolve_relative (Index.session_path (pair_session_id phoneNumber)) =
  "sessions" :: (if String.eqb (pair_session_id phoneNumber) "" then [] else [pair_session_id phoneNumber]).
Proof.
  pose proof (replace_non_digits_digits phoneNumber) as Hd. fold (pair_session_id phoneNumber) in Hd.
  destruct (pair_session_id phoneNumber) as [|c s] eqn:E; [reflexivity|].
  unfold Index.session_path, resolve_relative.
  change (split_slash ("sessions/" ++ String c s)) with ("sessions" :: split_slash (String c s)).
  rewrite split_slash_no_slash by (by apply digits_no_slash).
  destruct (digits_not_dots (String c s) Hd ltac:(discriminate)) as (H1 & H2 & H3).
  cbn [norm_segments]. rewrite H1, H2, H3. reflexivity.
Qed.

(** The first segments of [auth_info_/../../<s>]. *)
Lemma split_slash_escape (s : string) :
  split_slash (Server.pair_session_path (Server.SQString ("/../../" ++ s)%string)) = "auth_info_" :: ".." :: ".." :: split_slash s.
Proof. simpl. rewrite append_nil_l. destruct (split_slash s); reflexivity. Qed.

(** Once the resolved segments start with [..], nothing removes it: a
    later [..] stacks on it. *)
Lemma norm_segments_dotdot (segs acc : list string) :
  last acc = Some ".." -> head (norm_segments acc segs) = Some "..".
Proof.
  revert acc. induction segs as [|seg segs IH]; intros acc Hl; simpl.
  - rewrite rev_alt. change (rev_append acc []) with (reverse acc). by rewrite head_reverse.
  - destruct (String.eqb seg "" || String.eqb seg "."); [by apply IH|].
    destruct (String.eqb seg ".."); [destruct acc as [|x acc']; [done|]|].
    + destruct (String.eqb x "..") eqn:Ex; apply IH; [by rewrite last_cons_cons|].
      destruct acc' as [|y acc']; [|by rewrite last_cons_cons in Hl].
      injection Hl as ->. discriminate.
    + apply IH. destruct acc; [done|]. by rewrite last_cons_cons.
Qed.

(** C34: [server.js] pastes the raw [number] into the credential path
    (server.js:27), so every [number] that starts with [/../../] passes the
    presence check (server.js:24) and names a credential directory outside
    the server's working directory: the credential store creates and writes
    it, and a later logout [fs.rmSync] deletes it recursively.  For
    [number=/../../tmp/x] that is [../tmp/x]. *)
Theorem server_pair_path_escapes (s : string) :
  Server.number_truthy (Server.SQString ("/../../" ++ s)%string) = true /\
  escapes_cwd (Server.pair_session_path (Server.SQString ("/../../" ++ s)%string)) = true.
Proof.
  split; [done|]. unfold escapes_cwd, resolve_relative. rewrite split_slash_escape.
  cbn [norm_segments String.eqb orb]. 
  pose proof (norm_segments_dotdot (split_slash s) [".."] eq_refl) as H.
  destruct (norm_segments [".."] (split_slash s)) as [|seg ?]; [done|]. injection H as ->. done.
Qed.

End PosixPath.
