(* ===== verification/App.v ===== *)
(** * App: the Express application of each server

    Before a request reaches a handler of [IndexServer] or [ServerJs] it
    goes through the middleware stack the file builds, in the order of its
    [app.use] and [app.get] calls:
    - index.js: [express.static(<dir>/public)] (index.js:21), [GET /]
      sending [<dir>/public/index.html] (index.js:85-87), [GET /pair]
      (index.js:90), [GET /qr] (index.js:142);
    - server.js: [express.static(<cwd>/public)] (server.js:15, with the
      [__dirname] of server.js:13, which is the working directory),
      [express.json()] (server.js:16), [GET /pair] (22), [GET /qr] (66).
    A request the stack does not answer gets Express's final 404.

    What the libraries do is modelled as Express 4 and serve-static
    document it, for what the routing depends on:
    - [express.static] answers [GET] and [HEAD] only; the URL path is
      normalised (empty and [.] segments dropped, [..] resolved); a path
      that climbs above the root or names a dot-file is refused, and a
      miss falls through to the next layer ([fallthrough] is on by
      default); a path ending in [/] names its [index.html].  The
      redirect of a directory path without trailing slash is not modelled
      (the public directories hold files).
    - [express.json()] only reads bodies of JSON requests; a [GET] of the
      two pages has none, and the layer passes it on.
    - [app.get(route)] also answers [HEAD]; with Express 4's defaults the
      match ignores case and makes the last [/] optional ([path-to-regexp]
      0.1, not strict: [^\/pair\/?$] for ['/pair'] and [^\/?$] for ['/'],
      with flag [i]).
    - [res.sendFile] of a missing file passes its [ENOENT] error (status
      404) to Express's final handler, which answers it as an error; a
      request no layer answers gets the final handler's own 404 ([Cannot
      GET <path>]).  The two are different outcomes.
    The public directory is a set of absolute file names. *)

From S2P Require Import Prelude JsText IndexServer Paths.
From Stdlib Require Import Ascii String.

Module App.
Import PairingCode PosixPath.



(** What a route handler does. *)
Inductive Handler :=
  | HSendFile (file : string)     (** [res.sendFile(file)] *)
  | HApi (rt : Index.Route).      (** the [/pair] or [/qr] handler *)

(** One layer of the stack. *)
Inductive Layer :=
  | LStatic (root : string)       (** [app.use(express.static(root))] *)
  | LJson                         (** [app.use(express.json())] *)
  | LGet (route : string) (h : Handler).   (** [app.get(route, h)] *)



(** ** serve-static *)




(** ** Express routing *)







(** ** The two applications *)


(** [path.resolve(path.dirname(''))] (server.js:13): [path.dirname('')]
    is ['.'], which resolves to the working directory [cwd]. *)
Definition server_dirname (cwd : string) : string := cwd.

Definition server_app (cwd : string) : list Layer :=
  [LStatic (server_dirname cwd ++ "/public")%string;
   LJson;
   LGet "/pair" (HApi Index.RPair);
   LGet "/qr" (HApi Index.RQr)].

(** ** The route [GET /] of index.js *)







End App.
