(* ===== verification/ServerInvariants.v ===== *)
(** * ServerInvariants: the invariants of [src/server.js] and its protocol

    The lemmas the properties of [ServerProps] are proved with:
    - frames: which parts of the world each update leaves alone; in
      particular Baileys' [end] (the [close] it emits) only changes the
      sockets and the credential directories;
    - the response invariant [sanswered] by rule induction on
      [Server.sreachable] (the shared statement of [Answered]);
    - the socket-table invariant [stables_ok] and what [end] does to each
      kind of socket;
    - the protocol [sphase_edge] of a request, [sstep_follows] (every step,
      from any state, moves every request along it) and its ranking;
    - [qr_stuck]: a QR request whose timer was cleared and whose socket is
      closed stays waiting forever. *)

From S2P Require Import Prelude JsText Emitter Answered Protocol IndexServer ServerJs.
From Stdlib Require Import ZArith.

Module ServerInvariants.
Import PairingCode Server.

(** ** Frames *)

(** [w'] differs from [w] in its credential directories at most. *)
Definition dirs_only (w w' : SWorld) : Prop := w' = sw_with_dirs (sw_dirs w') w.

Lemma dirs_only_refl (w : SWorld) : dirs_only w w.
Proof. by destruct w. Qed.

Lemma dirs_only_trans (w1 w2 w3 : SWorld) : dirs_only w1 w2 -> dirs_only w2 w3 -> dirs_only w1 w3.
Proof. unfold dirs_only. intros -> ->. reflexivity. Qed.

Lemma dirs_only_rm (p : string) (w : SWorld) : dirs_only w (rm_dir p w).
Proof. reflexivity. Qed.

(** A listener that sees a [close] without a [qr] touches the directories
    only. *)
Lemma srun_listener_close (e : option ErrInfo) (l : SListener) (w : SWorld) :
  dirs_only w (srun_listener (Index.EConnectionUpdate (close_update e)) l w).
Proof.
  destruct l; simpl; repeat case_match; (apply dirs_only_refl || apply dirs_only_rm).
Qed.

Lemma sdispatch_close (b : BotId) (e : option ErrInfo) (w : SWorld) :
  dirs_only w (sdispatch b (Index.EConnectionUpdate (close_update e)) w).
Proof.
  unfold sdispatch. case_match; [|apply dirs_only_refl].
  apply (dispatch_preserves (dirs_only w)); [|apply dirs_only_refl].
  intros l w0 _ H0. eapply dirs_only_trans; [exact H0 | apply srun_listener_close].
Qed.

(** Baileys' [end] changes the sockets and the directories only. *)
Lemma sock_end_frame (b : BotId) (e : option ErrInfo) (w : SWorld) :
  sw_reqs (sock_end b e w) = sw_reqs w /\ sw_out (sock_end b e w) = sw_out w /\
  sw_renders (sock_end b e w) = sw_renders w /\ sw_next_render (sock_end b e w) = sw_next_render w /\
  sw_now (sock_end b e w) = sw_now w /\ sw_unhandled (sock_end b e w) = sw_unhandled w.
Proof.
  unfold sock_end. destruct (sw_bots w !! b) as [bot|]; [|done].
  destruct (sbot_closed bot); [done|].
  pose proof (sdispatch_close b e w) as H. unfold dirs_only in H.
  set (w1 := sdispatch _ _ w) in *. rewrite H. done.
Qed.

(** ** Every request is answered at most once *)

Definition sfinished (q : SReq) : bool := bool_decide (sreq_phase q = SPhDone).

Definition sanswered (w : SWorld) : Prop := answered_once_in sfinished (sw_reqs w) (sw_out w).

Lemma sanswered_frame (w w' : SWorld) :
  sw_reqs w' = sw_reqs w -> sw_out w' = sw_out w -> sanswered w -> sanswered w'.
Proof. unfold sanswered. by intros -> ->. Qed.

Ltac sframe H := exact (sanswered_frame _ _ eq_refl eq_refl H).

Lemma sock_end_reqs (b : BotId) (e : option ErrInfo) (w : SWorld) : sw_reqs (sock_end b e w) = sw_reqs w.
Proof. apply sock_end_frame. Qed.

Lemma sock_end_out (b : BotId) (e : option ErrInfo) (w : SWorld) : sw_out (sock_end b e w) = sw_out w.
Proof. apply sock_end_frame. Qed.

Lemma sanswered_set_phase (r : ReqId) (ph : SPhase) (w : SWorld) :
  ph <> SPhDone -> sphase_of r w <> Some SPhDone -> sanswered w -> sanswered (sset_phase r ph w).
Proof.
  intros Hph Hr H. apply answered_once_in_alter; [|done].
  intros q Hq. unfold sphase_of in Hr. rewrite Hq in Hr. unfold sfinished. simpl.
  simpl in Hr. split; apply bool_decide_false; congruence.
Qed.

Lemma sanswered_respond (r : ReqId) (st : Z) (body : SBody) (w : SWorld) :
  is_Some (sphase_of r w) -> sphase_of r w <> Some SPhDone -> sanswered w ->
  sanswered (srespond r st body w).
Proof.
  intros [ph Hph] Hr H. unfold sphase_of in *.
  destruct (sw_reqs w !! r) as [q|] eqn:Hq; [|done].
  apply (answered_once_in_finish _ _ r q); [done | | done | done]; unfold sfinished; simpl.
  simpl in Hr. apply bool_decide_false. congruence.
Qed.

Lemma sanswered_sock_end (b : BotId) (e : option ErrInfo) (w : SWorld) :
  sanswered w -> sanswered (sock_end b e w).
Proof.
  destruct (sock_end_frame b e w) as (Hr & Ho & _). by apply sanswered_frame.
Qed.

Lemma sphase_of_sock_end (r : ReqId) (b : BotId) (e : option ErrInfo) (w : SWorld) :
  sphase_of r (sock_end b e w) = sphase_of r w.
Proof. unfold sphase_of. by rewrite (proj1 (sock_end_frame b e w)). Qed.

Lemma sanswered_run_listener (ev : Event) (l : SListener) (w : SWorld) :
  sanswered w -> sanswered (srun_listener ev l w).
Proof.
  intros H. destruct l, ev; simpl; try sframe H.
  - case_match; sframe H.
  - destruct (js_truthy _).
    + destruct (sphase_of r w) as [[]|] eqn:E; try sframe H.
      apply (sanswered_frame (sset_phase r (SPhAwaitingQr b0 None) w)); [done..|].
      apply sanswered_set_phase; [done | by rewrite E | done].
    + case_match; sframe H.
Qed.


(** Every input but the end of a QR rendering keeps the response
    invariant. *)
Lemma sanswered_step_other (w : SWorld) (i : SInput) (w' : SWorld) :
  sanswered w -> sstep w i = Some w' -> (forall k res, i <> SIRendered k res) -> sanswered w'.
Proof.
  intros H Hs Hi. destruct i as [r rt q|r res|b ev|dt|r|r res|r|k res]; simpl in Hs.
  - case_decide as Hr; [|done]. injection Hs as <-. unfold srequest_arrives, spair_arrives, sqr_arrives, sanswered.
    destruct rt; [destruct (number_truthy q)|]; simpl.
    all: first [ apply answered_once_in_insert; [done | reflexivity | done]
               | apply answered_once_in_insert_answered; [done | reflexivity | done] ].
  - unfold sauth_state_loaded, spair_auth_loaded, sqr_auth_loaded in Hs.
    destruct (sw_reqs w !! r) as [[rt []]|] eqn:E; try done. injection Hs as <-.
    assert (Hp : sphase_of r w = Some (SPhLoadingAuth path)) by (unfold sphase_of; by rewrite E).
    destruct res as [e|].
    + apply (sanswered_frame (sset_phase r SPhHung w)); [done..|].
      apply sanswered_set_phase; [done | by rewrite Hp | done].
    + destruct rt; apply sanswered_set_phase; try done; unfold sphase_of; simpl; by rewrite E.
  - unfold semit in Hs. destruct (sw_bots w !! b) as [bot|] eqn:Eb; [|done].
    destruct (sbot_closed bot); [done|]. injection Hs as <-.
    assert (Hd : sanswered (sdispatch b ev w)).
    { unfold sdispatch. rewrite Eb. apply dispatch_preserves; [|done].
      intros. by apply sanswered_run_listener. }
    destruct ev; try done. case_match; [by apply sanswered_sock_end | done].
  - case_bool_decide; [|done]. injection Hs as <-. sframe H.
  - unfold swake in Hs. destruct (sphase_of r w) as [[]|] eqn:E; try done.
    case_bool_decide; [|done]. injection Hs as <-.
    apply sanswered_set_phase; [done | by rewrite E | done].
  - unfold spairing_code_reply, spair_catch in Hs. destruct (sphase_of r w) as [[]|] eqn:E; try done.
    injection Hs as <-. destruct res; apply sanswered_respond; try (by rewrite E); done.
  - unfold sfire, sqr_catch in Hs. destruct (sphase_of r w) as [[| | |? [d|]| |]|] eqn:E; try done.
    case_bool_decide; [|done]. injection Hs as <-.
    apply sanswered_respond; rewrite ?sphase_of_sock_end, ?E; [done | done |].
    by apply sanswered_sock_end.
  - by destruct (Hi k res).
Qed.


(** ** The sockets and their listener tables *)

(** Request [r] waits on [qrPromise] for the socket [b]. *)
Definition awaiting (r : ReqId) (b : BotId) (w : SWorld) : Prop :=
  exists t, sphase_of r w = Some (SPhAwaitingQr b t).

(** Socket numbers are fresh; an open socket carries the table its handler
    gave it, a QR socket for a request still waiting on it; a waiting
    request's socket exists; a rendering in flight belongs to a request
    that waits on its socket or has been answered. *)
Definition stables_ok (w : SWorld) : Prop :=
  (forall b, (sw_next_bot w <= b)%nat -> sw_bots w !! b = None) /\
  (forall b bot, sw_bots w !! b = Some bot -> sbot_closed bot = false ->
     (exists p, sbot_ev bot = pair_table p) \/
     (exists p r, sbot_ev bot = qr_table p r b /\ awaiting r b w)) /\
  (forall r b, awaiting r b w -> exists bot, sw_bots w !! b = Some bot /\
     (sbot_closed bot = false -> exists p, sbot_ev bot = qr_table p r b)) /\
  (forall k r b cl, sw_renders w !! k = Some (mkRender r b cl) ->
     awaiting r b w \/ sphase_of r w = Some SPhDone).

Lemma listeners_pair_table (p : string) :
  listeners Index.ConnectionUpdate (pair_table p) = [SLPairConn p].
Proof. reflexivity. Qed.

Lemma listeners_qr_table (p : string) (r : ReqId) (b : BotId) :
  listeners Index.ConnectionUpdate (qr_table p r b) = [SLQrConn r b].
Proof. reflexivity. Qed.

(** An update that keeps the sockets, the renderings, which request waits
    on which socket, and the finished requests. *)
Lemma stables_ok_same (w w' : SWorld) :
  sw_bots w' = sw_bots w -> sw_next_bot w' = sw_next_bot w -> sw_renders w' = sw_renders w ->
  (forall r b, awaiting r b w' <-> awaiting r b w) ->
  (forall r, sphase_of r w = Some SPhDone -> sphase_of r w' = Some SPhDone) ->
  stables_ok w -> stables_ok w'.
Proof.
  intros Hb Hn Hr Ha Hd (H1 & H2 & H3 & H4). unfold stables_ok. rewrite Hb, Hn, Hr.
  split; [done|]. split; [|split].
  - intros b bot Eb Ec. destruct (H2 b bot Eb Ec) as [?|(p & r & ? & ?)]; [by left|].
    right. exists p, r. by rewrite Ha.
  - intros r b. rewrite Ha. apply H3.
  - intros k r b cl Ek. rewrite Ha. destruct (H4 k r b cl Ek); [by left | right; auto].
Qed.

Lemma stables_ok_frame (w w' : SWorld) :
  sw_bots w' = sw_bots w -> sw_next_bot w' = sw_next_bot w -> sw_renders w' = sw_renders w ->
  sw_reqs w' = sw_reqs w -> stables_ok w -> stables_ok w'.
Proof.
  intros Hb Hn Hr Hq. apply stables_ok_same; [done..| |];
    unfold awaiting, sphase_of; rewrite Hq; done.
Qed.

Ltac stables_frame H := exact (stables_ok_frame _ _ eq_refl eq_refl eq_refl eq_refl H).

(** A phase change between two phases that are not [qrPromise] waits. *)
Lemma stables_ok_set_phase (r : ReqId) (ph : SPhase) (w : SWorld) :
  (forall b t, ph <> SPhAwaitingQr b t) ->
  (forall b t, sphase_of r w <> Some (SPhAwaitingQr b t)) ->
  (sphase_of r w = Some SPhDone -> ph = SPhDone) ->
  stables_ok w -> stables_ok (sset_phase r ph w).
Proof.
  intros Hph Hr Hd. apply stables_ok_same; [done..| |].
  - intros r' b. unfold awaiting, sphase_of, sset_phase. simpl. rewrite lookup_alter.
    case_decide; [subst r'|done]. unfold sphase_of in *.
    destruct (sw_reqs w !! r); simpl in *; [|done].
    split; intros [t Ht]; exfalso; [apply (Hph b t) | apply (Hr b t)]; congruence.
  - intros r'. unfold sphase_of, sset_phase. simpl. rewrite lookup_alter.
    case_decide; [subst r'|done]. unfold sphase_of in *.
    destruct (sw_reqs w !! r); simpl in *; naive_solver.
Qed.

Lemma stables_ok_add_request (r : ReqId) (rt : Route) (ph : SPhase) (w : SWorld) :
  sw_reqs w !! r = None -> (forall b t, ph <> SPhAwaitingQr b t) ->
  stables_ok w -> stables_ok (sadd_request r rt ph w).
Proof.
  intros Hr Hph. apply stables_ok_same; [done..| |].
  - intros r' b. unfold awaiting, sphase_of, sadd_request. simpl.
    destruct (decide (r = r')) as [<-|]; [rewrite lookup_insert_eq, Hr|by rewrite lookup_insert_ne].
    naive_solver.
  - intros r'. unfold sphase_of, sadd_request. simpl.
    destruct (decide (r = r')) as [<-|]; [by rewrite Hr | by rewrite lookup_insert_ne].
Qed.

Lemma awaiting_unique (r : ReqId) (b b' : BotId) (w : SWorld) :
  awaiting r b w -> awaiting r b' w -> b = b'.
Proof. intros [t Ht] [t' Ht']. congruence. Qed.

Lemma qr_table_inj (p p' : string) (r r' : ReqId) (b b' : BotId) :
  qr_table p r b = qr_table p' r' b' -> r = r' /\ b = b'.
Proof. unfold qr_table, on. simpl. intros E. injection E. done. Qed.

Lemma pair_qr_table_ne (p p' : string) (r : ReqId) (b : BotId) : pair_table p <> qr_table p' r b.
Proof. unfold pair_table, qr_table, on. simpl. congruence. Qed.

(** Closing a socket, whatever is done to its table. *)
Lemma stables_ok_close_bot (b : BotId) (f : SBot -> Emitter EventName SListener) (w : SWorld) :
  stables_ok w -> stables_ok (sbot_update b (fun bot => mkSBot (f bot) true) w).
Proof.
  intros (H1 & H2 & H3 & H4). unfold stables_ok, sbot_update, awaiting, sphase_of. simpl.
  split; [|split; [|split]]; [| | |done].
  - intros b' Hb'. rewrite lookup_alter_None. by apply H1.
  - intros b' bot. rewrite lookup_alter. case_decide; [subst b'|apply H2].
    destruct (sw_bots w !! b); simpl; intros E Ec; [injection E as <-; discriminate | discriminate].
  - intros r b' Ha. destruct (H3 r b' Ha) as (bot & Eb & Ht).
    rewrite lookup_alter. case_decide; [subst b'|eauto]. rewrite Eb. simpl. eexists; split; [done|]. done.
Qed.

Lemma sock_end_closes (b : BotId) (e : option ErrInfo) (w : SWorld) (bot : SBot) :
  sw_bots (sock_end b e w) !! b = Some bot -> sbot_closed bot = true.
Proof.
  unfold sock_end. destruct (sw_bots w !! b) as [bot0|] eqn:E; [|congruence].
  destruct (sbot_closed bot0) eqn:Ec; [congruence|].
  pose proof (sdispatch_close b e w) as H. unfold dirs_only in H.
  unfold sbot_update. rewrite H. simpl. rewrite lookup_alter_eq, E. simpl. by intros [= <-].
Qed.

Lemma stables_ok_sock_end (b : BotId) (e : option ErrInfo) (w : SWorld) :
  stables_ok w -> stables_ok (sock_end b e w).
Proof.
  intros H. unfold sock_end. destruct (sw_bots w !! b) as [bot|]; [|done].
  destruct (sbot_closed bot); [done|]. apply stables_ok_close_bot.
  pose proof (sdispatch_close b e w) as Hd. unfold dirs_only in Hd. rewrite Hd. stables_frame H.
Qed.

(** Answering a request that waits on a closed socket. *)
Lemma stables_ok_finish (r : ReqId) (b : BotId) (st : Z) (body : SBody) (w : SWorld) :
  awaiting r b w -> (forall bot, sw_bots w !! b = Some bot -> sbot_closed bot = true) ->
  stables_ok w -> stables_ok (srespond r st body w).
Proof.
  intros Ha Hc (H1 & H2 & H3 & H4).
  assert (Hph : forall r', sphase_of r' (srespond r st body w) =
                           if decide (r = r') then Some SPhDone else sphase_of r' w).
  { intros r'. unfold sphase_of, srespond, ssend, sset_phase. simpl. rewrite lookup_alter.
    destruct Ha as [t Ht]. unfold sphase_of in Ht.
    case_decide; subst; [destruct (sw_reqs w !! r'); simplify_eq/=|]; done. }
  assert (Haw : forall r' b', awaiting r' b' (srespond r st body w) <-> r <> r' /\ awaiting r' b' w).
  { intros r' b'. unfold awaiting. rewrite Hph. case_decide; naive_solver. }
  split; [done|]. split; [|split].
  - intros b' bot Eb Ec. destruct (H2 b' bot Eb Ec) as [?|(p & r' & Et & Ha')]; [by left|].
    right. exists p, r'. split; [done|]. apply Haw. split; [|done]. intros <-.
    rewrite (awaiting_unique r b' b w Ha' Ha) in Eb. specialize (Hc bot Eb). congruence.
  - intros r' b'. rewrite Haw. intros [_ ?]. by apply H3.
  - intros k r' b' cl Ek. rewrite Haw, Hph. destruct (H4 k r' b' cl Ek); case_decide; naive_solver.
Qed.

(** The QR listener: the timer is cleared and a rendering starts. *)
Lemma stables_ok_qr_conn (r : ReqId) (b : BotId) (u : Update) (w : SWorld) :
  awaiting r b w -> stables_ok w -> stables_ok (qr_conn_update r b u w).
Proof.
  intros [t Ht] H. unfold qr_conn_update. rewrite Ht.
  destruct (js_truthy _); [|destruct (is_conn_close u); [|done]; stables_frame H].
  set (w1 := sset_phase r (SPhAwaitingQr b None) w).
  assert (Haw : forall r' b', awaiting r' b' w1 <-> awaiting r' b' w).
  { intros r' b'. unfold awaiting, w1, sphase_of, sset_phase. simpl. rewrite lookup_alter.
    unfold sphase_of in Ht. case_decide; [subst r'|done].
    destruct (sw_reqs w !! r); cbn in *; [|discriminate].
    split; intros [t0 E]; [exists t | exists None]; congruence. }
  assert (H1 : stables_ok w1).
  { apply (stables_ok_same w); [done..| |done]. intros r'. unfold w1, sphase_of, sset_phase. simpl.
    rewrite lookup_alter. unfold sphase_of in Ht. case_decide; [subst; by rewrite Ht|done]. }
  destruct H1 as (H1 & H2 & H3 & H4). split; [done|]. split; [|split]; [done..|].
  intros k r' b' cl. simpl. rewrite lookup_insert. case_decide; [|apply H4].
  intros [= <- <- _]. left. apply Haw. by exists t.
Qed.

(** A new socket under a fresh number. *)
Lemma new_socket_next (ev : Emitter EventName SListener) (w : SWorld) :
  sw_next_bot (new_socket ev w).1 = S (sw_next_bot w).
Proof. reflexivity. Qed.

Lemma new_socket_lookup (ev : Emitter EventName SListener) (w : SWorld) (b : BotId) :
  sw_bots (new_socket ev w).1 !! b =
  if decide (b = sw_next_bot w) then Some (mkSBot ev false) else sw_bots w !! b.
Proof.
  unfold new_socket. simpl. case_decide; [subst; apply lookup_insert_eq|by apply lookup_insert_ne].
Qed.

Lemma stables_ok_new_pair (p : string) (w : SWorld) :
  stables_ok w -> stables_ok (new_socket (pair_table p) w).1.
Proof.
  intros (H1 & H2 & H3 & H4). split; [|split; [|split]]; [| | |done].
  - intros b Hb. rewrite new_socket_next in Hb. rewrite new_socket_lookup, decide_False by lia.
    apply H1. lia.
  - intros b bot. rewrite new_socket_lookup. case_decide; [intros [= <-] _; left; by exists p|apply H2].
  - intros r b Ha. destruct (H3 r b Ha) as (bot & Eb & Ht). exists bot.
    rewrite new_socket_lookup, decide_False; [done|]. intros ->. by rewrite H1 in Eb.
Qed.

Lemma sphase_of_sset_phase (r r' : ReqId) (ph : SPhase) (w : SWorld) :
  sphase_of r' (sset_phase r ph w) =
  if decide (r = r') then (fun _ => ph) <$> sphase_of r w else sphase_of r' w.
Proof.
  unfold sphase_of, sset_phase. simpl. rewrite lookup_alter.
  case_decide; [subst; by destruct (sw_reqs w !! r')|done].
Qed.

(** The QR handler after its credentials load: a new socket with the QR
    table, and the request waits on it. *)
Lemma stables_ok_new_qr (r : ReqId) (path : string) (d : option Z) (w : SWorld) :
  sphase_of r w = Some (SPhLoadingAuth path) -> stables_ok w ->
  stables_ok (sset_phase r (SPhAwaitingQr (sw_next_bot w) d)
                (new_socket (qr_table path r (sw_next_bot w)) w).1).
Proof.
  intros Hr (H1 & H2 & H3 & H4). set (b := sw_next_bot w).
  set (w2 := sset_phase r _ _).
  assert (Hph : forall r', sphase_of r' w2 = if decide (r = r') then Some (SPhAwaitingQr b d) else sphase_of r' w).
  { intros r'. unfold w2. rewrite sphase_of_sset_phase. unfold sphase_of at 1. simpl.
    fold (sphase_of r w). rewrite Hr. done. }
  assert (Haw : forall r' b', awaiting r' b' w2 <-> (r = r' /\ b' = b) \/ awaiting r' b' w).
  { intros r' b'. unfold awaiting. rewrite Hph. case_decide; [subst r'; rewrite Hr|]; naive_solver. }
  assert (Hne : forall r' b', awaiting r' b' w -> r <> r').
  { intros r' b' [t Ht] <-. congruence. }
  split; [|split; [|split]].
  - intros b' Hb'. unfold w2, sset_phase in *. cbn [sw_bots sw_next_bot sw_with_reqs] in *.
    rewrite new_socket_next in Hb'. rewrite new_socket_lookup, decide_False by lia. apply H1. lia.
  - intros b' bot. unfold w2, sset_phase. cbn [sw_bots sw_with_reqs].
    rewrite new_socket_lookup. case_decide as Eb'.
    + intros [= <-] _. right. exists path, r. split; [by subst|]. apply Haw. by left.
    + intros Eb Ec. destruct (H2 b' bot Eb Ec) as [?|(p & r' & ? & ?)]; [by left|].
      right. exists p, r'. split; [done|]. apply Haw. by right.
  - intros r' b'. rewrite Haw. unfold w2, sset_phase. cbn [sw_bots sw_with_reqs]. intros [[<- ->]|Ha].
    + rewrite new_socket_lookup, decide_True by done. eexists; split; [done|]. by exists path.
    + destruct (H3 r' b' Ha) as (bot & Eb & Ht). exists bot. rewrite new_socket_lookup, decide_False; [done|].
      intros ->. by rewrite H1 in Eb.
  - intros k r' b' cl Ek. rewrite Haw, Hph. destruct (H4 k r' b' cl Ek) as [Ha|Hd].
    + left. by right.
    + right. rewrite decide_False; [done|]. intros <-. congruence.
Qed.

(** The [connection.update] listeners of an open socket: the [/pair]
    listener, or the QR listener of the request waiting on it. *)
Lemma open_conn_listener (w : SWorld) (b : BotId) (bot : SBot) (l : SListener) :
  stables_ok w -> sw_bots w !! b = Some bot -> sbot_closed bot = false ->
  l ∈ listeners Index.ConnectionUpdate (sbot_ev bot) ->
  (exists p, l = SLPairConn p) \/ (exists r, l = SLQrConn r b /\ awaiting r b w).
Proof.
  intros (_ & H2 & _) Eb Ec Hl. destruct (H2 b bot Eb Ec) as [[p Ep]|(p & r & Ep & Ha)];
    rewrite Ep in Hl; [rewrite listeners_pair_table in Hl|rewrite listeners_qr_table in Hl];
    apply list_elem_of_singleton in Hl; subst l; eauto.
Qed.

(** An emission on an open socket: its listeners run on a snapshot, and
    the sockets do not change while they run. *)
Lemma stables_ok_run_listener (b : BotId) (bot : SBot) (ev : Event) (l : SListener) (w : SWorld) :
  sw_bots w !! b = Some bot -> sbot_closed bot = false ->
  l ∈ listeners (Index.event_name ev) (sbot_ev bot) ->
  stables_ok w -> stables_ok (srun_listener ev l w) /\ sw_bots (srun_listener ev l w) = sw_bots w /\
                   sw_next_bot (srun_listener ev l w) = sw_next_bot w.
Proof.
  intros Eb Ec Hl H. destruct l as [p|p|r b'], ev as [|u|]; try done; simpl.
  - destruct (_ && _); [|done]. split; [stables_frame H|done].
  - destruct (open_conn_listener w b bot _ H Eb Ec Hl) as [[? ?]|(r' & [= <- <-] & Ha)]; [done|].
    split; [by apply stables_ok_qr_conn|]. unfold qr_conn_update.
    destruct (js_truthy _); [|by destruct (is_conn_close u)].
    by destruct (sphase_of r w) as [[]|].
Qed.

Lemma stables_ok_sdispatch (b : BotId) (bot : SBot) (ev : Event) (w : SWorld) :
  sw_bots w !! b = Some bot -> sbot_closed bot = false ->
  stables_ok w -> stables_ok (sdispatch b ev w).
Proof.
  intros Eb Ec H. unfold sdispatch. rewrite Eb.
  apply (dispatch_preserves (fun w' => stables_ok w' /\ sw_bots w' = sw_bots w /\ sw_next_bot w' = sw_next_bot w));
    [|done].
  intros l w0 Hl (H0 & Hb0 & Hn0). rewrite <- Hb0 in Eb.
  destruct (stables_ok_run_listener b bot ev l w0 Eb Ec Hl H0) as (? & -> & ->). done.
Qed.

Lemma stables_ok_delete_render (k : nat) (w : SWorld) :
  stables_ok w -> stables_ok (sw_with_renders (delete k (sw_renders w)) w).
Proof.
  intros (H1 & H2 & H3 & H4). split; [done|]. split; [done|]. split; [done|].
  intros k' r b cl. simpl. rewrite lookup_delete_Some. intros [_ Ek]. exact (H4 k' r b cl Ek).
Qed.

(** A rendering finishes. *)
Lemma stables_ok_rendered (w : SWorld) (k : nat) (res : string + ErrInfo) (w' : SWorld) :
  stables_ok w -> srendered k res w = Some w' -> stables_ok w'.
Proof.
  intros H Hs. unfold srendered in Hs. destruct (sw_renders w !! k) as [[r b cl]|] eqn:Ek; [|done].
  injection Hs as <-. set (w0 := sw_with_renders _ w).
  assert (H0 : stables_ok w0) by by apply stables_ok_delete_render.
  destruct res as [qrImage|]; [|stables_frame H0].
  set (w1 := sock_end b None w0).
  set (w2 := if cl then rm_dir qr_session_path w1 else w1).
  assert (H2 : stables_ok w2) by (destruct cl; [stables_frame (stables_ok_sock_end b None w0 H0)|by apply stables_ok_sock_end]).
  assert (Hb2 : forall bot, sw_bots w2 !! b = Some bot -> sbot_closed bot = true)
    by (destruct cl; apply sock_end_closes).
  assert (Hph : sphase_of r w2 = sphase_of r w0) by (destruct cl; apply sphase_of_sock_end).
  destruct (sphase_of r w0) as [[| | |b' t| |]|] eqn:E; try done.
  apply (stables_ok_finish r b); [|done|done]. exists t. rewrite Hph.
  destruct H as (_ & _ & _ & H4). destruct (H4 k r b cl Ek) as [[t' Ht']|Hd];
    unfold sphase_of in *; simpl in *; congruence.
Qed.

Lemma stables_ok_step (w : SWorld) (i : SInput) (w' : SWorld) :
  stables_ok w -> sstep w i = Some w' -> stables_ok w'.
Proof.
  intros H Hs. destruct i as [r rt q|r res|b ev|dt|r|r res|r|k res]; simpl in Hs.
  - case_decide as Hr; [|done]. injection Hs as <-. unfold srequest_arrives, spair_arrives, sqr_arrives.
    destruct rt; [destruct (number_truthy q)|].
    2: apply (stables_ok_frame (sadd_request r Index.RPair SPhDone w)); [done..|].
    all: apply stables_ok_add_request; done.
  - unfold sauth_state_loaded, spair_auth_loaded, sqr_auth_loaded in Hs.
    destruct (sw_reqs w !! r) as [[rt []]|] eqn:E; try done. injection Hs as <-.
    assert (Hp : forall w0, sw_reqs w0 = sw_reqs w -> sphase_of r w0 = Some (SPhLoadingAuth path))
      by (intros w0 Hw0; unfold sphase_of; by rewrite Hw0, E).
    destruct res as [e|].
    + apply (stables_ok_frame (sset_phase r SPhHung w)); [done..|].
      apply stables_ok_set_phase; rewrite ?Hp; done.
    + set (w0 := sw_with_dirs ({[path]} ∪ sw_dirs w) w). assert (H0 : stables_ok w0) by stables_frame H.
      destruct rt.
      * apply stables_ok_set_phase; rewrite ?Hp; try done. by apply stables_ok_new_pair.
      * by apply stables_ok_new_qr; [apply Hp|].
  - unfold semit in Hs. destruct (sw_bots w !! b) as [bot|] eqn:Eb; [|done].
    destruct (sbot_closed bot) eqn:Ec; [done|]. injection Hs as <-.
    destruct ev; try (by eapply stables_ok_sdispatch).
    case_match; [by apply stables_ok_sock_end | by eapply stables_ok_sdispatch].
  - case_bool_decide; [|done]. injection Hs as <-. stables_frame H.
  - unfold swake in Hs. destruct (sphase_of r w) as [[]|] eqn:E; try done.
    case_bool_decide; [|done]. injection Hs as <-. apply stables_ok_set_phase; rewrite ?E; done.
  - unfold spairing_code_reply, spair_catch in Hs. destruct (sphase_of r w) as [[]|] eqn:E; try done.
    injection Hs as <-.
    assert (H1 : forall st body, stables_ok (srespond r st body w)).
    { intros st body. apply (stables_ok_frame (sset_phase r SPhDone w)); [done..|].
      apply stables_ok_set_phase; rewrite ?E; done. }
    by destruct res.
  - unfold sfire, sqr_catch in Hs. destruct (sphase_of r w) as [[| | |b [d|]| |]|] eqn:E; try done.
    case_bool_decide; [|done]. injection Hs as <-.
    apply (stables_ok_finish r b); [exists (Some d); by rewrite sphase_of_sock_end | apply sock_end_closes |].
    by apply stables_ok_sock_end.
  - by apply (stables_ok_rendered w k res).
Qed.

Lemma stables_ok_reachable (w : SWorld) : sreachable w -> stables_ok w.
Proof.
  induction 1 as [|w i w' Hw IH Hs]; [|by eapply stables_ok_step].
  unfold stables_ok, awaiting, sphase_of, sinit. cbn [sw_bots sw_reqs sw_renders].
  setoid_rewrite lookup_empty. naive_solver.
Qed.

(** ** Baileys' [end] on the two kinds of socket *)

Definition close_bot (bot : SBot) : SBot :=
  mkSBot (removeAllListeners Index.ConnectionUpdate (sbot_ev bot)) true.

Lemma sock_end_qr (b : BotId) (bot : SBot) (p : string) (r : ReqId) (e : option ErrInfo) (w : SWorld) :
  sw_bots w !! b = Some bot -> sbot_closed bot = false -> sbot_ev bot = qr_table p r b ->
  sock_end b e w = sbot_update b close_bot (rm_dir qr_session_path w).
Proof.
  intros Eb Ec Et. unfold sock_end, sdispatch. rewrite Eb, Ec, Et, listeners_qr_table. reflexivity.
Qed.

Lemma sock_end_pair (b : BotId) (bot : SBot) (p : string) (e : option ErrInfo) (w : SWorld) :
  sw_bots w !! b = Some bot -> sbot_closed bot = false -> sbot_ev bot = pair_table p ->
  sock_end b e w = sbot_update b close_bot (pair_conn_update p (close_update e) w).
Proof.
  intros Eb Ec Et. unfold sock_end, sdispatch. rewrite Eb, Ec, Et, listeners_pair_table. reflexivity.
Qed.

Lemma close_bot_lookup (b : BotId) (bot : SBot) (w : SWorld) :
  sw_bots w !! b = Some bot ->
  sw_bots (sbot_update b close_bot w) !! b = Some (close_bot bot).
Proof. intros Eb. unfold sbot_update. simpl. by rewrite lookup_alter_eq, Eb. Qed.

(** The QR socket of a waiting request, while it is open, has the QR
    table. *)
Lemma awaiting_qr_table (r : ReqId) (b : BotId) (t : option Z) (bot : SBot) (w : SWorld) :
  stables_ok w -> sphase_of r w = Some (SPhAwaitingQr b t) ->
  sw_bots w !! b = Some bot -> sbot_closed bot = false -> exists p, sbot_ev bot = qr_table p r b.
Proof.
  intros (_ & _ & H3 & _) Ht Eb Ec. destruct (H3 r b) as (bot' & Eb' & Hq); [by exists t|].
  rewrite Eb in Eb'. injection Eb' as <-. by apply Hq.
Qed.

(** ** The protocol every request follows *)

(** The moves of one request of server.js between the suspension points
    of its handler: credentials, then the 2 s delay and the pairing code
    ([/pair]) or the QR wait, whose timer the first [qr] clears ([/qr]);
    [SPhDone] and [SPhHung] have no successor. *)
Inductive sphase_edge : SPhase -> SPhase -> Prop :=
  | sedge_auth_fail p : sphase_edge (SPhLoadingAuth p) SPhHung
  | sedge_pair_socket p b t : sphase_edge (SPhLoadingAuth p) (SPhSleeping b t)
  | sedge_qr_socket p b d : sphase_edge (SPhLoadingAuth p) (SPhAwaitingQr b (Some d))
  | sedge_wake b t : sphase_edge (SPhSleeping b t) (SPhRequesting b)
  | sedge_code b : sphase_edge (SPhRequesting b) SPhDone
  | sedge_qr_seen b d : sphase_edge (SPhAwaitingQr b (Some d)) (SPhAwaitingQr b None)
  | sedge_timeout b d : sphase_edge (SPhAwaitingQr b (Some d)) SPhDone
  | sedge_rendered b t : sphase_edge (SPhAwaitingQr b t) SPhDone.

(** A request starts loading its credentials, or is answered 400 at once. *)
Definition sinitial_phase (ph : SPhase) : Prop := (exists p, ph = SPhLoadingAuth p) \/ ph = SPhDone.

Abbreviation sadvances := (advances sphase_of sphase_edge).
Abbreviation sfollows := (follows sphase_of sphase_edge sinitial_phase).

Lemma sadvances_frame (w w' : SWorld) : sw_reqs w' = sw_reqs w -> sadvances w w'.
Proof. intros E. apply advances_same. intros r. unfold sphase_of. by rewrite E. Qed.

Ltac sadvances_frame := apply sadvances_frame; reflexivity.

Lemma sadvances_set_phase (r : ReqId) (ph : SPhase) (w : SWorld) :
  (forall p, sphase_of r w = Some p -> rtc sphase_edge p ph) -> sadvances w (sset_phase r ph w).
Proof.
  intros He. split; intros r'; rewrite sphase_of_sset_phase; case_decide; subst; try done.
  - intros p Hp. exists ph. rewrite Hp. split; [done|]. by apply He.
  - intros p Hp. exists p. split; [done | apply rtc_refl].
  - intros ->. done.
Qed.

Lemma sadvances_respond (r : ReqId) (st : Z) (body : SBody) (w : SWorld) :
  (forall p, sphase_of r w = Some p -> sphase_edge p SPhDone) -> sadvances w (srespond r st body w).
Proof.
  intros He. apply (advances_trans _ (sset_phase r SPhDone w)); [|sadvances_frame].
  apply sadvances_set_phase. intros p Hp. by apply rtc_once, He.
Qed.

Lemma sadvances_sock_end (b : BotId) (e : option ErrInfo) (w : SWorld) : sadvances w (sock_end b e w).
Proof. apply advances_same. intros r. apply sphase_of_sock_end. Qed.

(** The first [qr] clears the timer of a waiting request: one move, or
    none when it is already cleared. *)
Lemma awaiting_clear_rtc (b : BotId) (t : option Z) : rtc sphase_edge (SPhAwaitingQr b t) (SPhAwaitingQr b None).
Proof. destruct t; [apply rtc_once; constructor | apply rtc_refl]. Qed.

Lemma sadvances_run_listener (ev : Event) (l : SListener) (w : SWorld) : sadvances w (srun_listener ev l w).
Proof.
  destruct l as [p|p|r b], ev as [|u|]; simpl; try sadvances_frame.
  - case_match; sadvances_frame.
  - destruct (js_truthy _); [|destruct (is_conn_close u); sadvances_frame].
    set (w1 := match sphase_of r w with Some (SPhAwaitingQr _ _) => _ | _ => w end).
    apply (advances_trans _ w1); [|sadvances_frame]. subst w1.
    destruct (sphase_of r w) as [[]|] eqn:E; try (apply advances_same; done).
    apply sadvances_set_phase. rewrite E. intros ? [= <-]. apply awaiting_clear_rtc.
Qed.

Lemma sadvances_sdispatch (b : BotId) (ev : Event) (w : SWorld) : sadvances w (sdispatch b ev w).
Proof.
  unfold sdispatch. destruct (sw_bots w !! b) as [bot|]; [|by apply advances_same].
  apply (dispatch_preserves (sadvances w)); [|by apply advances_same].
  intros l w0 _ H0. eapply advances_trans; [exact H0 | apply sadvances_run_listener].
Qed.

(** Every input but a request moves the requests along the protocol. *)
Lemma sadvances_step (w : SWorld) (i : SInput) (w' : SWorld) :
  sstep w i = Some w' -> (forall r rt q, i <> SIRequest r rt q) -> sadvances w w'.
Proof.
  intros Hs Hi. destruct i as [r rt q|r res|b ev|dt|r|r res|r|k res]; simpl in Hs.
  - by destruct (Hi r rt q).
  - unfold sauth_state_loaded, spair_auth_loaded, sqr_auth_loaded in Hs. destruct (sw_reqs w !! r) as [[rt []]|] eqn:E; try done.
    injection Hs as <-. assert (Hp : forall w0, sw_reqs w0 = sw_reqs w -> sphase_of r w0 = Some (SPhLoadingAuth path))
      by (intros w0 Hw0; unfold sphase_of; by rewrite Hw0, E).
    destruct res; [eapply advances_trans; [apply sadvances_set_phase|sadvances_frame]|].
    1: rewrite (Hp w) by done; intros ? [= <-]; apply rtc_once; constructor.
    destruct rt; (eapply advances_trans; [|apply sadvances_set_phase; rewrite Hp by done; intros ? [= <-]; apply rtc_once; constructor]);
      sadvances_frame.
  - unfold semit in Hs. destruct (sw_bots w !! b) as [bot|]; [|done].
    destruct (sbot_closed bot); [done|]. injection Hs as <-.
    destruct ev; try apply sadvances_sdispatch. case_match; [apply sadvances_sock_end | apply sadvances_sdispatch].
  - case_bool_decide; [|done]. injection Hs as <-. sadvances_frame.
  - unfold swake in Hs. destruct (sphase_of r w) as [[]|] eqn:E; try done.
    case_bool_decide; [|done]. injection Hs as <-.
    apply sadvances_set_phase. rewrite E. intros ? [= <-]. apply rtc_once. constructor.
  - unfold spairing_code_reply, spair_catch in Hs. destruct (sphase_of r w) as [[]|] eqn:E; try done.
    injection Hs as <-. destruct res; apply sadvances_respond; rewrite E; intros ? [= <-]; constructor.
  - unfold sfire, sqr_catch in Hs. destruct (sphase_of r w) as [[| | |b [d|]| |]|] eqn:E; try done.
    case_bool_decide; [|done]. injection Hs as <-.
    eapply advances_trans; [apply sadvances_sock_end|]. apply sadvances_respond.
    rewrite sphase_of_sock_end, E. intros ? [= <-]. constructor.
  - unfold srendered in Hs. destruct (sw_renders w !! k) as [[r b cl]|]; [|done].
    injection Hs as <-. set (w0 := sw_with_renders _ w).
    apply (advances_trans _ w0); [sadvances_frame|]. destruct res; [|sadvances_frame].
    set (w2 := if cl then rm_dir qr_session_path (sock_end b None w0) else sock_end b None w0).
    assert (H2 : sadvances w0 w2 /\ forall r0, sphase_of r0 w2 = sphase_of r0 w0).
    { split; [apply advances_same|]; intros; destruct cl; apply sphase_of_sock_end. }
    destruct H2 as [H2 E2]. destruct (sphase_of r w0) as [[]|] eqn:E; try exact H2.
    apply (advances_trans _ w2); [done|]. apply sadvances_respond. rewrite E2, E. intros ? [= <-]. constructor.
Qed.

(** The arrival of request [r]: the others keep their phase, [r] starts in
    an initial phase. *)
Lemma srequest_arrives_phases (w : SWorld) (r : ReqId) (rt : Route) (q : SQuery) (r' : ReqId) :
  sw_reqs w !! r = None -> r <> r' -> sphase_of r' (srequest_arrives r rt q w) = sphase_of r' w.
Proof.
  intros Hr Hne. unfold srequest_arrives, spair_arrives, sqr_arrives, sphase_of.
  destruct rt; [destruct (number_truthy q)|]; simpl; by rewrite lookup_insert_ne.
Qed.

Lemma srequest_arrives_initial (w : SWorld) (r : ReqId) (rt : Route) (q : SQuery) :
  exists ph, sphase_of r (srequest_arrives r rt q w) = Some ph /\ sinitial_phase ph.
Proof.
  unfold srequest_arrives, spair_arrives, sqr_arrives, sphase_of, sinitial_phase.
  destruct rt; [destruct (number_truthy q)|]; simpl; rewrite lookup_insert_eq; eauto.
Qed.

(** Every step follows the protocol, from any world. *)
Lemma sstep_follows (w : SWorld) (i : SInput) (w' : SWorld) : sstep w i = Some w' -> sfollows w w'.
Proof.
  intros Hs. destruct i as [r rt q|? ?|? ?|?|?|? ?|?|? ?].
  2-8: apply advances_follows; apply (sadvances_step w _ w' Hs); by intros ? ? ? [=].
  simpl in Hs. case_decide as Hr; [|done]. injection Hs as <-. apply follows_arrival.
  - intros r' ph Hp. rewrite srequest_arrives_phases; [done..|]. intros <-. unfold sphase_of in Hp. by rewrite Hr in Hp.
  - intros r' ph' Hn Hp. destruct (decide (r = r')) as [<-|Hne].
    + destruct (srequest_arrives_initial w r rt q) as (ph & Hph & Hi). rewrite Hph in Hp. by injection Hp as <-.
    + rewrite srequest_arrives_phases in Hp by done. congruence.
Qed.

(** ** Finished handlers stay finished *)

Definition sfinal (ph : SPhase) : Prop := ph = SPhHung \/ ph = SPhDone.

Lemma sfinal_phase_stable (w : SWorld) (i : SInput) (w' : SWorld) (r : ReqId) (ph : SPhase) :
  sphase_of r w = Some ph -> sfinal ph -> sstep w i = Some w' -> sphase_of r w' = Some ph.
Proof.
  intros Hr Hf Hs. destruct (sstep_follows w i w' Hs) as [Ha _].
  destruct (Ha r ph Hr) as (ph' & Hp' & E). rewrite Hp'. f_equal.
  apply (rtc_no_successor (edge := sphase_edge) ph ph'); [|done]. intros p Hp. destruct Hf as [-> | ->]; inversion Hp.
Qed.

Lemma sfinal_phase_run (w w' : SWorld) (inputs : list SInput) (r : ReqId) (ph : SPhase) :
  sphase_of r w = Some ph -> sfinal ph -> srun w inputs = Some w' -> sphase_of r w' = Some ph.
Proof.
  revert w. induction inputs as [|i inputs IH]; intros w Hr Hf Hrun; simpl in Hrun.
  - by injection Hrun as <-.
  - destruct (sstep w i) as [w1|] eqn:Hs; [|done]. simpl in Hrun.
    apply (IH w1); [|done..]. by apply (sfinal_phase_stable w i w1).
Qed.

Lemma sreachable_run (w w' : SWorld) (inputs : list SInput) :
  sreachable w -> srun w inputs = Some w' -> sreachable w'.
Proof.
  revert w. induction inputs as [|i inputs IH]; intros w Hw Hrun; simpl in Hrun.
  - by injection Hrun as <-.
  - destruct (sstep w i) as [w1|] eqn:Hs; [|done]. apply (IH w1); [|done].
    by apply (sreachable_step w i w1).
Qed.

(** How many suspension points a request of server.js still has ahead. *)
Definition sphase_rank (ph : SPhase) : nat :=
  match ph with
  | SPhLoadingAuth _ => 3
  | SPhSleeping _ _ | SPhAwaitingQr _ (Some _) => 2
  | SPhRequesting _ | SPhAwaitingQr _ None => 1
  | SPhHung | SPhDone => 0
  end.

Lemma sphase_edge_rank (p p' : SPhase) : sphase_edge p p' -> sphase_rank p' < sphase_rank p.
Proof. intros E. destruct E as [| | | | | | |b t]; simpl; try lia. destruct t; simpl; lia. Qed.

Lemma sinitial_rank (p : SPhase) : sinitial_phase p -> sphase_rank p < 4.
Proof. intros [[path ->] | ->]; simpl; lia. Qed.

(** ** Runs *)


(** ** A QR request whose socket closed after its timer was cleared *)

(** [r] waits on [qrPromise] with its timer cleared by a first [qr], its
    socket [b] has closed, and no rendering for it is in flight. *)
Definition qr_stuck (r : ReqId) (b : BotId) (w : SWorld) : Prop :=
  sphase_of r w = Some (SPhAwaitingQr b None) /\
  (forall bot, sw_bots w !! b = Some bot -> sbot_closed bot = true) /\
  (forall k rd, sw_renders w !! k = Some rd -> rnd_req rd <> r).

Lemma closed_sock_end (b b0 : BotId) (e : option ErrInfo) (w : SWorld) :
  (forall bot, sw_bots w !! b = Some bot -> sbot_closed bot = true) ->
  forall bot, sw_bots (sock_end b0 e w) !! b = Some bot -> sbot_closed bot = true.
Proof.
  intros Hb. destruct (decide (b = b0)) as [->|Hne]; [apply sock_end_closes|].
  unfold sock_end. destruct (sw_bots w !! b0) as [bot0|]; [|done]. destruct (sbot_closed bot0); [done|].
  pose proof (sdispatch_close b0 e w) as Hd. unfold dirs_only in Hd. unfold sbot_update.
  rewrite Hd. simpl. rewrite lookup_alter_ne by done. apply Hb.
Qed.

Lemma qr_stuck_frame (r : ReqId) (b : BotId) (w w' : SWorld) :
  sw_reqs w' = sw_reqs w -> sw_bots w' = sw_bots w -> sw_renders w' = sw_renders w ->
  qr_stuck r b w -> qr_stuck r b w'.
Proof. intros Hq Hb Hr. unfold qr_stuck, sphase_of. by rewrite Hq, Hb, Hr. Qed.

Ltac qr_frame H := exact (qr_stuck_frame _ _ _ _ eq_refl eq_refl eq_refl H).

(** A phase change of another request. *)
Lemma sphase_of_sset_phase_ne (r r' : ReqId) (ph : SPhase) (w : SWorld) :
  r <> r' -> sphase_of r' (sset_phase r ph w) = sphase_of r' w.
Proof. intros Hne. rewrite sphase_of_sset_phase. by rewrite decide_False. Qed.

Lemma qr_stuck_set_phase (r r' : ReqId) (b : BotId) (ph : SPhase) (w : SWorld) :
  r' <> r -> qr_stuck r b w -> qr_stuck r b (sset_phase r' ph w).
Proof. intros Hne (H1 & H2 & H3). split; [by rewrite sphase_of_sset_phase_ne|]. done. Qed.

Lemma qr_stuck_respond (r r' : ReqId) (b : BotId) (st : Z) (body : SBody) (w : SWorld) :
  r' <> r -> qr_stuck r b w -> qr_stuck r b (srespond r' st body w).
Proof. intros Hne H. exact (qr_stuck_set_phase r r' b SPhDone w Hne H). Qed.

(** A request in another phase than [r]'s is another request. *)
Lemma qr_stuck_ne (r r' : ReqId) (b : BotId) (w : SWorld) :
  qr_stuck r b w -> sphase_of r' w <> Some (SPhAwaitingQr b None) -> r' <> r.
Proof. intros [H1 _] Hne ->. congruence. Qed.

Lemma qr_stuck_new_socket (r : ReqId) (b : BotId) (ev : Emitter EventName SListener) (w : SWorld) :
  b <> sw_next_bot w -> qr_stuck r b w -> qr_stuck r b (new_socket ev w).1.
Proof.
  intros Hne (H1 & H2 & H3). split; [done|]. split; [|done].
  intros bot. rewrite new_socket_lookup, decide_False by done. apply H2.
Qed.

Lemma qr_stuck_sock_end (r : ReqId) (b b0 : BotId) (e : option ErrInfo) (w : SWorld) :
  qr_stuck r b w -> qr_stuck r b (sock_end b0 e w).
Proof.
  intros (H1 & H2 & H3). destruct (sock_end_frame b0 e w) as (Hq & _ & Hr & _).
  split; [by rewrite sphase_of_sock_end|]. split; [by apply closed_sock_end|]. by rewrite Hr.
Qed.

Lemma qr_stuck_add_request (r r' : ReqId) (b : BotId) (rt : Route) (ph : SPhase) (w : SWorld) :
  sw_reqs w !! r' = None -> qr_stuck r b w -> qr_stuck r b (sadd_request r' rt ph w).
Proof.
  intros Hr' (H1 & H2 & H3). assert (r' <> r) by (intros ->; unfold sphase_of in H1; by rewrite Hr' in H1).
  split; [|done]. unfold sphase_of, sadd_request. simpl. by rewrite lookup_insert_ne.
Qed.

(** The QR listener of another request. *)
Lemma qr_stuck_qr_conn (r r' : ReqId) (b b' : BotId) (u : Update) (w : SWorld) :
  r' <> r -> qr_stuck r b w -> qr_stuck r b (qr_conn_update r' b' u w).
Proof.
  intros Hne H. unfold qr_conn_update.
  destruct (js_truthy _); [|destruct (is_conn_close u); [qr_frame H|done]].
  assert (H1 : qr_stuck r b (match sphase_of r' w with
                             | Some (SPhAwaitingQr b'' _) => sset_phase r' (SPhAwaitingQr b'' None) w
                             | _ => w end)).
  { destruct (sphase_of r' w) as [[]|] eqn:E; try done. by apply qr_stuck_set_phase. }
  destruct H1 as (H1 & H2 & H3). split; [done|]. split; [done|].
  intros k rd. simpl. rewrite lookup_insert. case_decide; [intros [= <-]; done|apply H3].
Qed.

Lemma qr_stuck_emit (w : SWorld) (b' : BotId) (ev : Event) (w' : SWorld) (r : ReqId) (b : BotId) :
  stables_ok w -> qr_stuck r b w -> semit b' ev w = Some w' -> qr_stuck r b w'.
Proof.
  intros Hs Hq Hstep. pose proof Hq as (Hr & Hb & _).
  unfold semit in Hstep. destruct (sw_bots w !! b') as [bot|] eqn:Eb; [|done].
  destruct (sbot_closed bot) eqn:Ec; [done|]. injection Hstep as <-.
  assert (Hbb : b <> b') by (intros ->; specialize (Hb bot Eb); congruence).
  assert (Hd : forall ev, qr_stuck r b (sdispatch b' ev w)).
  { intros ev'. unfold sdispatch. rewrite Eb.
    apply (dispatch_preserves (fun w0 => qr_stuck r b w0)); [|done].
    intros l w0 Hl Hq0. destruct l as [p|p|r' b''], ev' as [|u|]; try done; simpl.
    + destruct (_ && _); [qr_frame Hq0|done].
    + destruct (open_conn_listener w b' bot _ Hs Eb Ec Hl) as [[? ?]|(r0 & [= <- <-] & [t Ht])]; [done|].
      apply qr_stuck_qr_conn; [|done]. intros ->. congruence. }
  destruct ev; try apply Hd. case_match; [by apply qr_stuck_sock_end|apply Hd].
Qed.

(** A rendering of another request leaves a stuck QR request stuck. *)
Lemma qr_stuck_srendered (w : SWorld) (k : nat) (res : string + ErrInfo) (w' : SWorld) (r : ReqId) (b : BotId) :
  qr_stuck r b w -> srendered k res w = Some w' -> qr_stuck r b w'.
Proof.
  intros Hq Hstep. pose proof Hq as (Hr & Hb & Hrd).
  unfold srendered in Hstep. destruct (sw_renders w !! k) as [[r' b' cl]|] eqn:Ek; [|done].
  injection Hstep as <-.
  assert (Hne : r' <> r) by exact (Hrd k _ Ek).
  set (w0 := sw_with_renders (delete k (sw_renders w)) w).
  assert (H0 : qr_stuck r b w0).
  { split; [done|]. split; [done|]. intros k' rd. simpl. rewrite lookup_delete_Some. intros [_ ?]. by apply (Hrd k'). }
  destruct res; [|qr_frame H0].
  assert (H2 : qr_stuck r b (if cl then rm_dir qr_session_path (sock_end b' None w0) else sock_end b' None w0)).
  { destruct cl; [qr_frame (qr_stuck_sock_end r b b' None w0 H0)|by apply qr_stuck_sock_end]. }
  destruct (sphase_of r' w0) as [[]|]; try done. by apply qr_stuck_respond.
Qed.

Lemma qr_stuck_step (w : SWorld) (i : SInput) (w' : SWorld) (r : ReqId) (b : BotId) :
  stables_ok w -> qr_stuck r b w -> sstep w i = Some w' -> qr_stuck r b w'.
Proof.
  intros Hs Hq Hstep. pose proof Hq as (Hr & Hb & Hrd).
  destruct i as [r' rt q|r' res|b' ev|dt|r'|r' res|r'|k res]; simpl in Hstep.
  - case_decide as Hr'; [|done]. injection Hstep as <-. unfold srequest_arrives, spair_arrives, sqr_arrives.
    destruct rt; [destruct (number_truthy q)|].
    2: apply (qr_stuck_frame _ _ (sadd_request r' Index.RPair SPhDone w)); [done..|].
    all: by apply qr_stuck_add_request.
  - unfold sauth_state_loaded, spair_auth_loaded, sqr_auth_loaded in Hstep. destruct (sw_reqs w !! r') as [[rt []]|] eqn:E; try done.
    injection Hstep as <-.
    assert (Hne : r' <> r) by (apply (qr_stuck_ne r r' b w Hq); unfold sphase_of; by rewrite E).
    destruct res as [e|]; [apply (qr_stuck_frame _ _ (sset_phase r' SPhHung w)); [done..|]; by apply qr_stuck_set_phase|].
    assert (Hbx : b <> sw_next_bot w).
    { destruct Hs as (H1 & _ & H3 & _). destruct (H3 r b) as (bot & Eb & _); [by eexists|].
      intros ->. by rewrite H1 in Eb. }
    set (w0 := sw_with_dirs ({[path]} ∪ sw_dirs w) w).
    assert (H0 : qr_stuck r b w0) by qr_frame Hq.
    destruct rt; (apply qr_stuck_set_phase; [done|]); by apply qr_stuck_new_socket.
  - by apply (qr_stuck_emit w b' ev).
  - case_bool_decide; [|done]. injection Hstep as <-. qr_frame Hq.
  - unfold swake in Hstep. destruct (sphase_of r' w) as [[]|] eqn:E; try done.
    case_bool_decide; [|done]. injection Hstep as <-.
    apply qr_stuck_set_phase; [|done]. apply (qr_stuck_ne r r' b w Hq). by rewrite E.
  - unfold spairing_code_reply, spair_catch in Hstep. destruct (sphase_of r' w) as [[]|] eqn:E; try done.
    injection Hstep as <-. assert (Hne : r' <> r) by (apply (qr_stuck_ne r r' b w Hq); by rewrite E).
    destruct res; by apply qr_stuck_respond.
  - unfold sfire, sqr_catch in Hstep. destruct (sphase_of r' w) as [[| | |b' [d|]| |]|] eqn:E; try done.
    case_bool_decide; [|done]. injection Hstep as <-.
    apply qr_stuck_respond; [apply (qr_stuck_ne r r' b w Hq); by rewrite E|]. by apply qr_stuck_sock_end.
  - by apply (qr_stuck_srendered w k res).
Qed.

Lemma qr_stuck_run (w w' : SWorld) (inputs : list SInput) (r : ReqId) (b : BotId) :
  sreachable w -> qr_stuck r b w -> srun w inputs = Some w' -> qr_stuck r b w'.
Proof.
  revert w. induction inputs as [|i inputs IH]; intros w Hw Hq Hrun; simpl in Hrun.
  - by injection Hrun as <-.
  - destruct (sstep w i) as [w1|] eqn:Hs; [|done].
    apply (IH w1); [by apply (sreachable_step w i w1)| |done].
    exact (qr_stuck_step w i w1 r b (stables_ok_reachable w Hw) Hq Hs).
Qed.

End ServerInvariants.
