(* ===== verification/ServerProps.v ===== *)
(** * ServerProps: what [src/server.js] guarantees, and where it does not

    - Every request is answered at most once (C25), follows the protocol
      of its handler (C37) and is suspended a bounded number of times
      (C39).
    - The behaviour of the handlers on their branches, and the findings:
      the QR socket is ended, and its credentials removed, as soon as its
      first QR is rendered; [/pair] has no duplicate check and returns the
      raw code; a failed credential load leaves the request unanswered; a
      QR request whose socket closes after its timer was cleared hangs. *)

From S2P Require Import Prelude JsText Emitter Answered Protocol IndexServer ServerJs ServerInvariants.
From Stdlib Require Import ZArith.

Module ServerProps.
Import PairingCode Server ServerInvariants.

(** ** Properties of server.js *)

(** A rendering finishes: the request is answered if it was still waiting. *)
Lemma sanswered_srendered (w : SWorld) (k : nat) (res : string + ErrInfo) (w' : SWorld) :
  sanswered w -> srendered k res w = Some w' -> sanswered w'.
Proof.
  intros H Hs. unfold srendered in Hs. destruct (sw_renders w !! k) as [[r b cl]|]; [|done].
  injection Hs as <-. set (w0 := sw_with_renders _ w). assert (H0 : sanswered w0) by sframe H.
  destruct res as [qrImage|]; [|sframe H0]. cbv zeta.
  match goal with |- sanswered (if _ then srespond _ _ _ ?w2 else ?w2) =>
    assert (E2 : sw_reqs w2 = sw_reqs w0 /\ sw_out w2 = sw_out w0)
      by (destruct cl; split; cbn [rm_dir sw_with_dirs sw_reqs sw_out]; rewrite ?sock_end_reqs, ?sock_end_out; reflexivity);
    assert (H2 : sanswered w2) by exact (sanswered_frame w0 w2 (proj1 E2) (proj2 E2) H0);
    assert (Hph : sphase_of r w2 = sphase_of r w0) by (unfold sphase_of; by rewrite (proj1 E2)) end.
  destruct (sphase_of r w0) as [[]|] eqn:E; try done.
  apply sanswered_respond; rewrite ?Hph, ?E; done.
Qed.

Lemma sanswered_step (w : SWorld) (i : SInput) (w' : SWorld) :
  sanswered w -> sstep w i = Some w' -> sanswered w'.
Proof.
  intros H Hs. destruct i as [| | | | | | |k res];
    try (eapply sanswered_step_other; [exact H | exact Hs | by intros ? ? [=]]).
  by apply (sanswered_srendered w k res).
Qed.

Lemma sanswered_reachable (w : SWorld) : sreachable w -> sanswered w.
Proof.
  induction 1 as [|w i w' Hw IH Hs]; [apply answered_once_in_empty|].
  by eapply sanswered_step.
Qed.

(** C25: every request to [server.js] is answered at most once: in every
    reachable state a request has one response if its handler has finished
    and none otherwise. *)
Theorem server_answered_at_most_once (w : SWorld) :
  sreachable w -> forall r,
    length (responses_for r (sw_out w)) = if bool_decide (sphase_of r w = Some SPhDone) then 1 else 0.
Proof.
  intros Hw r. rewrite (sanswered_reachable w Hw r). unfold sphase_of, sfinished.
  destruct (sw_reqs w !! r) as [q|]; simpl; [|done].
  case_bool_decide; case_bool_decide; congruence.
Qed.

(** A request whose handler is stuck for good is never answered. *)
Lemma shung_never_answered (w w' : SWorld) (inputs : list SInput) (r : ReqId) :
  sreachable w -> sphase_of r w = Some SPhHung -> srun w inputs = Some w' ->
  responses_for r (sw_out w') = [].
Proof.
  intros Hw Hr Hrun. pose proof (sreachable_run w w' inputs Hw Hrun) as Hw'.
  pose proof (sanswered_reachable w' Hw' r) as H.
  pose proof (sfinal_phase_run w w' inputs r SPhHung Hr ltac:(by left) Hrun) as Hp.
  unfold sphase_of in Hp. destruct (sw_reqs w' !! r) as [q|]; [|done]. injection Hp as Hq.
  unfold sfinished in H. rewrite Hq, bool_decide_false in H by done. by apply nil_length_inv.
Qed.

(** C26: the first QR the [/qr] listener renders ends the session that
    produced it: the request is answered with the image, and in the same
    turn [sock.end()] closes the socket (its [close] listener then deletes
    [auth_info_qr]), so the QR shown to the user belongs to a socket that
    no longer exists and a scan cannot complete the login. *)
Theorem server_qr_render_ends_session (w : SWorld) (k : nat) (r : ReqId) (b : BotId) (cl : bool)
    (t : option Z) (bot : SBot) (qrImage : string) :
  sreachable w -> sw_renders w !! k = Some (mkRender r b cl) ->
  sphase_of r w = Some (SPhAwaitingQr b t) ->
  sw_bots w !! b = Some bot -> sbot_closed bot = false ->
  exists w', sstep w (SIRendered k (inl qrImage)) = Some w' /\
    sw_out w' = sw_out w ++ [(r, mkSResponse 200 (SBQr true qrImage srv_qr_instructions))] /\
    qr_session_path ∉ sw_dirs w' /\
    exists bot', sw_bots w' !! b = Some bot' /\ sbot_closed bot' = true /\
                 listeners Index.ConnectionUpdate (sbot_ev bot') = [].
Proof.
  intros Hw Ek Ht Eb Ec. destruct (awaiting_qr_table r b t bot w (stables_ok_reachable w Hw) Ht Eb Ec) as [p Ep].
  cbn [sstep]. unfold srendered. rewrite Ek. eexists; split; [reflexivity|].
  set (w0 := sw_with_renders _ w).
  rewrite (sock_end_qr b bot p r None w0 Eb Ec Ep).
  assert (Hph : sphase_of r w0 = Some (SPhAwaitingQr b t)) by done. rewrite Hph.
  assert (Hd : forall w1, qr_session_path ∉ sw_dirs w1 -> qr_session_path ∉ sw_dirs (if cl then rm_dir qr_session_path w1 else w1))
    by (intros w1 ?; destruct cl; [simpl; set_solver|done]).
  split; [by destruct cl|]. split.
  - apply Hd. simpl. set_solver.
  - eexists. split; [destruct cl; unfold srespond, ssend, sset_phase; simpl; by rewrite lookup_alter_eq, Eb|].
    split; [done|]. apply listeners_removeAll_eq.
Qed.

Lemma sock_end_closed (b : BotId) (bot : SBot) (e : option ErrInfo) (w : SWorld) :
  sw_bots w !! b = Some bot -> sbot_closed bot = true -> sock_end b e w = w.
Proof. intros Eb Ec. unfold sock_end. by rewrite Eb, Ec. Qed.

Lemma sw_out_srespond (r : ReqId) (st : Z) (body : SBody) (w : SWorld) :
  sw_out (srespond r st body w) = sw_out w ++ [(r, mkSResponse st body)].
Proof. reflexivity. Qed.

Lemma sw_bots_srespond (r : ReqId) (st : Z) (body : SBody) (w : SWorld) :
  sw_bots (srespond r st body w) = sw_bots w.
Proof. reflexivity. Qed.

Lemma sw_dirs_srespond (r : ReqId) (st : Z) (body : SBody) (w : SWorld) :
  sw_dirs (srespond r st body w) = sw_dirs w.
Proof. reflexivity. Qed.

(** C27: the 30 s timer of [/qr] fires exactly at or after its deadline
    while no QR has arrived; it ends the socket and the request is answered
    500 with the timeout message; if the socket was still open its
    [close] listener deletes [auth_info_qr]. *)
Theorem server_qr_timeout (w : SWorld) (r : ReqId) (b : BotId) (d : Z) :
  sreachable w -> sphase_of r w = Some (SPhAwaitingQr b (Some d)) -> (d <= sw_now w)%Z ->
  exists w', sstep w (SIFire r) = Some w' /\
    sw_out w' = sw_out w ++ [(r, mkSResponse 500 (SBError qr_fail_error (Some srv_qr_timeout_message)))] /\
    exists bot', sw_bots w' !! b = Some bot' /\ sbot_closed bot' = true /\
      (forall bot, sw_bots w !! b = Some bot -> sbot_closed bot = false -> qr_session_path ∉ sw_dirs w').
Proof.
  intros Hw Ht Hd. pose proof (stables_ok_reachable w Hw) as Hs.
  destruct Hs as (_ & _ & H3 & _). destruct (H3 r b) as (bot & Eb & _); [by exists (Some d)|].
  cbn [sstep]. unfold sfire, sqr_catch. rewrite Ht, bool_decide_true by done. eexists; split; [reflexivity|].
  rewrite sw_out_srespond, (proj1 (proj2 (sock_end_frame _ _ _))). split; [done|].
  rewrite sw_bots_srespond, sw_dirs_srespond.
  destruct (sbot_closed bot) eqn:Ec.
  - rewrite (sock_end_closed b bot) by done. exists bot. split_and!; [done..|]. intros ? ? ?. congruence.
  - destruct (awaiting_qr_table r b (Some d) bot w (stables_ok_reachable w Hw) Ht Eb Ec) as [p Ep].
    rewrite (sock_end_qr b bot p r _ w Eb Ec Ep). eexists. split; [by apply close_bot_lookup|].
    split; [done|]. intros _ _ _. simpl. set_solver.
Qed.

(** C28: a [close] of a [/pair] socket deletes its credential directory
    exactly when the status code is [DisconnectReason.loggedOut] (401);
    any other close leaves the credentials on disk. *)
Theorem server_pair_logout_deletes (w : SWorld) (b : BotId) (bot : SBot) (p : string) (e : option ErrInfo) :
  sw_bots w !! b = Some bot -> sbot_closed bot = false -> sbot_ev bot = pair_table p ->
  exists w', sstep w (SIEmit b (Index.EConnectionUpdate (close_update e))) = Some w' /\
    sw_dirs w' = (if bool_decide (e ≫= Index.err_status = Some loggedOut) then sw_dirs w ∖ {[p]} else sw_dirs w).
Proof.
  intros Eb Ec Et. cbn [sstep]. unfold semit. rewrite Eb, Ec. eexists; split; [reflexivity|].
  replace (is_conn_close (close_update e)) with true by reflexivity.
  rewrite (sock_end_pair b bot p _ w Eb Ec Et). unfold pair_conn_update, status_code. simpl.
  by case_bool_decide.
Qed.

(** C37: along every schedule, from any state, every request of server.js
    follows the protocol of its handler: a request present at the start
    moves along [sphase_edge] (credentials, then the delay and the code,
    or the QR wait whose timer the first [qr] clears, then answered or
    hung), never backwards and never out of a final phase; a request that
    arrives during the schedule starts loading its credentials or is
    answered at once. *)
Theorem server_request_protocol (w w' : SWorld) (inputs : list SInput) :
  srun w inputs = Some w' ->
  (forall r ph, sphase_of r w = Some ph -> exists ph', sphase_of r w' = Some ph' /\ rtc sphase_edge ph ph') /\
  (forall r ph', sphase_of r w = None -> sphase_of r w' = Some ph' ->
     exists ph0, sinitial_phase ph0 /\ rtc sphase_edge ph0 ph').
Proof.
  intros Hr. change (sfollows w w'). revert w Hr.
  induction inputs as [|i inputs IH]; intros w Hr; simpl in Hr; [injection Hr as <-; apply follows_refl|].
  destruct (sstep w i) as [w1|] eqn:E; [|done].
  apply (follows_trans w w1 w'); [exact (sstep_follows w i w1 E) | by apply IH].
Qed.

(** C39: termination of the handlers of server.js: along any schedule,
    from any state, the phase of a request changes at most [sphase_rank]
    times (three for a request in flight, four counting its arrival): the
    first [qr] can clear the timer once, and no handler is suspended and
    resumed without end. *)
Theorem server_request_moves_bounded (w : SWorld) (inputs : list SInput) (r : ReqId) :
  phase_changes sphase_of sstep r w inputs <=
    match sphase_of r w with Some ph => sphase_rank ph | None => 4 end.
Proof.
  apply (phase_changes_bounded sphase_of sstep sphase_edge sinitial_phase (fun _ => True) sphase_rank 4);
    [intros w0 i w1 _ Hs; split; [done | by apply (sstep_follows w0 i w1)] | exact sphase_edge_rank | exact sinitial_rank | done].
Qed.

(** C29: [useMultiFileAuthState] is awaited before the [try] of both
    handlers: when it rejects, the rejection reaches only the process-level
    [unhandledRejection] logger and the request is never answered. *)
Theorem server_auth_failure_unanswered (w : SWorld) (r : ReqId) (path : string) (e : ErrInfo) :
  sreachable w -> sphase_of r w = Some (SPhLoadingAuth path) ->
  exists w', sstep w (SIAuthState r (Some e)) = Some w' /\ r ∈ sw_unhandled w' /\
    forall inputs w'', srun w' inputs = Some w'' -> responses_for r (sw_out w'') = [].
Proof.
  intros Hw Hr. unfold sphase_of in Hr. destruct (sw_reqs w !! r) as [[rt ph]|] eqn:E; [|done].
  injection Hr as ->.
  assert (Hs : sstep w (SIAuthState r (Some e)) = Some (slog_unhandled r (sset_phase r SPhHung w)))
    by (cbn [sstep]; unfold sauth_state_loaded, spair_auth_loaded, sqr_auth_loaded; by rewrite E).
  eexists; split; [exact Hs|]. split; [simpl; set_solver|].
  intros inputs w'' Hrun. apply (shung_never_answered (slog_unhandled r (sset_phase r SPhHung w)) w'' inputs r); [by eapply sreachable_step| |done].
  unfold sphase_of. simpl. by rewrite lookup_alter_eq, E.
Qed.

(** C30: the [/pair] handler of [server.js] on its success path: a
    request with a truthy [number] loads [auth_info_<number>], waits 2 s,
    and answers 200 with the code exactly as the library returned it (not
    grouped in fours); the socket stays open with its two listeners. *)
Theorem server_pair_success_path (w : SWorld) (r : ReqId) (q : SQuery) (pairingCode : string) :
  sw_reqs w !! r = None -> number_truthy q = true ->
  exists w', srun w [SIRequest r Index.RPair q; SIAuthState r None; SITick pair_delay_ms; SIWake r;
                     SIPairingCode r (inl pairingCode)] = Some w' /\
    sw_out w' = sw_out w ++ [(r, mkSResponse 200 (SBCode true pairingCode))] /\
    pair_session_path q ∈ sw_dirs w' /\
    sw_bots w' !! sw_next_bot w = Some (mkSBot (pair_table (pair_session_path q)) false).
Proof.
  intros Hr Hq. cbn [srun sstep]. rewrite decide_True by done.
  unfold srequest_arrives, spair_arrives, sqr_arrives. rewrite Hq. simpl.
  unfold sauth_state_loaded, spair_auth_loaded, sqr_auth_loaded. simpl. rewrite lookup_insert_eq. simpl.
  unfold swake, sphase_of. simpl. rewrite lookup_alter_eq, lookup_insert_eq. simpl.
  rewrite bool_decide_true by (unfold pair_delay_ms; lia). simpl.
  unfold spairing_code_reply, spair_catch, sphase_of. simpl. rewrite lookup_alter_eq, lookup_alter_eq, lookup_insert_eq.
  simpl. eexists; split; [reflexivity|]. simpl. split; [done|]. split; [set_solver|].
  apply lookup_insert_eq.
Qed.

(** C32: [qrPromise] settles only through a rendered QR or the timer, and
    the first [qr] clears the timer.  When that rendering fails and the
    socket then closes (Baileys ends a socket whose QR codes were not
    scanned), nothing is left to settle it: the [/qr] request is never
    answered, whatever happens afterwards. *)
Theorem server_qr_hangs_after_close (w : SWorld) (r : ReqId) (b : BotId) :
  sreachable w -> sphase_of r w = Some (SPhAwaitingQr b None) ->
  (forall bot, sw_bots w !! b = Some bot -> sbot_closed bot = true) ->
  (forall k rd, sw_renders w !! k = Some rd -> rnd_req rd <> r) ->
  forall inputs w', srun w inputs = Some w' -> responses_for r (sw_out w') = [].
Proof.
  intros Hw Hr Hb Hrd inputs w' Hrun.
  destruct (qr_stuck_run w w' inputs r b Hw (conj Hr (conj Hb Hrd)) Hrun) as [Hr' _].
  pose proof (sanswered_reachable w' (sreachable_run w w' inputs Hw Hrun) r) as H.
  unfold sphase_of in Hr'. destruct (sw_reqs w' !! r) as [q|]; [|done]. injection Hr' as Hq.
  unfold sfinished in H. rewrite Hq, bool_decide_false in H by done. by apply nil_length_inv.
Qed.

(** ** Concrete schedules *)

(** The world a schedule from the initial state reaches. *)
Definition sworld_of (inputs : list SInput) : SWorld :=
  match srun sinit inputs with Some w => w | None => sinit end.

Lemma sreachable_world_of (inputs : list SInput) :
  is_Some (srun sinit inputs) -> sreachable (sworld_of inputs).
Proof.
  intros [w Hw]. unfold sworld_of. rewrite Hw. exact (sreachable_run sinit w inputs sreachable_init Hw).
Qed.

Definition qr_update (qr : string) : Event := Index.EConnectionUpdate (Index.mkUpdate None None (Some qr)).

Definition logout_error : ErrInfo := Index.mkErr "Intentional Logout" (Some 401%Z).

(** C31: [server.js] has no registry and no duplicate check.  From any
    state, two new [/pair] requests for one number, interleaved at their
    first [await], both get a socket on the same credential directory and
    both sleep their 2 s; a logout of the first socket then deletes the
    directory the second one, still open and asleep, is using. *)
Theorem server_pair_no_duplicate_check (w : SWorld) (r0 r1 : ReqId) (q : SQuery) (msg : string) :
  sw_reqs w !! r0 = None -> sw_reqs w !! r1 = None -> r0 <> r1 -> number_truthy q = true ->
  exists w', srun w [SIRequest r0 Index.RPair q; SIRequest r1 Index.RPair q; SIAuthState r0 None; SIAuthState r1 None] = Some w' /\
    sphase_of r0 w' = Some (SPhSleeping (sw_next_bot w) (sw_now w + 2000)%Z) /\
    sphase_of r1 w' = Some (SPhSleeping (S (sw_next_bot w)) (sw_now w + 2000)%Z) /\
    sw_bots w' !! sw_next_bot w = Some (mkSBot (pair_table (pair_session_path q)) false) /\
    sw_bots w' !! S (sw_next_bot w) = Some (mkSBot (pair_table (pair_session_path q)) false) /\
    exists w'', sstep w' (SIEmit (sw_next_bot w) (Index.EConnectionUpdate (close_update (Some (Index.mkErr msg (Some 401%Z)))))) = Some w'' /\
      (pair_session_path q ∉ sw_dirs w'') /\
      sw_bots w'' !! S (sw_next_bot w) = Some (mkSBot (pair_table (pair_session_path q)) false) /\
      sphase_of r1 w'' = Some (SPhSleeping (S (sw_next_bot w)) (sw_now w + 2000)%Z).
Proof.
  intros H0 H1 Hne Hq. cbn [srun sstep]. rewrite decide_True by done. cbn [mbind option_bind].
  rewrite decide_True by (unfold srequest_arrives, spair_arrives; rewrite Hq; simpl; by rewrite lookup_insert_ne).
  cbn [mbind option_bind]. unfold sauth_state_loaded, srequest_arrives, spair_arrives. rewrite Hq.
  cbn. rewrite lookup_insert_ne, lookup_insert_eq by done. cbn.
  simplify_map_eq. cbn. eexists; split; [reflexivity|]. unfold sphase_of. cbn.
  assert (Hb : sw_next_bot w <> S (sw_next_bot w)) by lia.
  split_and!; try by simplify_map_eq.
  unfold semit, spair_auth_loaded, new_socket, sset_phase, sadd_request. cbn. simplify_map_eq. cbn.
  unfold sock_end. cbn. simplify_map_eq. cbn. unfold sdispatch. cbn. simplify_map_eq. cbn.
  eexists; split; [reflexivity|]. cbn. simplify_map_eq. split_and!; [set_solver | done | done].
Qed.

Lemma server_pair_no_duplicate_check_witness :
  exists w', srun sinit [SIRequest 0 Index.RPair (SQString "628123456"); SIRequest 1 Index.RPair (SQString "628123456");
                         SIAuthState 0 None; SIAuthState 1 None] = Some w' /\
    sphase_of 0 w' = Some (SPhSleeping (sw_next_bot sinit) (sw_now sinit + 2000)%Z) /\
    sphase_of 1 w' = Some (SPhSleeping (S (sw_next_bot sinit)) (sw_now sinit + 2000)%Z) /\
    sw_bots w' !! sw_next_bot sinit = Some (mkSBot (pair_table (pair_session_path (SQString "628123456"))) false) /\
    sw_bots w' !! S (sw_next_bot sinit) = Some (mkSBot (pair_table (pair_session_path (SQString "628123456"))) false) /\
    exists w'', sstep w' (SIEmit (sw_next_bot sinit)
                  (Index.EConnectionUpdate (close_update (Some (Index.mkErr "Intentional Logout" (Some 401%Z)))))) = Some w'' /\
      (pair_session_path (SQString "628123456") ∉ sw_dirs w'') /\
      sw_bots w'' !! S (sw_next_bot sinit) = Some (mkSBot (pair_table (pair_session_path (SQString "628123456"))) false) /\
      sphase_of 1 w'' = Some (SPhSleeping (S (sw_next_bot sinit)) (sw_now sinit + 2000)%Z).
Proof.
  apply (server_pair_no_duplicate_check sinit 0 1 (SQString "628123456") "Intentional Logout");
    [reflexivity | reflexivity | lia | reflexivity].
Defined.

Definition qr_trace : list SInput :=
  [SIRequest 0 Index.RQr SQMissing; SIAuthState 0 None; SIEmit 0 (qr_update "2@AbCdEf")].

Lemma server_answered_at_most_once_witness :
  sreachable (sworld_of qr_trace) /\
  length (responses_for 0 (sw_out (sworld_of qr_trace))) =
  if bool_decide (sphase_of 0 (sworld_of qr_trace) = Some SPhDone) then 1 else 0.
Proof.
  split; [apply sreachable_world_of; vm_compute; by eexists|].
  apply server_answered_at_most_once. apply sreachable_world_of. vm_compute. by eexists.
Defined.

Lemma server_qr_render_ends_session_witness :
  exists w', sstep (sworld_of qr_trace) (SIRendered 0 (inl "data:image/png;base64,iVBORw0KGgo=")) = Some w' /\
    sw_out w' = sw_out (sworld_of qr_trace) ++
                [(0, mkSResponse 200 (SBQr true "data:image/png;base64,iVBORw0KGgo=" srv_qr_instructions))] /\
    qr_session_path ∉ sw_dirs w' /\
    exists bot', sw_bots w' !! 0 = Some bot' /\ sbot_closed bot' = true /\
                 listeners Index.ConnectionUpdate (sbot_ev bot') = [].
Proof.
  apply (server_qr_render_ends_session (sworld_of qr_trace) 0 0 0 false None
           (mkSBot (qr_table qr_session_path 0 0) false)).
  - apply sreachable_world_of. vm_compute. by eexists.
  - vm_compute. reflexivity.
  - vm_compute. reflexivity.
  - vm_compute. reflexivity.
  - reflexivity.
Defined.

Definition qr_wait_trace : list SInput :=
  [SIRequest 0 Index.RQr SQMissing; SIAuthState 0 None; SITick 30000].

Lemma server_qr_timeout_witness :
  exists w', sstep (sworld_of qr_wait_trace) (SIFire 0) = Some w' /\
    sw_out w' = sw_out (sworld_of qr_wait_trace) ++
                [(0, mkSResponse 500 (SBError qr_fail_error (Some srv_qr_timeout_message)))] /\
    exists bot', sw_bots w' !! 0 = Some bot' /\ sbot_closed bot' = true /\
      (forall bot, sw_bots (sworld_of qr_wait_trace) !! 0 = Some bot -> sbot_closed bot = false ->
                   qr_session_path ∉ sw_dirs w').
Proof.
  apply (server_qr_timeout (sworld_of qr_wait_trace) 0 0 30000).
  - apply sreachable_world_of. vm_compute. by eexists.
  - vm_compute. reflexivity.
  - vm_compute. discriminate.
Defined.

Definition pair_trace : list SInput :=
  [SIRequest 0 Index.RPair (SQString "628123456"); SIAuthState 0 None].

Lemma server_pair_logout_deletes_witness :
  exists w', sstep (sworld_of pair_trace) (SIEmit 0 (Index.EConnectionUpdate (close_update (Some logout_error))))
             = Some w' /\
    sw_dirs w' = (if bool_decide (Some logout_error ≫= Index.err_status = Some loggedOut)
                  then sw_dirs (sworld_of pair_trace) ∖ {[ "auth_info_628123456" ]}
                  else sw_dirs (sworld_of pair_trace)).
Proof.
  apply (server_pair_logout_deletes _ 0 (mkSBot (pair_table "auth_info_628123456") false)).
  - vm_compute. reflexivity.
  - reflexivity.
  - reflexivity.
Defined.

Lemma server_auth_failure_unanswered_witness :
  exists w', sstep (sworld_of [SIRequest 0 Index.RQr SQMissing])
               (SIAuthState 0 (Some (Index.mkErr "EACCES: permission denied" None))) = Some w' /\
    0 ∈ sw_unhandled w' /\
    forall inputs w'', srun w' inputs = Some w'' -> responses_for 0 (sw_out w'') = [].
Proof.
  apply (server_auth_failure_unanswered _ 0 qr_session_path).
  - apply sreachable_world_of. vm_compute. by eexists.
  - vm_compute. reflexivity.
Defined.

(** A QR arrives, its rendering fails, and the socket closes. *)
Definition qr_hang_trace : list SInput :=
  [SIRequest 0 Index.RQr SQMissing; SIAuthState 0 None; SIEmit 0 (qr_update "2@AbCdEf");
   SIRendered 0 (inr (Index.mkErr "The amount of data is too big to be stored in a QR Code" None));
   SIEmit 0 (Index.EConnectionUpdate (close_update (Some (Index.mkErr "QR refs attempts ended" (Some 408%Z)))))].

Lemma server_qr_hangs_after_close_witness :
  exists w', srun (sworld_of qr_hang_trace) [SITick 60000; SIFire 0] = None /\
             srun (sworld_of qr_hang_trace) [SITick 60000] = Some w' /\
             responses_for 0 (sw_out w') = [].
Proof.
  eexists. split; [vm_compute; reflexivity|]. split; [vm_compute; reflexivity|].
  apply (server_qr_hangs_after_close (sworld_of qr_hang_trace) 0 0) with (inputs := [SITick 60000]).
  - apply sreachable_world_of. vm_compute. by eexists.
  - vm_compute. reflexivity.
  - vm_compute. intros bot [= <-]. reflexivity.
  - intros k rd E. vm_compute in E. discriminate.
  - vm_compute. reflexivity.
Defined.

Lemma server_pair_success_path_witness :
  formatPairingCode "ABCD1234" = "ABCD-1234" /\
  exists w', srun sinit [SIRequest 0 Index.RPair (SQString "628123456"); SIAuthState 0 None;
                         SITick pair_delay_ms; SIWake 0; SIPairingCode 0 (inl "ABCD1234")] = Some w' /\
    sw_out w' = sw_out sinit ++ [(0, mkSResponse 200 (SBCode true "ABCD1234"))] /\
    pair_session_path (SQString "628123456") ∈ sw_dirs w' /\
    sw_bots w' !! sw_next_bot sinit = Some (mkSBot (pair_table (pair_session_path (SQString "628123456"))) false).
Proof.
  split; [reflexivity|]. apply server_pair_success_path; reflexivity.
Defined.

(** A [/qr] request whose first QR is rendered: four moves, the bound. *)
Definition qr_full_trace : list SInput := qr_trace ++ [SIRendered 0 (inl "data:image/png;base64,AAAA")].

Lemma server_request_protocol_witness :
  srun sinit qr_full_trace = Some (sworld_of qr_full_trace) /\
  sphase_of 0 (sworld_of qr_full_trace) = Some SPhDone /\
  (forall r ph, sphase_of r sinit = Some ph ->
     exists ph', sphase_of r (sworld_of qr_full_trace) = Some ph' /\ rtc sphase_edge ph ph') /\
  (forall r ph', sphase_of r sinit = None -> sphase_of r (sworld_of qr_full_trace) = Some ph' ->
     exists ph0, sinitial_phase ph0 /\ rtc sphase_edge ph0 ph').
Proof.
  split; [vm_compute; reflexivity|]. split; [vm_compute; reflexivity|].
  apply (server_request_protocol sinit _ qr_full_trace). vm_compute. reflexivity.
Defined.

Lemma server_request_moves_bounded_witness :
  phase_changes sphase_of sstep 0 sinit qr_full_trace = 4 /\
  phase_changes sphase_of sstep 0 sinit qr_full_trace <=
    match sphase_of 0 sinit with Some ph => sphase_rank ph | None => 4 end.
Proof. split; [vm_compute; reflexivity | apply server_request_moves_bounded]. Defined.

End ServerProps.
